(** * avtracking-app: the statistics proxy of [server.js]

    A shallow embedding of the token cache, the two row adapters, the
    merge by date of the [/stats] handler, [groupByPeriod], [sum] and the
    debug handlers, followed by the properties of these functions.

    Conventions of the embedding.
    - JavaScript values are the type [value]: the JSON values plus
      [undefined] and [NaN].  Numbers are integers ([Z]).  The code adds
      doubles: a sum of integers is the integer sum as long as it is at
      most 2^53 in magnitude, and is rounded beyond.  [JS.add] adds
      integers, which is enough where the value of a large sum does not
      matter; the properties that state the value of a sum are about the
      functions of [Dbl], which add doubles, and carry the bound within
      which the sums are exact ([within_exact], [exact_sums]).
    - An object is an association list in insertion order, without
      duplicate keys; a row or a bucket is an object.
    - A function that can throw returns a [result].
    - The runtime (Date, String, Array.prototype.sort, Map) is modelled
      after ECMAScript; what the engine is free to choose is pointed out
      at the definition concerned. *)

From Stdlib Require Import ZArith Ascii List Bool Lia DecimalString.
From Stdlib Require Import Sorted Permutation.
From Stdlib Require String.
From stdpp Require Import base list strings.
Import ListNotations.

Open Scope Z_scope.

(** ** Values *)

Set Warnings "-register-all,-clear-no-such-hyp".

Inductive value : Type :=
| VUndef
| VNull
| VBool (b : bool)
| VNum (n : Z)
| VNaN
| VStr (s : string)
| VArr (xs : list value)
| VObj (ps : list (string * value)).

Definition obj : Type := list (string * value).

Inductive error : Type :=
| TypeError
| RangeError
| SyntaxError
| FetchError
| OAuthError (status : Z) (txt : string).

Inductive result (A : Type) : Type :=
| Ok (a : A)
| Throw (e : error).

Arguments Ok {A} a.
Arguments Throw {A} e.

Definition bind {A B : Type} (r : result A) (k : A -> result B) : result B :=
  match r with
  | Ok a => k a
  | Throw e => Throw e
  end.

Notation "'let*' x ':=' r 'in' k" := (bind r (fun x => k))
  (at level 10, x name, r at level 100, k at level 200).

Module JS.

(** ToBoolean. *)
Definition truthy (v : value) : bool :=
  match v with
  | VUndef | VNull | VNaN => false
  | VBool b => b
  | VNum n => negb (n =? 0)%Z
  | VStr s => negb (String.eqb s "")
  | VArr _ | VObj _ => true
  end.

Definition nullish (v : value) : bool :=
  match v with
  | VUndef | VNull => true
  | _ => false
  end.

(** [a || b] and [a ?? b], for a right operand that cannot throw. *)
Definition or (a b : value) : value := if truthy a then a else b.
Definition coalesce (a b : value) : value := if nullish a then b else a.

Definition string_of_Z (n : Z) : string := NilZero.string_of_int (Z.to_int n).

(** ToString.  An array is joined with commas, [null] and [undefined]
    elements giving the empty string. *)
Fixpoint to_str (v : value) : string :=
  match v with
  | VUndef => "undefined"
  | VNull => "null"
  | VBool true => "true"
  | VBool false => "false"
  | VNum n => string_of_Z n
  | VNaN => "NaN"
  | VStr s => s
  | VArr xs =>
      (fix join (l : list value) : string :=
         match l with
         | [] => ""
         | x :: l' =>
             let e := match x with VUndef | VNull => "" | _ => to_str x end in
             match l' with
             | [] => e
             | _ :: _ => e +:+ "," +:+ join l'
             end
         end) xs
  | VObj _ => "[object Object]"
  end.

(** ToPrimitive: arrays and plain objects go through their [toString]. *)
Definition to_primitive (v : value) : value :=
  match v with
  | VArr _ | VObj _ => VStr (to_str v)
  | _ => v
  end.

Definition is_digit (c : ascii) : bool :=
  (48 <=? Z.of_nat (nat_of_ascii c)) && (Z.of_nat (nat_of_ascii c) <=? 57).

Definition digit_val (c : ascii) : Z := Z.of_nat (nat_of_ascii c) - 48.

Fixpoint digits_val (acc : Z) (s : string) : option Z :=
  match s with
  | EmptyString => Some acc
  | String c s' =>
      if is_digit c then digits_val (10 * acc + digit_val c) s' else None
  end.

(** StringToNumber on the numeric strings that denote an integer in plain
    decimal notation; the empty string is 0.  Strings in another notation
    (fraction, exponent, radix prefix, blanks) are outside the integer
    model of numbers and are taken as NaN. *)
Definition string_to_number (s : string) : value :=
  match s with
  | EmptyString => VNum 0
  | String "-"%char (String c r) =>
      match digits_val 0 (String c r) with
      | Some n => VNum (- n)
      | None => VNaN
      end
  | String "+"%char (String c r) =>
      match digits_val 0 (String c r) with
      | Some n => VNum n
      | None => VNaN
      end
  | _ =>
      match digits_val 0 s with
      | Some n => VNum n
      | None => VNaN
      end
  end.

(** ToNumber; the result is [VNum _] or [VNaN]. *)
Definition to_number (v : value) : value :=
  match to_primitive v with
  | VUndef => VNaN
  | VNull => VNum 0
  | VBool b => VNum (if b then 1 else 0)
  | VNum n => VNum n
  | VStr s => string_to_number s
  | _ => VNaN
  end.

(** [a + b]: concatenation as soon as one primitive is a string, a sum of
    numbers otherwise.  The sum of two numbers is the sum of the integers:
    this is what the code computes when the sum is at most 2^53 in
    magnitude; beyond, the double the code computes is rounded, which
    [Dbl.add] below follows. *)
Definition add (a b : value) : value :=
  match to_primitive a, to_primitive b with
  | VStr s, pb => VStr (s +:+ to_str pb)
  | pa, VStr s => VStr (to_str pa +:+ s)
  | pa, pb =>
      match to_number pa, to_number pb with
      | VNum x, VNum y => VNum (x + y)
      | _, _ => VNaN
      end
  end.

(** [a - b] *)
Definition sub (a b : value) : value :=
  match to_number a, to_number b with
  | VNum x, VNum y => VNum (x - y)
  | _, _ => VNaN
  end.

(** [a % b] on numbers; the sign follows the dividend. *)
Definition rem (a b : value) : value :=
  match to_number a, to_number b with
  | VNum x, VNum y => if (y =? 0)%Z then VNaN else VNum (Z.rem x y)
  | _, _ => VNaN
  end.

(** [a < b] between numbers: false as soon as one side is NaN. *)
Definition lt (a b : value) : bool :=
  match to_number a, to_number b with
  | VNum x, VNum y => x <? y
  | _, _ => false
  end.

(** Own property of an object.  None of the property names the program
    reads is defined on a built-in prototype, so reading one from a
    string, a number, a boolean or an array gives [undefined]. *)
Fixpoint lookup_prop (k : string) (ps : obj) : value :=
  match ps with
  | [] => VUndef
  | (k', v) :: ps' => if String.eqb k' k then v else lookup_prop k ps'
  end.

(** [o[k] = v] on an object: an existing key keeps its place. *)
Fixpoint set_prop (k : string) (v : value) (ps : obj) : obj :=
  match ps with
  | [] => [(k, v)]
  | (k', v') :: ps' =>
      if String.eqb k' k then (k, v) :: ps' else (k', v') :: set_prop k v ps'
  end.

(** [{ ...o, ...patch }] *)
Definition spread (o patch : obj) : obj :=
  fold_left (fun acc kv => set_prop (fst kv) (snd kv) acc) patch o.

(** [v.k]: throws on [null] and [undefined]. *)
Definition get (v : value) (k : string) : result value :=
  match v with
  | VUndef | VNull => Throw TypeError
  | VObj ps => Ok (lookup_prop k ps)
  | _ => Ok VUndef
  end.

(** [v?.k] *)
Definition get_opt (v : value) (k : string) : value :=
  match v with
  | VObj ps => lookup_prop k ps
  | _ => VUndef
  end.

Definition isArray (v : value) : bool :=
  match v with
  | VArr _ => true
  | _ => false
  end.

Fixpoint chars (s : string) : list value :=
  match s with
  | EmptyString => []
  | String c s' => VStr (String c EmptyString) :: chars s'
  end.

(** The values a [for (const x of v)] loop visits.  A string is iterated
    character by character (here byte by byte: the program reads only
    properties of the characters, which are all [undefined]); the other
    non-array values are not iterable. *)
Definition iterate (v : value) : result (list value) :=
  match v with
  | VArr xs => Ok xs
  | VStr s => Ok (chars s)
  | _ => Throw TypeError
  end.

(** [s.padStart(n, fill)] for a one-character [fill]. *)
Definition padStart (n : nat) (fill : ascii) (s : string) : string :=
  String.string_of_list_ascii (repeat fill (n - String.length s)) +:+ s.

(** [s.slice(0, n)] *)
Definition slice0 (n : nat) (s : string) : string := String.substring 0 n s.

(** [a.localeCompare(b)] on strings.  The engine compares with the
    collation of the host locale (ICU), which is not modelled: on calendar
    dates [YYYY-MM-DD] and on bucket keys, made of digits and hyphens, that
    order is the code-unit order used here; on other strings it is not
    (a collation puts "a" before "B").  The properties that state the
    order of an output are stated for such dates. *)
Definition localeCompare (a b : string) : comparison := String.compare a b.

End JS.

(** ** The runtime's Date

    Only UTC is used.  The calendar is the proleptic Gregorian one, computed
    by eras of 400 years (146097 days); day 0 is 1970-01-01. *)

Module Date.

Definition msPerDay : Z := 86400000.

(** Day of the era (from 0 to 146096) of the day [d] of the month [m] in
    the year [yoe] of the era, the years running from March to February. *)
Definition doe_of_civil (yoe m d : Z) : Z :=
  let doy := (153 * (if 2 <? m then m - 3 else m + 9) + 2) / 5 + d - 1 in
  yoe * 365 + yoe / 4 - yoe / 100 + doy.

(** Year of the era, month and day of the month of a day of the era. *)
Definition civil_of_doe (doe : Z) : Z * Z * Z :=
  let yoe := (doe - doe / 1460 + doe / 36524 - doe / 146096) / 365 in
  let doy := doe - (365 * yoe + yoe / 4 - yoe / 100) in
  let mp := (5 * doy + 2) / 153 in
  let d := doy - (153 * mp + 2) / 5 + 1 in
  let m := if mp <? 10 then mp + 3 else mp - 9 in
  (yoe, m, d).

(** Day number of the civil date [y]-[m]-[d] ([m] from 1 to 12). *)
Definition days_from_civil (y m d : Z) : Z :=
  let y' := if m <=? 2 then y - 1 else y in
  let era := y' / 400 in
  let yoe := y' - era * 400 in
  era * 146097 + doe_of_civil yoe m d - 719468.

(** Civil date (year, month from 1 to 12, day of the month) of a day
    number. *)
Definition civil_from_days (z : Z) : Z * Z * Z :=
  let z' := z + 719468 in
  let era := z' / 146097 in
  let doe := z' - era * 146097 in
  match civil_of_doe doe with
  | (yoe, m, d) =>
      (if m <=? 2 then yoe + era * 400 + 1 else yoe + era * 400, m, d)
  end.

(** Abstract operations of ECMAScript on time values (milliseconds). *)
Definition Day (tv : Z) : Z := tv / msPerDay.
Definition TimeWithinDay (tv : Z) : Z := tv mod msPerDay.
Definition YearFromTime (tv : Z) : Z := fst (fst (civil_from_days (Day tv))).
Definition MonthFromTime (tv : Z) : Z := snd (fst (civil_from_days (Day tv))) - 1.
Definition DateFromTime (tv : Z) : Z := snd (civil_from_days (Day tv)).
Definition WeekDay (tv : Z) : Z := (Day tv + 4) mod 7.
Definition MakeDay (year month date : Z) : Z :=
  days_from_civil (year + month / 12) (month mod 12 + 1) 1 + date - 1.
Definition MakeDate (day time : Z) : Z := day * msPerDay + time.

(** A Date object: a time value, or NaN for an invalid date. *)
Inductive t : Type :=
| Invalid
| At (tv : Z).

Definition TimeClip (tv : Z) : t :=
  if Z.abs tv <=? 8640000000000000 then At tv else Invalid.

Definition getUTCFullYear (d : t) : value :=
  match d with Invalid => VNaN | At tv => VNum (YearFromTime tv) end.
Definition getUTCMonth (d : t) : value :=
  match d with Invalid => VNaN | At tv => VNum (MonthFromTime tv) end.
Definition getUTCDate (d : t) : value :=
  match d with Invalid => VNaN | At tv => VNum (DateFromTime tv) end.
Definition getUTCDay (d : t) : value :=
  match d with Invalid => VNaN | At tv => VNum (WeekDay tv) end.

Definition setUTCDate (d : t) (dt : value) : t :=
  match d, JS.to_number dt with
  | At tv, VNum n =>
      TimeClip (MakeDate (MakeDay (YearFromTime tv) (MonthFromTime tv) n)
                         (TimeWithinDay tv))
  | _, _ => Invalid
  end.

Definition digit_char (n : Z) : ascii := ascii_of_nat (Z.to_nat (48 + n mod 10)).

(** The [w] low decimal digits of [n], most significant first. *)
Fixpoint pad_digits (w : nat) (n : Z) : string :=
  match w with
  | O => ""
  | S w' => pad_digits w' (n / 10) +:+ String (digit_char n) ""
  end.

(** Years from 0 to 9999 are written with four digits, the others with a
    sign and six digits. *)
Definition iso_year (y : Z) : string :=
  if (0 <=? y) && (y <=? 9999) then pad_digits 4 y
  else (if y <? 0 then "-" else "+") +:+ pad_digits 6 (Z.abs y).

(** [d.toISOString()]: throws a RangeError on an invalid date. *)
Definition toISOString (d : t) : result string :=
  match d with
  | Invalid => Throw RangeError
  | At tv =>
      let w := TimeWithinDay tv in
      Ok (iso_year (YearFromTime tv) +:+ "-" +:+
          pad_digits 2 (MonthFromTime tv + 1) +:+ "-" +:+
          pad_digits 2 (DateFromTime tv) +:+ "T" +:+
          pad_digits 2 (w / 3600000) +:+ ":" +:+
          pad_digits 2 (w / 60000 mod 60) +:+ ":" +:+
          pad_digits 2 (w / 1000 mod 60) +:+ "." +:+
          pad_digits 3 (w mod 1000) +:+ "Z")
  end.

Definition num2 (a b : ascii) : option Z :=
  if JS.is_digit a && JS.is_digit b
  then Some (10 * JS.digit_val a + JS.digit_val b) else None.

Definition num4 (a b c d : ascii) : option Z :=
  match num2 a b, num2 c d with
  | Some h, Some l => Some (100 * h + l)
  | _, _ => None
  end.

(** The year of a date form and the rest of the string: [YYYY], or a sign
    and six digits, [-000000] excluded. *)
Definition read_year (s : string) : option (Z * string) :=
  match s with
  | String "+"%char (String a (String b (String c (String d (String e (String f r)))))) =>
      match num2 a b, num4 c d e f with
      | Some h, Some l => Some (10000 * h + l, r)
      | _, _ => None
      end
  | String "-"%char (String a (String b (String c (String d (String e (String f r)))))) =>
      match num2 a b, num4 c d e f with
      | Some h, Some l =>
          if 10000 * h + l =? 0 then None else Some (- (10000 * h + l), r)
      | _, _ => None
      end
  | String a (String b (String c (String d r))) =>
      match num4 a b c d with
      | Some y => Some (y, r)
      | None => None
      end
  | _ => None
  end.

(** The optional fields [-MM] and [-MM-DD] after the year; a field that is
    not there counts as 1. *)
Definition read_month_day (s : string) : option (Z * Z * string) :=
  match s with
  | String "-"%char (String a (String b r)) =>
      match num2 a b with
      | None => None
      | Some m =>
          match r with
          | String "-"%char (String c (String d r')) =>
              match num2 c d with
              | Some dd => Some (m, dd, r')
              | None => None
              end
          | _ => Some (m, 1, r)
          end
      end
  | _ => Some (1, 1, s)
  end.

(** [new Date(s)] for a string [s] that ends with the time [T00:00:00Z],
    as [groupByPeriod] builds it.  Such a string is in the date-time format
    of ECMAScript when what precedes the time is one of the date forms
    [YYYY], [YYYY-MM], [YYYY-MM-DD] (with the extended years), months from
    01 to 12 and days from 01 to 31; a day past the end of its month runs
    into the next month, as V8 reads it.  What an engine makes of any other
    string is its own choice: the model gives an invalid date. *)
Definition of_string (s : string) : t :=
  match read_year s with
  | None => Invalid
  | Some (y, r1) =>
      match read_month_day r1 with
      | None => Invalid
      | Some (m, d, r2) =>
          if (1 <=? m) && (m <=? 12) && (1 <=? d) && (d <=? 31)
             && String.eqb r2 "T00:00:00Z"
          then TimeClip (MakeDate (MakeDay y (m - 1) d) 0)
          else Invalid
      end
  end.

End Date.

(** ** Loops, Map and sort *)

(** A [for] loop whose body can throw, threading the loop state. *)
Fixpoint foldM {A S : Type} (f : S -> A -> result S) (l : list A) (s : S)
  : result S :=
  match l with
  | [] => Ok s
  | x :: l' => let* s' := f s x in foldM f l' s'
  end.

(** A JavaScript [Map]: the entries in insertion order, one per key.  The
    key equality is a parameter (SameValueZero at the type of the keys). *)
Module JMap.
Section WithKey.
Context {K V : Type} (eqb : K -> K -> bool).

Fixpoint get (k : K) (m : list (K * V)) : option V :=
  match m with
  | [] => None
  | (k', v) :: m' => if eqb k' k then Some v else get k m'
  end.

Definition has (k : K) (m : list (K * V)) : bool :=
  match get k m with Some _ => true | None => false end.

(** [m.set(k, v)]: an existing key keeps its place. *)
Fixpoint set (k : K) (v : V) (m : list (K * V)) : list (K * V) :=
  match m with
  | [] => [(k, v)]
  | (k', v') :: m' =>
      if eqb k' k then (k', v) :: m' else (k', v') :: set k v m'
  end.

(** In-place update of the object stored under [k]. *)
Fixpoint update (k : K) (f : V -> V) (m : list (K * V)) : list (K * V) :=
  match m with
  | [] => []
  | (k', v) :: m' =>
      if eqb k' k then (k', f v) :: m' else (k', v) :: update k f m'
  end.

Definition values (m : list (K * V)) : list V := map snd m.
End WithKey.
End JMap.

(** [Array.prototype.sort] with a comparator that can throw.  The sort of
    ECMAScript is stable; the model is the stable insertion sort.  Which
    pairs an engine compares, and in which order, is its own choice, and so
    is the outcome when the comparator throws on some pairs only. *)
Section Sort.
Context {A : Type} (cmp : A -> A -> result comparison).

Fixpoint insert (x : A) (l : list A) : result (list A) :=
  match l with
  | [] => Ok [x]
  | y :: l' =>
      let* c := cmp x y in
      match c with
      | Gt => let* r := insert x l' in Ok (y :: r)
      | _ => Ok (x :: y :: l')
      end
  end.

Fixpoint sort (l : list A) : result (list A) :=
  match l with
  | [] => Ok []
  | x :: l' => let* s := sort l' in insert x s
  end.
End Sort.

(** The comparator [(a,b) => a.date.localeCompare(b.date)]: a type error
    when [a.date] is not a string, [b.date] being converted to one. *)
Definition compare_dates (a b : obj) : result comparison :=
  match JS.lookup_prop "date" a with
  | VStr s => Ok (JS.localeCompare s (JS.to_str (JS.lookup_prop "date" b)))
  | _ => Throw TypeError
  end.

(** ** [groupByPeriod] *)

(** [period === s] *)
Definition is_period (period : value) (s : string) : bool :=
  match period with
  | VStr p => String.eqb p s
  | _ => false
  end.

(** The bucket key of a row: lines 52 to 61. *)
Definition period_key (period : value) (r : obj) : result string :=
  let d := Date.of_string
             (JS.to_str (JS.add (JS.lookup_prop "date" r) (VStr "T00:00:00Z"))) in
  if is_period period "week" then
    let tmp := d in
    let wd := JS.rem (JS.add (Date.getUTCDay tmp) (VNum 6)) (VNum 7) in
    let tmp := Date.setUTCDate tmp (JS.sub (Date.getUTCDate tmp) wd) in
    let* iso := Date.toISOString tmp in
    Ok (JS.slice0 10 iso)
  else if is_period period "month" then
    Ok (JS.to_str (Date.getUTCFullYear d) +:+ "-" +:+
        JS.padStart 2 "0" (JS.to_str (JS.add (Date.getUTCMonth d) (VNum 1))) +:+
        "-01")
  else
    let* iso := Date.toISOString d in
    Ok (JS.slice0 10 iso).

Definition new_bucket (key : string) : obj :=
  [("date", VStr key); ("views", VNum 0); ("clicks", VNum 0);
   ("contacts", VNum 0); ("calls", VNum 0); ("sales", VNum 0)].

(** [acc.k += r.k || 0] *)
Definition add_field (k : string) (r acc : obj) : obj :=
  JS.set_prop k
    (JS.add (JS.lookup_prop k acc) (JS.or (JS.lookup_prop k r) (VNum 0))) acc.

Definition accumulate (r acc : obj) : obj :=
  add_field "sales" r
    (add_field "calls" r
       (add_field "contacts" r
          (add_field "clicks" r
             (add_field "views" r acc)))).

(** One turn of the loop of lines 51 to 70. *)
Definition group_step (period : value) (m : list (string * obj)) (r : obj)
  : result (list (string * obj)) :=
  let* key := period_key period r in
  let m := if JMap.has String.eqb key m then m
           else JMap.set String.eqb key (new_bucket key) m in
  Ok (JMap.update String.eqb key (accumulate r) m).

(** A parameter or a destructured property with the default ["day"]: the
    default stands for [undefined]. *)
Definition default_day (v : value) : value :=
  match v with
  | VUndef => VStr "day"
  | _ => v
  end.

Definition groupByPeriod (rows : list obj) (period : value) : result (list obj) :=
  let period := default_day period in
  let* m := foldM (group_step period) rows [] in
  sort compare_dates (JMap.values m).

(** ** The adapters *)

(** [push(date, patch)] of [adaptItemsStats]. *)
Definition push_row (date : value) (patch : obj) : obj :=
  JS.spread
    [("date", date); ("views", VNum 0); ("clicks", VNull);
     ("contacts", VNum 0); ("calls", VNum 0); ("sales", VNum 0)]
    patch.

(** [d.date || d.day || d.dt]: the three reads throw together, when [d] is
    [null], and have no effect, so that reading all three first changes
    nothing. *)
Definition entry_date (d : value) : result value :=
  let* a := JS.get d "date" in
  let* b := JS.get d "day" in
  let* c := JS.get d "dt" in
  Ok (JS.or a (JS.or b c)).

(** [d.k1 ?? d.k2 ?? d.k3 ?? 0] *)
Definition first_defined (d : value) (k1 k2 k3 : string) : result value :=
  let* a := JS.get d k1 in
  let* b := JS.get d k2 in
  let* c := JS.get d k3 in
  Ok (JS.coalesce a (JS.coalesce b (JS.coalesce c (VNum 0)))).

(** Body of the loop of lines 95 to 103: the rows so far, then the row of
    the daily entry [d] if it has a date. *)
Definition item_entry (rows : list obj) (d : value) : result (list obj) :=
  let* date := entry_date d in
  if negb (JS.truthy date) then Ok rows
  else
    let* views := first_defined d "views" "uniqViews" "totalViews" in
    let* contacts := first_defined d "contacts" "uniqContacts" "totalContacts" in
    Ok (rows ++ [push_row date [("views", views); ("contacts", contacts)]]).

(** Body of the loop of lines 93 to 104. *)
Definition item_record (rows : list obj) (b : value) : result (list obj) :=
  let dates :=
    JS.or (JS.get_opt b "stats")
      (JS.or (JS.get_opt b "dates")
         (JS.or (JS.get_opt b "statistics") (VArr []))) in
  let* ds := JS.iterate dates in
  foldM item_entry ds rows.

(** [...v] for a value known to be an array. *)
Definition elements (v : value) : list value :=
  match v with
  | VArr xs => xs
  | _ => []
  end.

Definition adaptItemsStats (raw : value) : result (list obj) :=
  let buckets := [] in
  let buckets :=
    if JS.isArray (JS.get_opt raw "result")
    then buckets ++ elements (JS.get_opt raw "result") else buckets in
  let buckets :=
    if JS.isArray (JS.get_opt raw "data")
    then buckets ++ elements (JS.get_opt raw "data") else buckets in
  foldM item_record buckets [].

(** Body of the loop of lines 111 to 115. *)
Definition call_entry (rows : list obj) (it : value) : result (list obj) :=
  let* date := entry_date it in
  if negb (JS.truthy date) then Ok rows
  else
    let* calls := first_defined it "calls" "success_calls" "total" in
    Ok (rows ++ [[("date", date); ("calls", calls)]]).

Definition adaptCallsStats (raw : value) : result (list obj) :=
  let items :=
    JS.or (JS.get_opt raw "result") (JS.or (JS.get_opt raw "data") (VArr [])) in
  let* its := JS.iterate items in
  foldM call_entry its [].

(** ** The merge by date of the [/stats] handler (lines 182 to 188)

    The rows are objects shared between the array [rows] and the map: the
    loop updates them in place.  The store [h] holds the objects; the rows
    of the array are its first entries, in order, and the map holds
    indices into it. *)

(** SameValueZero on the keys of the map.  Two arrays or two objects are
    the same value only when they are the same object, which never happens
    here: every date comes from its own place in a parsed JSON text. *)
Definition same_value_zero (a b : value) : bool :=
  match a, b with
  | VUndef, VUndef | VNull, VNull | VNaN, VNaN => true
  | VBool x, VBool y => Bool.eqb x y
  | VNum x, VNum y => x =? y
  | VStr x, VStr y => String.eqb x y
  | _, _ => false
  end.

Definition date_map : Type := list (value * nat).

(** [new Map(rows.map(r => [r.date, r]))], the row at index [i] being the
    object [i] of the store. *)
Fixpoint map_of_rows (i : nat) (rows : list obj) (m : date_map) : date_map :=
  match rows with
  | [] => m
  | r :: rows' =>
      map_of_rows (S i) rows'
        (JMap.set same_value_zero (JS.lookup_prop "date" r) i m)
  end.

(** [t.calls = (t.calls||0) + (c.calls||0)] *)
Definition add_calls (c t : obj) : obj :=
  JS.set_prop "calls"
    (JS.add (JS.or (JS.lookup_prop "calls" t) (VNum 0))
            (JS.or (JS.lookup_prop "calls" c) (VNum 0))) t.

(** One turn of the loop of lines 183 to 187. *)
Definition merge_call (st : list obj * date_map) (c : obj) : list obj * date_map :=
  let '(h, m) := st in
  let date := JS.lookup_prop "date" c in
  let '(h, i) :=
    match JMap.get same_value_zero date m with
    | Some i => (h, i)
    | None => (h ++ [[("date", date)]], length h)
    end in
  (alter (add_calls c) i h, JMap.set same_value_zero date i m).

(** The store and the map after the loop. *)
Definition merge_loop (rows calls : list obj) : list obj * date_map :=
  fold_left merge_call calls (rows, map_of_rows 0 rows []).

(** The objects of the map, in its order. *)
Definition map_rows (st : list obj * date_map) : list obj :=
  map (fun i => fst st !!! i) (JMap.values (snd st)).

(** Lines 182 to 188: the sorted rows. *)
Definition merge (rows calls : list obj) : result (list obj) :=
  sort compare_dates (map_rows (merge_loop rows calls)).

(** ** The token cache *)

Record cache : Type := {
  accessToken : value;
  tokenExp : value
}.

Definition initial_cache : cache := {| accessToken := VNull; tokenExp := VNum 0 |}.

(** Outcome of a [fetch]: a network failure, or a response with its
    status and its body; [json] is the value [r.json()] resolves to, if the
    text is JSON. *)
Record http_response : Type := {
  ok : bool;
  status : Z;
  text : string;
  json : option value
}.

Inductive fetch_outcome : Type :=
| NetworkFailure
| Response (r : http_response).

Definition fetched (o : fetch_outcome) : result http_response :=
  match o with
  | NetworkFailure => Throw FetchError
  | Response r => Ok r
  end.

(** [await r.json()] *)
Definition read_json (r : http_response) : result value :=
  match json r with
  | Some j => Ok j
  | None => Throw SyntaxError
  end.

(** [Math.floor(Date.now() / 1000)], the clock giving milliseconds. *)
Definition seconds (clock_ms : Z) : Z := clock_ms / 1000.

(** What [getAccessToken] leaves behind: its result, the cache, and
    whether it called the token endpoint. *)
Record token_run : Type := {
  outcome : result value;
  cache_after : cache;
  exchanged : bool
}.

(** [getAccessToken] (lines 23 to 45).  [clock1] and [clock2] are the two
    readings of [Date.now()], [net] the outcome of the call to the token
    endpoint, should it be made. *)
Definition getAccessToken (st : cache) (clock1 : Z) (net : fetch_outcome)
    (clock2 : Z) : token_run :=
  let now := seconds clock1 in
  if JS.truthy (accessToken st)
     && JS.lt (VNum now) (JS.sub (tokenExp st) (VNum 60))
  then {| outcome := Ok (accessToken st); cache_after := st; exchanged := false |}
  else
    match fetched net with
    | Throw e => {| outcome := Throw e; cache_after := st; exchanged := true |}
    | Ok r =>
        if negb (ok r)
        then {| outcome := Throw (OAuthError (status r) (text r));
                cache_after := st; exchanged := true |}
        else
          match read_json r with
          | Throw e => {| outcome := Throw e; cache_after := st; exchanged := true |}
          | Ok j =>
              match JS.get j "access_token" with
              | Throw e =>
                  {| outcome := Throw e; cache_after := st; exchanged := true |}
              | Ok tok =>
                  let exp :=
                    JS.add (VNum (seconds clock2))
                           (JS.or (JS.get_opt j "expires_in") (VNum 3600)) in
                  let st' := {| accessToken := tok; tokenExp := exp |} in
                  {| outcome := Ok (accessToken st');
                     cache_after := st'; exchanged := true |}
              end
          end
    end.

(** ** The [/stats] handler (lines 157 to 199) *)

Record query : Type := {
  itemId : value;
  dateFrom : value;
  dateTo : value;
  grouping : value
}.

Inductive http_reply : Type :=
| Reply200 (item : value) (series : list obj)
| Reply500 (e : error).

(** The inner [try { ... } catch {}] of lines 172 to 190: the rows the
    handler goes on with.  When the sort throws, the assignment to [rows]
    has not happened, but the loop has updated the rows in place. *)
Definition with_calls (rows : list obj) (calls_net : fetch_outcome) : list obj :=
  match fetched calls_net with
  | Throw _ => rows
  | Ok r2 =>
      if ok r2 then
        match read_json r2 with
        | Throw _ => rows
        | Ok j2 =>
            match adaptCallsStats j2 with
            | Throw _ => rows
            | Ok calls =>
                let st := merge_loop rows calls in
                match sort compare_dates (map_rows st) with
                | Ok merged => merged
                | Throw _ => take (length rows) (fst st)
                end
            end
        end
      else rows
  end.

(** The body of the outer [try]. *)
Definition stats_body (tok : result value) (items_net calls_net : fetch_outcome)
    (q : query) : result (list obj) :=
  let grouping := default_day (grouping q) in
  let* token := tok in
  let* r1 := fetched items_net in
  let* j1 := read_json r1 in
  let* rows := adaptItemsStats j1 in
  let rows := with_calls rows calls_net in
  groupByPeriod rows grouping.

Definition stats (st : cache) (clock1 clock2 : Z)
    (token_net items_net calls_net : fetch_outcome) (q : query)
  : http_reply * cache :=
  let run := getAccessToken st clock1 token_net clock2 in
  (match stats_body (outcome run) items_net calls_net q with
   | Ok grouped => Reply200 (itemId q) grouped
   | Throw e => Reply500 e
   end,
   cache_after run).

(** ** Vocabulary of the properties *)

Definition numeric_fields : list string :=
  ["views"; "clicks"; "contacts"; "calls"; "sales"].

Definition is_leap (y : Z) : bool :=
  (y mod 4 =? 0) && (negb (y mod 100 =? 0) || (y mod 400 =? 0)).

Definition days_in_month (y m : Z) : Z :=
  if m =? 2 then (if is_leap y then 29 else 28)
  else if (m =? 4) || (m =? 6) || (m =? 9) || (m =? 11) then 30
  else 31.

Definition zrange (n : nat) : list Z := map Z.of_nat (seq 0 n).

Definition era_date_ok (yoe m d : Z) : bool :=
  let doe := Date.doe_of_civil yoe m d in
  (0 <=? doe) && (doe <? 146097) &&
  match Date.civil_of_doe doe with
  | (yoe', m', d') => (yoe' =? yoe) && (m' =? m) && (d' =? d)
  end.

(** The check of a date of an era, for the dates of the calendar: the day
    is at most the length of the month, the year of the era starting in
    March, so that January and February belong to the civil year after
    it. *)
Definition era_date_check (yoe m d : Z) : bool :=
  implb (d <=? days_in_month (if m <=? 2 then yoe + 1 else yoe) m)
        (era_date_ok yoe m d).

Definition forallb3 (f : Z -> Z -> Z -> bool) (l1 l2 l3 : list Z) : bool :=
  forallb (fun a => forallb (fun b => forallb (fun c => f a b c) l3) l2) l1.

(** A calendar date written [YYYY-MM-DD]. *)
Definition iso_date (s : string) : bool :=
  match s with
  | String a (String b (String c (String d (String h1
      (String e (String f (String h2 (String g (String h EmptyString))))))))) =>
      Ascii.eqb h1 "-" && Ascii.eqb h2 "-" &&
      match Date.num4 a b c d, Date.num2 e f, Date.num2 g h with
      | Some y, Some m, Some dd =>
          (1 <=? m) && (m <=? 12) && (1 <=? dd) && (dd <=? days_in_month y m)
      | _, _, _ => false
      end
  | _ => false
  end.

(** A numeric field of a row: a number, [null], or not there. *)
Definition number_or_absent (v : value) : bool :=
  match v with
  | VNum _ | VNull | VUndef => true
  | _ => false
  end.

Definition numeric_row (r : obj) : bool :=
  forallb (fun k => number_or_absent (JS.lookup_prop k r)) numeric_fields.

(** A canonical row: an ISO calendar date and numeric fields. *)
Definition canonical_row (r : obj) : bool :=
  match JS.lookup_prop "date" r with
  | VStr s => iso_date s
  | _ => false
  end && numeric_row r.

(** The number a field stands for, absent and [null] counting as 0. *)
Definition field_num (k : string) (r : obj) : Z :=
  match JS.lookup_prop k r with
  | VNum n => n
  | _ => 0
  end.

Definition total (k : string) (rows : list obj) : Z :=
  fold_right (fun r acc => field_num k r + acc) 0 rows.

(** The range in which the code's sums are exact: every integer of
    magnitude at most 2^53 is a double, and a sum of doubles whose value is
    such an integer is that integer. *)
Definition max_exact : Z := 2 ^ 53.

(** The sum of the magnitudes of a field over the rows: it bounds the sum
    of the field over any part of the rows added in any order, a running
    sum that starts from 0 included. *)
Definition magnitude (k : string) (rows : list obj) : Z :=
  fold_right (fun r acc => Z.abs (field_num k r) + acc) 0 rows.

Definition within_exact (k : string) (rows : list obj) : bool :=
  magnitude k rows <=? max_exact.

(** Every sum the code makes over the numeric fields of the rows is
    exact. *)
Definition exact_sums (rows : list obj) : bool :=
  forallb (fun k => within_exact k rows) numeric_fields.

(** The rows of [rows] whose bucket key is [key]. *)
Definition in_bucket (period : value) (key : string) (r : obj) : bool :=
  match period_key period r with
  | Ok k => String.eqb k key
  | Throw _ => false
  end.

Definition mk_bucket (key : string) (views clicks contacts calls sales : Z) : obj :=
  [("date", VStr key); ("views", VNum views); ("clicks", VNum clicks);
   ("contacts", VNum contacts); ("calls", VNum calls); ("sales", VNum sales)].

(** The bucket of [key] over [rows]: each field is the sum of that field
    over the rows of the bucket. *)
Definition bucket_of (period : value) (rows : list obj) (key : string) : obj :=
  let mine := List.filter (in_bucket period key) rows in
  mk_bucket key (total "views" mine) (total "clicks" mine)
    (total "contacts" mine) (total "calls" mine) (total "sales" mine).

(** The bucket keys of [rows], in the order of their first row. *)
Definition add_key (period : value) (ks : list string) (r : obj) : list string :=
  match period_key period r with
  | Ok k => if existsb (fun k' => String.eqb k' k) ks then ks else ks ++ [k]
  | Throw _ => ks
  end.

Definition keys_of (period : value) (rows : list obj) : list string :=
  fold_left (add_key period) rows [].

(** The buckets of [rows], as the map of [groupByPeriod] holds them. *)
Definition buckets_of (period : value) (rows : list obj) : list (string * obj) :=
  map (fun k => (k, bucket_of period rows k)) (keys_of period rows).

(** The sum of [f] over the keys [ks]. *)
Definition sum_over (f : string -> Z) (ks : list string) : Z :=
  fold_right (fun key acc => f key + acc) 0 ks.

Definition date_key (b : obj) : string := JS.to_str (JS.lookup_prop "date" b).

(** A row whose date is a string. *)
Definition has_string_date (b : obj) : Prop :=
  exists s, JS.lookup_prop "date" b = VStr s.

(** A row whose date is a calendar date written [YYYY-MM-DD]. *)
Definition has_iso_date (b : obj) : Prop :=
  exists s, JS.lookup_prop "date" b = VStr s /\ iso_date s = true.

(** The order the comparator of the sort decides: not after. *)
Definition date_le (a b : obj) : Prop :=
  String.compare (date_key a) (date_key b) <> Gt.

(** Ascending by date, in code-unit order, without equal dates. *)
Definition ascending (l : list obj) : Prop :=
  StronglySorted (fun a b => String.compare (date_key a) (date_key b) = Lt) l.

(** The rows of [rows] carrying the date [d], as the map of the merge
    compares dates. *)
Definition has_date (d : value) (r : obj) : bool :=
  same_value_zero (JS.lookup_prop "date" r) d.


Definition last_with_date (d : value) (rows : list obj) : option obj :=
  List.find (has_date d) (rev rows).

(** [a] carries the field values of [b], the calls apart, which the merge
    adds to. *)
Definition carries (a b : obj) : Prop :=
  forall k, k <> "calls"%string -> JS.lookup_prop k a = JS.lookup_prop k b.

(** The keys of a map are pairwise different values. *)
Fixpoint keys_distinct (m : date_map) : Prop :=
  match m with
  | [] => True
  | (k, _) :: m' =>
      Forall (fun kv => same_value_zero k (fst kv) = false) m' /\ keys_distinct m'
  end.

(** Every entry of the map points to an object of the store whose date is
    the key of the entry. *)
Definition entries_dated (h : list obj) (m : date_map) : Prop :=
  forall k j, In (k, j) m ->
    exists t, h !! j = Some t /\ JS.lookup_prop "date" t = k.

(** A row or a bucket whose [calls] is the number 0. *)
Definition no_calls (r : obj) : Prop := JS.lookup_prop "calls" r = VNum 0.

(** The call-stats fetch failed: network error, non-success status, or a
    body that is not JSON. *)
Definition calls_failed (o : fetch_outcome) : Prop :=
  match o with
  | NetworkFailure => True
  | Response r => ok r = false \/ json r = None
  end.

(** The token exchange failed: network error, non-success status, a body
    that is not JSON, or one that is [null]. *)
Definition exchange_failed (o : fetch_outcome) : Prop :=
  match o with
  | NetworkFailure => True
  | Response r =>
      ok r = false \/ json r = None \/
      exists j, json r = Some j /\ JS.nullish j = true
  end.

(** ** Examples *)

(** The item rows and the call pair of the end-to-end example. *)
Module Example.

Definition item_rows : list obj :=
  [ [("date", VStr "2024-01-01"); ("views", VNum 10); ("contacts", VNum 2)];
    [("date", VStr "2024-01-02"); ("views", VNum 5); ("contacts", VNum 1)] ].

Definition call_pairs : list obj :=
  [ [("date", VStr "2024-01-01"); ("calls", VNum 3)] ].

End Example.

Module SeriesExample.

Definition entry : value := VObj [("date", VStr "2024-01-01"); ("views", VNum 1)].


(** The same record without its [stats] key. *)
Definition dates_only : value :=
  VObj [("result", VArr [VObj [("dates", VArr [entry])]])].

End SeriesExample.

Module TokenExample.

(** A successful response whose JSON body is the empty object. *)
Definition no_token : fetch_outcome :=
  Response {| ok := true; status := 200; text := "{}"; json := Some (VObj []) |}.

End TokenExample.

Module StatsExample.

Definition token_ok : fetch_outcome :=
  Response {| ok := true; status := 200; text := "";
              json := Some (VObj [("access_token", VStr "abc");
                                  ("expires_in", VNum 3600)]) |}.

(** One record with one daily entry. *)
Definition items_ok : fetch_outcome :=
  Response {| ok := true; status := 200; text := "";
              json := Some (VObj [("result", VArr [VObj [("stats", VArr
                        [VObj [("date", VStr "2024-01-01"); ("uniqViews", VNum 5)]])]])]) |}.

(** The call statistics answer with a server error. *)
Definition calls_down : fetch_outcome :=
  Response {| ok := false; status := 503; text := "unavailable"; json := None |}.

Definition request : query :=
  {| itemId := VStr "42"; dateFrom := VStr "2024-01-01";
     dateTo := VStr "2024-01-31"; grouping := VUndef |}.

End StatsExample.

Module DuplicateExample.

Definition first : obj :=
  [("date", VStr "2024-01-01"); ("views", VNum 1); ("clicks", VNull);
   ("contacts", VNum 0); ("calls", VNum 0); ("sales", VNum 0)].

Definition second : obj :=
  [("date", VStr "2024-01-01"); ("views", VNum 2); ("clicks", VNull);
   ("contacts", VNum 0); ("calls", VNum 0); ("sales", VNum 0)].

(** Two item rows with the same date. *)
Definition rows : list obj := [first; second].

End DuplicateExample.

(** ** The debug handlers *)

(** The handlers [/debug/items] and [/debug/calls] (lines 120 to 154):
    the token, one call upstream, and the parsed body sent back as it is.
    The two differ by the request they send only. *)
Inductive debug_reply : Type :=
| Debug200 (body : value)
| Debug500 (e : error).

Definition debug_body (tok : result value) (net : fetch_outcome) : result value :=
  let* token := tok in
  let* r := fetched net in
  read_json r.

Definition debug_handler (st : cache) (clock1 clock2 : Z)
    (token_net upstream_net : fetch_outcome) : debug_reply * cache :=
  let run := getAccessToken st clock1 token_net clock2 in
  (match debug_body (outcome run) upstream_net with
   | Ok j => Debug200 j
   | Throw e => Debug500 e
   end,
   cache_after run).

Definition debug_items := debug_handler.
Definition debug_calls := debug_handler.

(** ** Sums of doubles

    The numbers of the code are doubles.  On integers, the sum of two
    doubles is the integer sum rounded to the nearest double, a tie going
    to the double whose significand is even (IEEE 754, which ECMAScript
    follows): [Double.round], for magnitudes below 2^1024, beyond which a
    double has no finite value.  An integer of magnitude at most 2^53 is a
    double.

    The functions of [Dbl] are the functions of the program that add up
    rows ([groupByPeriod], the merge of [/stats], [sum]) with this sum in
    place of the integer sum of [JS.add]; their other steps are those of
    the functions above, and within the exact range they return the same
    ([groupByPeriod_exact], [merge_exact]).  [period_key] serves both: the
    numbers it adds are days of the week, days of the month and months. *)

Module Double.

Definition round (n : Z) : Z :=
  let a := Z.abs n in
  let e := Z.log2 a - 52 in
  if e <=? 0 then n
  else
    let u := 2 ^ e in
    let q := a / u in
    let r := a mod u in
    let q' := if 2 * r <? u then q
              else if u <? 2 * r then q + 1
              else if Z.even q then q else q + 1 in
    Z.sgn n * (q' * u).

Definition plus (x y : Z) : Z := round (x + y).

End Double.

Module Dbl.

(** [a + b] *)
Definition add (a b : value) : value :=
  match JS.to_primitive a, JS.to_primitive b with
  | VStr s, pb => VStr (s +:+ JS.to_str pb)
  | pa, VStr s => VStr (JS.to_str pa +:+ s)
  | pa, pb =>
      match JS.to_number pa, JS.to_number pb with
      | VNum x, VNum y => VNum (Double.plus x y)
      | _, _ => VNaN
      end
  end.

(** [acc.k += r.k || 0] *)
Definition add_field (k : string) (r acc : obj) : obj :=
  JS.set_prop k
    (add (JS.lookup_prop k acc) (JS.or (JS.lookup_prop k r) (VNum 0))) acc.

Definition accumulate (r acc : obj) : obj :=
  add_field "sales" r
    (add_field "calls" r
       (add_field "contacts" r
          (add_field "clicks" r
             (add_field "views" r acc)))).

(** One turn of the loop of lines 51 to 70. *)
Definition group_step (period : value) (m : list (string * obj)) (r : obj)
  : result (list (string * obj)) :=
  let* key := period_key period r in
  let m := if JMap.has String.eqb key m then m
           else JMap.set String.eqb key (new_bucket key) m in
  Ok (JMap.update String.eqb key (accumulate r) m).

Definition groupByPeriod (rows : list obj) (period : value) : result (list obj) :=
  let period := default_day period in
  let* m := foldM (group_step period) rows [] in
  sort compare_dates (JMap.values m).

(** [t.calls = (t.calls||0) + (c.calls||0)] *)
Definition add_calls (c t : obj) : obj :=
  JS.set_prop "calls"
    (add (JS.or (JS.lookup_prop "calls" t) (VNum 0))
         (JS.or (JS.lookup_prop "calls" c) (VNum 0))) t.

(** One turn of the loop of lines 183 to 187. *)
Definition merge_call (st : list obj * date_map) (c : obj) : list obj * date_map :=
  let '(h, m) := st in
  let date := JS.lookup_prop "date" c in
  let '(h, i) :=
    match JMap.get same_value_zero date m with
    | Some i => (h, i)
    | None => (h ++ [[("date", date)]], length h)
    end in
  (alter (add_calls c) i h, JMap.set same_value_zero date i m).

Definition merge_loop (rows calls : list obj) : list obj * date_map :=
  fold_left merge_call calls (rows, map_of_rows 0 rows []).

(** Lines 182 to 188: the sorted rows. *)
Definition merge (rows calls : list obj) : result (list obj) :=
  sort compare_dates (map_rows (merge_loop rows calls)).

(** [sum(arr, k)] (line 48): [arr.reduce((s,x) => s + (x[k]||0), 0)]. *)
Definition sum (arr : list obj) (k : string) : value :=
  fold_left (fun s x => add s (JS.or (JS.lookup_prop k x) (VNum 0)))
            arr (VNum 0).

End Dbl.

(** Three rows of one day whose views add up to more than 2^53. *)
Module LargeExample.

Definition rows : list obj :=
  [ [("date", VStr "2024-01-01"); ("views", VNum 9007199254740992)];
    [("date", VStr "2024-01-01"); ("views", VNum 1)];
    [("date", VStr "2024-01-01"); ("views", VNum 1)] ].

End LargeExample.

(** ** Vocabulary of the further properties *)

(** The rows the item-stats adapter builds. *)
Definition item_row_shape (r : obj) : Prop :=
  exists date views contacts,
    r = [("date", date); ("views", views); ("clicks", VNull);
         ("contacts", contacts); ("calls", VNum 0); ("sales", VNum 0)] /\
    JS.truthy date = true /\ JS.nullish views = false /\
    JS.nullish contacts = false.

(** The pairs the call-stats adapter builds. *)
Definition call_row_shape (r : obj) : Prop :=
  exists date calls,
    r = [("date", date); ("calls", calls)] /\
    JS.truthy date = true /\ JS.nullish calls = false.

(** The date of a daily entry that is not [null]. *)
Definition date_of_entry (d : value) : value :=
  JS.or (JS.get_opt d "date") (JS.or (JS.get_opt d "day") (JS.get_opt d "dt")).

(** The first of three properties of an entry that is neither [undefined]
    nor [null], 0 when there is none. *)
Definition field_of_entry (d : value) (k1 k2 k3 : string) : value :=
  JS.coalesce (JS.get_opt d k1)
    (JS.coalesce (JS.get_opt d k2) (JS.coalesce (JS.get_opt d k3) (VNum 0))).

(** The rows of one daily entry: one row when it has a date, none
    otherwise. *)
Definition rows_of_entry (d : value) : list obj :=
  if JS.truthy (date_of_entry d)
  then [ [("date", date_of_entry d);
          ("views", field_of_entry d "views" "uniqViews" "totalViews");
          ("clicks", VNull);
          ("contacts", field_of_entry d "contacts" "uniqContacts" "totalContacts");
          ("calls", VNum 0); ("sales", VNum 0)] ]
  else [].

(** The calls of the pairs of [calls] that carry the date [d]. *)
Definition calls_for (d : value) (calls : list obj) : Z :=
  total "calls" (List.filter (has_date d) calls).

(** The date series of a record and the records of a payload, as the
    item-stats adapter finds them. *)
Definition series_of (b : value) : value :=
  JS.or (JS.get_opt b "stats")
    (JS.or (JS.get_opt b "dates")
       (JS.or (JS.get_opt b "statistics") (VArr []))).

Definition records_of (raw : value) : list value :=
  (if JS.isArray (JS.get_opt raw "result")
   then elements (JS.get_opt raw "result") else []) ++
  (if JS.isArray (JS.get_opt raw "data")
   then elements (JS.get_opt raw "data") else []).

(** A series the adapter can walk: a list without [null] entry. *)
Definition clean_series (v : value) : Prop :=
  exists xs, v = VArr xs /\ forallb (fun d => negb (JS.nullish d)) xs = true.

Module AdapterExample.

Definition under_result : list value :=
  [VObj [("stats", VArr [VObj [("date", VStr "2024-01-01")]])]].

Definition under_data : list value :=
  [VObj [("dates", VArr [VObj [("day", VStr "2024-01-02")]])]].

(** A payload with records under [data] and under [result]. *)
Definition both : value :=
  VObj [("data", VArr under_data); ("result", VArr under_result)].

End AdapterExample.

(** A value the adapters can walk with [for ... of] and read entries
    from: a list without [null] entry, or a string. *)
Definition walkable (v : value) : bool :=
  match v with
  | VArr xs => forallb (fun d => negb (JS.nullish d)) xs
  | VStr _ => true
  | _ => false
  end.

(** The records of a call-stats payload, as the adapter finds them. *)
Definition items_of (raw : value) : value :=
  JS.or (JS.get_opt raw "result") (JS.or (JS.get_opt raw "data") (VArr [])).

(** The pairs of one record of the call statistics: one pair when it has
    a date, none otherwise. *)
Definition pairs_of_entry (it : value) : list obj :=
  if JS.truthy (date_of_entry it)
  then [ [("date", date_of_entry it);
          ("calls", field_of_entry it "calls" "success_calls" "total")] ]
  else [].

(** The row [t] after the call pairs of [calls] that carry the date [d]
    have been added to it, in their order. *)
Definition apply_calls (d : value) (calls : list obj) (t : obj) : obj :=
  fold_left (fun t c => if has_date d c then add_calls c t else t) calls t.

(** The keys of a map are strings. *)
Definition string_keys (m : date_map) : Prop :=
  Forall (fun kv => exists s, fst kv = VStr s) m.

(** * Properties *)

(** ** End to end on the example of the specification *)

(** C2: on the item rows and the call pair of the example, the merge
    followed by [groupByPeriod] with period "week" gives the single bucket
    [{date:"2024-01-01", views:15, clicks:0, contacts:3, calls:3, sales:0}];
    2024-01-01 is a Monday ([getUTCDay] is 1). *)
Theorem merge_then_week_example :
  Date.getUTCDay (Date.of_string "2024-01-01T00:00:00Z") = VNum 1 /\
  (let* rows := merge Example.item_rows Example.call_pairs in
   groupByPeriod rows (VStr "week"))
  = Ok [ [("date", VStr "2024-01-01"); ("views", VNum 15); ("clicks", VNum 0);
          ("contacts", VNum 3); ("calls", VNum 3); ("sales", VNum 0)] ].
Proof. split; vm_compute; reflexivity. Qed.

(** ** Objects *)

Lemma lookup_set_prop_eq k v ps : JS.lookup_prop k (JS.set_prop k v ps) = v.
Proof.
  induction ps as [|[k' v'] ps IH]; simpl.
  - now rewrite String.eqb_refl.
  - destruct (String.eqb k' k) eqn:E; simpl.
    + now rewrite String.eqb_refl.
    + now rewrite E.
Qed.

Lemma lookup_set_prop_ne k k' v ps :
  k <> k' -> JS.lookup_prop k' (JS.set_prop k v ps) = JS.lookup_prop k' ps.
Proof.
  intros Hne. induction ps as [|[k0 v0] ps IH]; simpl.
  - destruct (String.eqb k k') eqn:E; [|reflexivity].
    apply String.eqb_eq in E. contradiction.
  - destruct (String.eqb k0 k) eqn:E; simpl.
    + apply String.eqb_eq in E. subst k0.
      destruct (String.eqb k k') eqn:E'; [|reflexivity].
      apply String.eqb_eq in E'. contradiction.
    + destruct (String.eqb k0 k'); [reflexivity | exact IH].
Qed.

(** The row [push] builds: the six fields in the order of the literal. *)
Lemma push_row_fields date views contacts :
  push_row date [("views", views); ("contacts", contacts)]
  = [("date", date); ("views", views); ("clicks", VNull);
     ("contacts", contacts); ("calls", VNum 0); ("sales", VNum 0)].
Proof. reflexivity. Qed.

(** ** The item-stats adapter *)

(** C8: [views] is the first of [views], [uniqViews], [totalViews] that is
    neither [undefined] nor [null], and 0 when there is none: the entry
    [{date:"2024-01-01", uniqViews:5}] gives views 5, the entry with
    [views:1] and [uniqViews:5] gives views 1, an entry with none of the
    three gives views 0; so it is on a whole payload and on each entry. *)
Theorem views_fallback :
  adaptItemsStats
    (VObj [("result", VArr [VObj [("stats", VArr
       [VObj [("date", VStr "2024-01-01"); ("uniqViews", VNum 5)];
        VObj [("date", VStr "2024-01-02"); ("views", VNum 1); ("uniqViews", VNum 5)];
        VObj [("date", VStr "2024-01-03")]])]])])
  = Ok [ [("date", VStr "2024-01-01"); ("views", VNum 5); ("clicks", VNull);
          ("contacts", VNum 0); ("calls", VNum 0); ("sales", VNum 0)];
         [("date", VStr "2024-01-02"); ("views", VNum 1); ("clicks", VNull);
          ("contacts", VNum 0); ("calls", VNum 0); ("sales", VNum 0)];
         [("date", VStr "2024-01-03"); ("views", VNum 0); ("clicks", VNull);
          ("contacts", VNum 0); ("calls", VNum 0); ("sales", VNum 0)] ] /\
  item_entry [] (VObj [("date", VStr "2024-01-01"); ("uniqViews", VNum 5)])
  = Ok [ [("date", VStr "2024-01-01"); ("views", VNum 5); ("clicks", VNull);
          ("contacts", VNum 0); ("calls", VNum 0); ("sales", VNum 0)] ] /\
  item_entry []
    (VObj [("date", VStr "2024-01-01"); ("views", VNum 1); ("uniqViews", VNum 5)])
  = Ok [ [("date", VStr "2024-01-01"); ("views", VNum 1); ("clicks", VNull);
          ("contacts", VNum 0); ("calls", VNum 0); ("sales", VNum 0)] ] /\
  forall (rows : list obj) (ps : obj) (date : value),
    entry_date (VObj ps) = Ok date ->
    JS.truthy date = true ->
    exists row,
      item_entry rows (VObj ps) = Ok (rows ++ [row]) /\
      JS.lookup_prop "date" row = date /\
      let v1 := JS.lookup_prop "views" ps in
      let v2 := JS.lookup_prop "uniqViews" ps in
      let v3 := JS.lookup_prop "totalViews" ps in
      JS.lookup_prop "views" row =
        if negb (JS.nullish v1) then v1
        else if negb (JS.nullish v2) then v2
        else if negb (JS.nullish v3) then v3
        else VNum 0.
Proof.
  split; [reflexivity|]. split; [reflexivity|]. split; [reflexivity|].
  intros rows ps date Hd Ht.
  unfold item_entry. rewrite Hd. simpl. rewrite Ht. simpl.
  eexists. split; [reflexivity|].
  rewrite push_row_fields. simpl. split; [reflexivity|].
  unfold JS.coalesce.
  destruct (JS.nullish (JS.lookup_prop "views" ps)); simpl; [|reflexivity].
  destruct (JS.nullish (JS.lookup_prop "uniqViews" ps)); simpl; [|reflexivity].
  destruct (JS.nullish (JS.lookup_prop "totalViews" ps)); reflexivity.
Qed.

Lemma views_fallback_witness :
  exists row,
    item_entry [] (VObj [("day", VStr "2024-01-03"); ("totalViews", VNum 7)])
    = Ok ([] ++ [row]) /\
    JS.lookup_prop "date" row = VStr "2024-01-03" /\
    JS.lookup_prop "views" row = VNum 7.
Proof.
  destruct views_fallback as (_ & _ & _ & H).
  destruct (H [] [("day", VStr "2024-01-03"); ("totalViews", VNum 7)]
              (VStr "2024-01-03") eq_refl eq_refl) as (row & H1 & H2 & H3).
  exists row. split; [exact H1|]. split; [exact H2 | exact H3].
Defined.



(** ** The token cache *)

(** C5, as stated, fails: a successful status with a JSON body that has no
    [access_token] is not a failure; the call returns [undefined] and stores
    it as the token. *)
Lemma missing_token_is_returned :
  let run := getAccessToken initial_cache 1700000000000 TokenExample.no_token
               1700000000500 in
  outcome run = Ok VUndef /\
  exchanged run = true /\
  cache_after run = {| accessToken := VUndef; tokenExp := VNum 1700003600 |}.
Proof. vm_compute. repeat split; reflexivity. Qed.

Lemma get_not_nullish j k :
  JS.nullish j = false -> JS.get j k = Ok (JS.get_opt j k).
Proof. destruct j; simpl; intros H; try discriminate; reflexivity. Qed.

Lemma get_nullish j k : JS.nullish j = true -> JS.get j k = Throw TypeError.
Proof. destruct j; simpl; intros H; try discriminate; reflexivity. Qed.

Ltac token_leaf :=
  repeat match goal with
         | |- _ /\ _ => split
         | |- _ <-> _ => split
         end;
  intros;
  repeat match goal with
         | H : exists _, _ |- _ => destruct H
         | H : _ /\ _ |- _ => destruct H
         | H : _ \/ _ |- _ => destruct H
         end;
  simplify_eq; try congruence; eauto 6.

(** C5, amended: [getAccessToken] throws exactly when it calls the token
    endpoint and the exchange fails (network error, non-success status,
    body that is not JSON or is [null]); the cache is then left as it was.
    Otherwise it returns the cached token, or the [access_token] property
    of the body as it is ([undefined] when the body has none), which it
    stores. *)
Theorem token_failure_cases (st : cache) (clock1 clock2 : Z) (net : fetch_outcome) :
  let run := getAccessToken st clock1 net clock2 in
  ((exists e, outcome run = Throw e) <->
   exchanged run = true /\ exchange_failed net) /\
  ((exists e, outcome run = Throw e) -> cache_after run = st) /\
  (exchanged run = false ->
   outcome run = Ok (accessToken st) /\ cache_after run = st) /\
  (forall r j, exchanged run = true -> net = Response r -> ok r = true ->
     json r = Some j -> JS.nullish j = false ->
     outcome run = Ok (JS.get_opt j "access_token") /\
     accessToken (cache_after run) = JS.get_opt j "access_token").
Proof.
  unfold getAccessToken, exchange_failed.
  destruct (JS.truthy (accessToken st) &&
            JS.lt (VNum (seconds clock1)) (JS.sub (tokenExp st) (VNum 60))) eqn:Hfresh;
    simpl.
  { token_leaf. }
  destruct net as [|r]; simpl.
  { token_leaf. }
  destruct (ok r) eqn:Hok; simpl.
  2:{ token_leaf. }
  unfold read_json. destruct (json r) as [j|] eqn:Hj; simpl.
  2:{ token_leaf. }
  destruct (JS.nullish j) eqn:Hn.
  - rewrite (get_nullish j _ Hn). simpl. token_leaf.
  - rewrite (get_not_nullish j _ Hn). simpl. token_leaf.
Qed.

(** The cache after a successful exchange. *)
Lemma cache_after_exchange st c1 c2 r j :
  exchanged (getAccessToken st c1 (Response r) c2) = true ->
  ok r = true -> json r = Some j -> JS.nullish j = false ->
  cache_after (getAccessToken st c1 (Response r) c2)
  = {| accessToken := JS.get_opt j "access_token";
       tokenExp := JS.add (VNum (seconds c2))
                     (JS.or (JS.get_opt j "expires_in") (VNum 3600)) |}.
Proof.
  unfold getAccessToken. intros Hex Hok Hj Hn.
  destruct (JS.truthy (accessToken st) && _); [discriminate|].
  simpl. rewrite Hok. simpl. unfold read_json. rewrite Hj.
  now rewrite (get_not_nullish j _ Hn).
Qed.

(** What a successful exchange returns and stores. *)
Lemma exchange_returns_token st c1 c2 r j :
  exchanged (getAccessToken st c1 (Response r) c2) = true ->
  ok r = true -> json r = Some j -> JS.nullish j = false ->
  outcome (getAccessToken st c1 (Response r) c2) = Ok (JS.get_opt j "access_token") /\
  accessToken (cache_after (getAccessToken st c1 (Response r) c2))
  = JS.get_opt j "access_token".
Proof.
  intros Hex Hok Hj Hn.
  rewrite (cache_after_exchange _ _ _ _ _ Hex Hok Hj Hn). split; [|reflexivity].
  revert Hex. unfold getAccessToken.
  destruct (JS.truthy (accessToken st) && _); [discriminate|]. intros _.
  simpl. rewrite Hok. simpl. unfold read_json. rewrite Hj.
  now rewrite (get_not_nullish j _ Hn).
Qed.

(** C6: a token stored with [expires_in] 3600 at time [t0] (in seconds) is
    returned from the cache, without an exchange, by every call strictly
    before [t0 + 3540]; a call at or after [t0 + 3540] makes an exchange
    and returns its token.  The token is a truthy value (a non-empty
    string). *)
Theorem token_reuse_window (st0 : cache) (c1 c2 : Z) (r : http_response)
    (j tok : value) :
  exchanged (getAccessToken st0 c1 (Response r) c2) = true ->
  ok r = true ->
  json r = Some j ->
  JS.get_opt j "expires_in" = VNum 3600 ->
  JS.get_opt j "access_token" = tok ->
  JS.truthy tok = true ->
  let t0 := seconds c2 in
  let st := cache_after (getAccessToken st0 c1 (Response r) c2) in
  forall (clock : Z) (net : fetch_outcome) (clock' : Z),
    let run := getAccessToken st clock net clock' in
    (seconds clock < t0 + 3540 ->
     exchanged run = false /\ outcome run = Ok tok /\ cache_after run = st) /\
    (t0 + 3540 <= seconds clock ->
     exchanged run = true /\
     forall r' j', net = Response r' -> ok r' = true -> json r' = Some j' ->
       JS.nullish j' = false ->
       outcome run = Ok (JS.get_opt j' "access_token") /\
       accessToken (cache_after run) = JS.get_opt j' "access_token").
Proof.
  intros Hex Hok Hj Hexp Htok Htruthy t0 st clock net clock' run.
  assert (Hn : JS.nullish j = false).
  { destruct j; try reflexivity; simpl in Hexp; discriminate. }
  assert (Hst : st = {| accessToken := tok; tokenExp := VNum (t0 + 3600) |}).
  { unfold st. rewrite (cache_after_exchange _ _ _ _ _ Hex Hok Hj Hn).
    now rewrite Hexp, Htok. }
  assert (Hfresh : JS.truthy (accessToken st) &&
                   JS.lt (VNum (seconds clock)) (JS.sub (tokenExp st) (VNum 60))
                   = (seconds clock <? t0 + 3540)).
  { rewrite Hst. simpl. rewrite Htruthy. simpl. unfold JS.lt. simpl.
    f_equal. lia. }
  split.
  - intros Hlt. apply Z.ltb_lt in Hlt.
    unfold run, getAccessToken. rewrite Hfresh, Hlt. simpl.
    rewrite Hst. auto.
  - intros Hge. apply Z.ltb_ge in Hge.
    assert (Hx : exchanged run = true).
    { unfold run, getAccessToken. rewrite Hfresh, Hge.
      destruct (fetched net) as [r'|]; [|reflexivity].
      destruct (negb (ok r')); [reflexivity|].
      destruct (read_json r') as [j'|]; [|reflexivity].
      destruct (JS.get j' "access_token"); reflexivity. }
    split; [exact Hx|].
    intros r' j' -> Hok' Hj' Hn'.
    exact (exchange_returns_token st clock clock' r' j' Hx Hok' Hj' Hn').
Qed.

Lemma token_reuse_window_witness :
  let r := {| ok := true; status := 200; text := "";
              json := Some (VObj [("access_token", VStr "abc");
                                  ("expires_in", VNum 3600)]) |} in
  let st := cache_after (getAccessToken initial_cache 1000000 (Response r) 1000000) in
  let run := getAccessToken st 4539999 NetworkFailure 4539999 in
  exchanged run = false /\ outcome run = Ok (VStr "abc") /\ cache_after run = st.
Proof.
  exact (proj1 (token_reuse_window initial_cache 1000000 1000000
           {| ok := true; status := 200; text := "";
              json := Some (VObj [("access_token", VStr "abc");
                                  ("expires_in", VNum 3600)]) |}
           (VObj [("access_token", VStr "abc"); ("expires_in", VNum 3600)])
           (VStr "abc") eq_refl eq_refl eq_refl eq_refl eq_refl eq_refl
           4539999 NetworkFailure 4539999) eq_refl).
Defined.

(** ** Loops, Map and sort: general facts *)

Lemma foldM_inv {A S : Type} (P : S -> Prop) (f : S -> A -> result S) l :
  (forall s x s', In x l -> P s -> f s x = Ok s' -> P s') ->
  forall s s', P s -> foldM f l s = Ok s' -> P s'.
Proof.
  induction l as [|x l IH]; simpl; intros Hf s s' Hs H.
  - now injection H as <-.
  - destruct (f s x) as [s1|] eqn:E; simpl in H; [|discriminate].
    apply (IH (fun s x s' Hx => Hf s x s' (or_intror Hx)) s1 s'); [|exact H].
    apply (Hf s x s1); auto.
Qed.

Lemma foldM_app {A S : Type} (f : S -> A -> result S) l1 l2 s :
  foldM f (l1 ++ l2) s = let* s1 := foldM f l1 s in foldM f l2 s1.
Proof.
  revert s. induction l1 as [|x l1 IH]; simpl; intros s; [reflexivity|].
  destruct (f s x); simpl; [apply IH | reflexivity].
Qed.

Section MapFacts.
Context {K V : Type} (eqb : K -> K -> bool).
Variable Q : V -> Prop.

Lemma set_Forall k v m :
  Forall (fun kv => Q (snd kv)) m -> Q v ->
  Forall (fun kv => Q (snd kv)) (JMap.set eqb k v m).
Proof.
  intros Hm Hv. induction m as [|[k' v'] m IH]; simpl.
  - constructor; [exact Hv | constructor].
  - inversion Hm; subst. destruct (eqb k' k); constructor; auto.
Qed.

Lemma update_Forall k f m :
  (forall v, Q v -> Q (f v)) ->
  Forall (fun kv => Q (snd kv)) m ->
  Forall (fun kv => Q (snd kv)) (JMap.update eqb k f m).
Proof.
  intros Hf Hm. induction m as [|[k' v'] m IH]; simpl; [constructor|].
  inversion Hm; subst. destruct (eqb k' k); constructor; auto.
  now apply Hf.
Qed.
End MapFacts.

Section SortFacts.
Context {A : Type} (cmp : A -> A -> result comparison).

Lemma insert_perm x l l' : insert cmp x l = Ok l' -> Permutation (x :: l) l'.
Proof.
  revert l'. induction l as [|y l IH]; simpl; intros l' H.
  - injection H as <-. apply Permutation_refl.
  - destruct (cmp x y) as [c|]; simpl in H; [|discriminate].
    destruct c; try (injection H as <-; apply Permutation_refl).
    destruct (insert cmp x l) as [r|]; simpl in H; [|discriminate].
    injection H as <-.
    eapply Permutation_trans; [apply perm_swap|].
    apply perm_skip. now apply IH.
Qed.

Lemma sort_perm l l' : sort cmp l = Ok l' -> Permutation l l'.
Proof.
  revert l'. induction l as [|x l IH]; simpl; intros l' H.
  - injection H as <-. apply perm_nil.
  - destruct (sort cmp l) as [s|]; simpl in H; [|discriminate].
    eapply Permutation_trans; [apply perm_skip, IH; reflexivity|].
    now apply insert_perm.
Qed.
End SortFacts.

(** ** The [/stats] handler when the call statistics fail *)

Lemma item_entry_no_calls rows d rows' :
  Forall no_calls rows -> item_entry rows d = Ok rows' -> Forall no_calls rows'.
Proof.
  unfold item_entry. intros Hrows H.
  destruct (entry_date d) as [date|]; simpl in H; [|discriminate].
  destruct (negb (JS.truthy date)).
  - now injection H as <-.
  - destruct (first_defined d "views" _ _) as [v|]; simpl in H; [|discriminate].
    destruct (first_defined d "contacts" _ _) as [c|]; simpl in H; [|discriminate].
    injection H as <-. apply Forall_app. split; [exact Hrows|].
    constructor; [reflexivity | constructor].
Qed.

Lemma item_record_no_calls rows b rows' :
  Forall no_calls rows -> item_record rows b = Ok rows' -> Forall no_calls rows'.
Proof.
  unfold item_record. intros Hrows H.
  destruct (JS.iterate _) as [ds|]; simpl in H; [|discriminate].
  eapply (foldM_inv (Forall no_calls)); [|exact Hrows|exact H].
  intros s x s' _. apply item_entry_no_calls.
Qed.

(** Every row of the item-stats adapter has [calls] 0. *)
Lemma adaptItemsStats_no_calls raw rows :
  adaptItemsStats raw = Ok rows -> Forall no_calls rows.
Proof.
  unfold adaptItemsStats. intros H.
  eapply (foldM_inv (Forall no_calls)); [| |exact H]; [|constructor].
  intros s x s' _. apply item_record_no_calls.
Qed.

Lemma accumulate_no_calls r acc :
  no_calls r -> no_calls acc -> no_calls (accumulate r acc).
Proof.
  unfold no_calls, accumulate. intros Hr Hacc.
  unfold add_field at 1. rewrite lookup_set_prop_ne by discriminate.
  unfold add_field at 1. rewrite lookup_set_prop_eq.
  unfold add_field at 1. rewrite lookup_set_prop_ne by discriminate.
  unfold add_field at 1. rewrite lookup_set_prop_ne by discriminate.
  unfold add_field at 1. rewrite lookup_set_prop_ne by discriminate.
  now rewrite Hacc, Hr.
Qed.

Lemma group_step_no_calls period m r m' :
  no_calls r ->
  Forall (fun kb => no_calls (snd kb)) m ->
  group_step period m r = Ok m' ->
  Forall (fun kb => no_calls (snd kb)) m'.
Proof.
  unfold group_step. intros Hr Hm H.
  destruct (period_key period r) as [key|]; simpl in H; [|discriminate].
  injection H as <-.
  apply update_Forall; [intros v; now apply accumulate_no_calls|].
  destruct (JMap.has String.eqb key m); [exact Hm|].
  apply set_Forall; [exact Hm | reflexivity].
Qed.

(** Rows without calls give buckets without calls. *)
Lemma groupByPeriod_no_calls rows period out :
  Forall no_calls rows -> groupByPeriod rows period = Ok out -> Forall no_calls out.
Proof.
  unfold groupByPeriod. intros Hrows H.
  destruct (foldM _ rows []) as [m|] eqn:Hm; simpl in H; [|discriminate].
  assert (Hall : Forall (fun kb => no_calls (snd kb)) m).
  { eapply (foldM_inv (fun m => Forall (fun kb => no_calls (snd kb)) m));
      [| |exact Hm]; [|constructor].
    intros s x s' Hx Hs. apply group_step_no_calls; [|exact Hs].
    rewrite List.Forall_forall in Hrows. now apply Hrows. }
  apply sort_perm in H.
  eapply Permutation_Forall; [exact H|].
  unfold JMap.values. rewrite Forall_map. exact Hall.
Qed.

Lemma with_calls_failed rows o : calls_failed o -> with_calls rows o = rows.
Proof.
  unfold with_calls, calls_failed. destruct o as [|r]; simpl; [reflexivity|].
  intros [H|H].
  - now rewrite H.
  - unfold read_json. rewrite H. now destruct (ok r).
Qed.

(** C7: when the call-stats fetch fails (network error, non-success
    status, body that is not JSON), the merge is skipped, the rows being
    left as they were; the reply is the one computed from the item rows
    alone, whatever the failure; when the item rows aggregate, it is a 200
    with their series, in which every bucket has [calls] 0. *)
Theorem calls_failure_is_silent (st : cache) (clock1 clock2 : Z)
    (token_net items_net calls_net : fetch_outcome) (q : query) :
  calls_failed calls_net ->
  let run := getAccessToken st clock1 token_net clock2 in
  let period := default_day (grouping q) in
  (forall rows, with_calls rows calls_net = rows) /\
  stats st clock1 clock2 token_net items_net calls_net q
  = (match (let* token := outcome run in
            let* r1 := fetched items_net in
            let* j1 := read_json r1 in
            let* rows := adaptItemsStats j1 in
            groupByPeriod rows period) with
     | Ok series => Reply200 (itemId q) series
     | Throw e => Reply500 e
     end, cache_after run) /\
  (forall token r1 j1 rows series,
     outcome run = Ok token -> items_net = Response r1 -> json r1 = Some j1 ->
     adaptItemsStats j1 = Ok rows -> groupByPeriod rows period = Ok series ->
     fst (stats st clock1 clock2 token_net items_net calls_net q)
     = Reply200 (itemId q) series /\
     Forall (fun b => JS.lookup_prop "calls" b = VNum 0) series).
Proof.
  intros Hfail run period.
  assert (Hskip : forall rows, with_calls rows calls_net = rows)
    by (intros rows; now apply with_calls_failed).
  assert (Hbody : stats_body (outcome run) items_net calls_net q
                  = (let* token := outcome run in
                     let* r1 := fetched items_net in
                     let* j1 := read_json r1 in
                     let* rows := adaptItemsStats j1 in
                     groupByPeriod rows period)).
  { unfold stats_body. fold period.
    destruct (outcome run); simpl; [|reflexivity].
    destruct (fetched items_net); simpl; [|reflexivity].
    destruct (read_json _); simpl; [|reflexivity].
    destruct (adaptItemsStats _); simpl; [|reflexivity].
    now rewrite Hskip. }
  split; [exact Hskip|]. split.
  - unfold stats. fold run. now rewrite Hbody.
  - intros token r1 j1 rows series Htok -> Hj Hrows Hseries.
    unfold stats. fold run. rewrite Hbody, Htok. simpl.
    unfold read_json. rewrite Hj. simpl. rewrite Hrows. simpl.
    rewrite Hseries. split; [reflexivity|].
    eapply groupByPeriod_no_calls; [|exact Hseries].
    eapply adaptItemsStats_no_calls; exact Hrows.
Qed.

Lemma calls_failure_is_silent_witness :
  fst (stats initial_cache 1000000 1000000 StatsExample.token_ok
         StatsExample.items_ok StatsExample.calls_down StatsExample.request)
  = Reply200 (VStr "42") [mk_bucket "2024-01-01" 5 0 0 0 0] /\
  Forall (fun b => JS.lookup_prop "calls" b = VNum 0)
    [mk_bucket "2024-01-01" 5 0 0 0 0].
Proof.
  refine (proj2 (proj2 (calls_failure_is_silent initial_cache 1000000 1000000
           StatsExample.token_ok StatsExample.items_ok StatsExample.calls_down
           StatsExample.request (or_introl eq_refl)))
         (VStr "abc")
         {| ok := true; status := 200; text := "";
            json := Some (VObj [("result", VArr [VObj [("stats", VArr
                      [VObj [("date", VStr "2024-01-01"); ("uniqViews", VNum 5)]])]])]) |}
         (VObj [("result", VArr [VObj [("stats", VArr
                      [VObj [("date", VStr "2024-01-01"); ("uniqViews", VNum 5)]])]])])
         [ [("date", VStr "2024-01-01"); ("views", VNum 5); ("clicks", VNull);
            ("contacts", VNum 0); ("calls", VNum 0); ("sales", VNum 0)] ]
         [mk_bucket "2024-01-01" 5 0 0 0 0] _ _ _ _ _);
    vm_compute; reflexivity.
Defined.


(** ** The calendar *)

(** The two calendar conversions are inverse of each other on every date
    of an era. *)
Lemma era_check_ok :
  forallb3 era_date_check (zrange 400)
    (map (fun m => m + 1) (zrange 12)) (map (fun d => d + 1) (zrange 31)) = true.
Proof. vm_compute. reflexivity. Qed.

Lemma forallb3_spec f l1 l2 l3 :
  forallb3 f l1 l2 l3 = true ->
  forall a b c, In a l1 -> In b l2 -> In c l3 -> f a b c = true.
Proof.
  unfold forallb3. intros H a b c Ha Hb Hc.
  rewrite forallb_forall in H. specialize (H a Ha).
  rewrite forallb_forall in H. specialize (H b Hb).
  rewrite forallb_forall in H. exact (H c Hc).
Qed.

Lemma In_zrange n x : 0 <= x < Z.of_nat n -> In x (zrange n).
Proof.
  intros H. unfold zrange. apply in_map_iff. exists (Z.to_nat x).
  split; [lia|]. apply in_seq. lia.
Qed.

Lemma In_zrange_succ n x : 1 <= x <= Z.of_nat n -> In x (map (fun d => d + 1) (zrange n)).
Proof.
  intros H. apply in_map_iff. exists (x - 1). split; [lia|].
  apply In_zrange. lia.
Qed.

(** Within an era, a date goes to its day of the era and back. *)
Lemma era_roundtrip yoe m d :
  0 <= yoe < 400 -> 1 <= m <= 12 ->
  1 <= d <= days_in_month (if m <=? 2 then yoe + 1 else yoe) m ->
  0 <= Date.doe_of_civil yoe m d < 146097 /\
  Date.civil_of_doe (Date.doe_of_civil yoe m d) = (yoe, m, d).
Proof.
  intros Hy Hm Hd.
  assert (Hd31 : d <= 31).
  { destruct Hd as [_ Hd]. unfold days_in_month in Hd.
    repeat match type of Hd with context [if ?b then _ else _] => destruct b end; lia. }
  pose proof (forallb3_spec _ _ _ _ era_check_ok yoe m d
                (In_zrange 400 yoe ltac:(lia)) (In_zrange_succ 12 m ltac:(lia))
                (In_zrange_succ 31 d ltac:(lia))) as H.
  unfold era_date_check in H.
  destruct Hd as [_ Hd]. apply Z.leb_le in Hd. rewrite Hd in H.
  cbn [implb] in H. unfold era_date_ok in H. cbv zeta in H.
  destruct (Date.civil_of_doe _) as [[yoe' m'] d'].
  rewrite !andb_true_iff in H. destruct H as ((H0 & H1) & (H2 & H3) & H4).
  repeat match goal with
         | H : (_ =? _) = true |- _ => apply Z.eqb_eq in H
         | H : (_ <=? _) = true |- _ => apply Z.leb_le in H
         | H : (_ <? _) = true |- _ => apply Z.ltb_lt in H
         end.
  subst. split; [lia | reflexivity].
Qed.

Lemma is_leap_era e y : is_leap (y + e * 400) = is_leap y.
Proof.
  unfold is_leap.
  replace ((y + e * 400) mod 4) with (y mod 4)
    by (replace (y + e * 400) with (y + (e * 100) * 4) by lia;
        now rewrite Z.mod_add by lia).
  replace ((y + e * 400) mod 100) with (y mod 100)
    by (replace (y + e * 400) with (y + (e * 4) * 100) by lia;
        now rewrite Z.mod_add by lia).
  now rewrite Z.mod_add by lia.
Qed.

Lemma days_in_month_era e y m : days_in_month (y + e * 400) m = days_in_month y m.
Proof. unfold days_in_month. now rewrite is_leap_era. Qed.

(** A calendar date goes to its day number and back. *)
Lemma civil_roundtrip y m d :
  1 <= m <= 12 -> 1 <= d <= days_in_month y m ->
  Date.civil_from_days (Date.days_from_civil y m d) = (y, m, d).
Proof.
  intros Hm Hd. unfold Date.days_from_civil, Date.civil_from_days.
  set (y' := if m <=? 2 then y - 1 else y).
  set (era := y' / 400).
  set (yoe := y' - era * 400).
  assert (Hyoe : 0 <= yoe < 400).
  { unfold yoe, era. Z.to_euclidean_division_equations. lia. }
  assert (Hy : y = (if m <=? 2 then yoe + 1 else yoe) + era * 400).
  { unfold yoe, y'. destruct (m <=? 2); lia. }
  clearbody yoe era. clear y'.
  assert (Hd' : 1 <= d <= days_in_month (if m <=? 2 then yoe + 1 else yoe) m).
  { rewrite <- (days_in_month_era era). now rewrite <- Hy. }
  destruct (era_roundtrip yoe m d Hyoe Hm Hd') as [Hdoe Hciv].
  generalize dependent (Date.doe_of_civil yoe m d). intros doe Hdoe Hciv.
  replace (era * 146097 + doe - 719468 + 719468) with (doe + era * 146097) by lia.
  assert (Hera : (doe + era * 146097) / 146097 = era).
  { rewrite Z.div_add by lia. rewrite Z.div_small by lia. lia. }
  rewrite Hera.
  replace (doe + era * 146097 - era * 146097) with doe by lia.
  rewrite Hciv. f_equal. f_equal. revert Hy. destruct (m <=? 2); lia.
Qed.

Lemma days_from_civil_bounds y m d :
  0 <= y <= 9999 -> 1 <= m <= 12 -> -10 <= d <= 31 ->
  -720000 <= Date.days_from_civil y m d <= 2940000.
Proof.
  unfold Date.days_from_civil, Date.doe_of_civil. intros.
  destruct (m <=? 2) eqn:E1, (2 <? m) eqn:E2;
    Z.to_euclidean_division_equations; lia.
Qed.

Lemma days_from_civil_day y m d :
  Date.days_from_civil y m d = Date.days_from_civil y m 1 + d - 1.
Proof. unfold Date.days_from_civil, Date.doe_of_civil. lia. Qed.

(** ** Dates written [YYYY-MM-DD] *)

Lemma digit_char_val c :
  JS.is_digit c = true ->
  Date.digit_char (JS.digit_val c) = c /\ 0 <= JS.digit_val c <= 9.
Proof.
  destruct c as [[] [] [] [] [] [] [] []]; intros H;
    try discriminate H; (split; [reflexivity | vm_compute; split; discriminate]).
Qed.

Lemma digit_char_mod x k : 0 <= k <= 9 -> x mod 10 = k -> Date.digit_char x = Date.digit_char k.
Proof.
  intros Hk Hx. unfold Date.digit_char. rewrite Hx.
  now rewrite (Z.mod_small k 10) by lia.
Qed.

Lemma digit_char_congr x y : x mod 10 = y mod 10 -> Date.digit_char x = Date.digit_char y.
Proof. unfold Date.digit_char. now intros ->. Qed.

Lemma num2_inv a b n :
  Date.num2 a b = Some n ->
  0 <= n <= 99 /\ Date.pad_digits 2 n = String a (String b "") /\
  JS.is_digit a = true.
Proof.
  unfold Date.num2. destruct (JS.is_digit a) eqn:Ha; [|discriminate].
  destruct (JS.is_digit b) eqn:Hb; [|discriminate]. simpl. intros [= <-].
  destruct (digit_char_val a Ha) as [Ea Ra], (digit_char_val b Hb) as [Eb Rb].
  split; [lia|]. split; [|reflexivity].
  cbn [Date.pad_digits String.append].
  rewrite (digit_char_mod _ (JS.digit_val a) Ra), Ea
    by (Z.to_euclidean_division_equations; lia).
  rewrite (digit_char_mod _ (JS.digit_val b) Rb), Eb
    by (Z.to_euclidean_division_equations; lia).
  reflexivity.
Qed.

Lemma num4_inv a b c d y :
  Date.num4 a b c d = Some y ->
  0 <= y <= 9999 /\
  Date.pad_digits 4 y = String a (String b (String c (String d ""))) /\
  JS.is_digit a = true.
Proof.
  unfold Date.num4.
  destruct (Date.num2 a b) as [h|] eqn:Hh; [|discriminate].
  destruct (Date.num2 c d) as [l|] eqn:Hl; [|discriminate]. intros [= <-].
  destruct (num2_inv _ _ _ Hh) as (Rh & Eh & Ha).
  destruct (num2_inv _ _ _ Hl) as (Rl & El & _).
  split; [lia|]. split; [|exact Ha].
  change (Date.pad_digits 4 (100 * h + l))
    with (Date.pad_digits 2 ((100 * h + l) / 10 / 10) +:+
          String (Date.digit_char ((100 * h + l) / 10)) "" +:+
          String (Date.digit_char (100 * h + l)) "").
  replace ((100 * h + l) / 10 / 10) with h
    by (Z.to_euclidean_division_equations; lia).
  rewrite Eh.
  cbn [Date.pad_digits String.append] in El. injection El as E1 E2.
  rewrite <- E1, <- E2. cbv [String.append].
  f_equal. f_equal. f_equal.
  - apply digit_char_congr. Z.to_euclidean_division_equations; lia.
  - f_equal. apply digit_char_congr. Z.to_euclidean_division_equations; lia.
Qed.

Lemma read_year_digit a b c d r :
  JS.is_digit a = true ->
  Date.read_year (String a (String b (String c (String d r))))
  = match Date.num4 a b c d with
    | Some y => Some (y, r)
    | None => None
    end.
Proof.
  destruct a as [[] [] [] [] [] [] [] []]; intros H;
    try discriminate H; reflexivity.
Qed.

(** The form of a calendar date: its digits and the numbers they write. *)
Lemma iso_date_inv s :
  iso_date s = true ->
  exists a b c d e f g h y m dd,
    s = String a (String b (String c (String d (String "-"
          (String e (String f (String "-" (String g (String h ""))))))))) /\
    Date.num4 a b c d = Some y /\ Date.num2 e f = Some m /\
    Date.num2 g h = Some dd /\
    1 <= m <= 12 /\ 1 <= dd <= days_in_month y m.
Proof.
  destruct s as [|a [|b [|c [|d [|h1 [|e [|f [|h2 [|g [|h [|]]]]]]]]]]];
    try discriminate.
  unfold iso_date.
  destruct (Ascii.eqb_spec h1 "-"); [subst h1|discriminate].
  destruct (Ascii.eqb_spec h2 "-"); [subst h2|discriminate].
  destruct (Date.num4 a b c d) as [y|] eqn:Hy; [|discriminate].
  destruct (Date.num2 e f) as [m|] eqn:Hm; [|discriminate].
  destruct (Date.num2 g h) as [dd|] eqn:Hd; [|discriminate].
  cbn [andb]. rewrite !andb_true_iff, !Z.leb_le.
  intros (((H1 & H2) & H3) & H4).
  exists a, b, c, d, e, f, g, h, y, m, dd. repeat split; auto.
Qed.

Lemma days_in_month_le y m : days_in_month y m <= 31.
Proof.
  unfold days_in_month.
  repeat match goal with |- context [if ?b then _ else _] => destruct b end; lia.
Qed.

Lemma MakeDay_civil y m d :
  1 <= m <= 12 -> Date.MakeDay y (m - 1) d = Date.days_from_civil y m d.
Proof.
  intros Hm. unfold Date.MakeDay.
  replace ((m - 1) / 12) with 0 by (Z.to_euclidean_division_equations; lia).
  replace ((m - 1) mod 12 + 1) with m by (Z.to_euclidean_division_equations; lia).
  rewrite (days_from_civil_day y m d). replace (y + 0) with y by lia. lia.
Qed.

Lemma TimeClip_days n :
  -720000 <= n <= 2940000 ->
  Date.TimeClip (Date.MakeDate n 0) = Date.At (n * Date.msPerDay).
Proof.
  intros Hn. unfold Date.TimeClip, Date.MakeDate, Date.msPerDay.
  replace (n * 86400000 + 0) with (n * 86400000) by lia.
  destruct (Z.leb_spec (Z.abs (n * 86400000)) 8640000000000000); [reflexivity|lia].
Qed.

(** The date the constructor reads from a calendar date at midnight. *)
Lemma of_string_iso a b c d e f g h y m dd :
  Date.num4 a b c d = Some y -> Date.num2 e f = Some m ->
  Date.num2 g h = Some dd ->
  1 <= m <= 12 -> 1 <= dd <= days_in_month y m ->
  Date.of_string
    (String a (String b (String c (String d (String "-"
       (String e (String f (String "-" (String g (String h ""))))))))) +:+
     "T00:00:00Z")
  = Date.At (Date.days_from_civil y m dd * Date.msPerDay).
Proof.
  intros Hy Hm Hd Rm Rd.
  destruct (num4_inv _ _ _ _ _ Hy) as (Ry & _ & Ha).
  pose proof (days_in_month_le y m) as Hle.
  unfold Date.of_string. cbv [String.append].
  rewrite (read_year_digit _ _ _ _ _ Ha), Hy.
  cbv [Date.read_month_day]. rewrite Hm, Hd.
  destruct (Z.leb_spec 1 m); [|lia]. destruct (Z.leb_spec m 12); [|lia].
  destruct (Z.leb_spec 1 dd); [|lia]. destruct (Z.leb_spec dd 31); [|lia].
  cbn [andb]. change (String.eqb "T00:00:00Z" "T00:00:00Z") with true. cbv iota.
  rewrite (MakeDay_civil y m dd Rm).
  apply TimeClip_days. apply days_from_civil_bounds; lia.
Qed.

Lemma Day_days n : Date.Day (n * Date.msPerDay) = n.
Proof. unfold Date.Day, Date.msPerDay. now rewrite Z.div_mul by lia. Qed.

Lemma TimeWithinDay_days n : Date.TimeWithinDay (n * Date.msPerDay) = 0.
Proof. unfold Date.TimeWithinDay, Date.msPerDay. now rewrite Z.mod_mul by lia. Qed.

(** The first ten characters of the ISO string of a calendar date at
    midnight are the date as it was written. *)
Lemma toISOString_iso a b c d e f g h y m dd :
  Date.num4 a b c d = Some y -> Date.num2 e f = Some m ->
  Date.num2 g h = Some dd ->
  1 <= m <= 12 -> 1 <= dd <= days_in_month y m ->
  exists rest,
    Date.toISOString (Date.At (Date.days_from_civil y m dd * Date.msPerDay))
    = Ok (String a (String b (String c (String d (String "-"
            (String e (String f (String "-" (String g (String h rest)))))))))).
Proof.
  intros Hy Hm Hd Rm Rd.
  destruct (num4_inv _ _ _ _ _ Hy) as (Ry & Ey & _).
  destruct (num2_inv _ _ _ Hm) as (_ & Em & _).
  destruct (num2_inv _ _ _ Hd) as (_ & Ed & _).
  unfold Date.toISOString, Date.YearFromTime, Date.MonthFromTime, Date.DateFromTime.
  rewrite Day_days, TimeWithinDay_days, (civil_roundtrip y m dd Rm Rd).
  cbn [fst snd]. unfold Date.iso_year.
  destruct (Z.leb_spec 0 y); [|lia]. destruct (Z.leb_spec y 9999); [|lia].
  cbn [andb]. replace (m - 1 + 1) with m by lia.
  rewrite Ey, Em, Ed. cbv [String.append]. eexists. reflexivity.
Qed.

(** ** The bucket key of a row with a calendar date *)

Lemma date_of_row r s :
  JS.lookup_prop "date" r = VStr s ->
  JS.to_str (JS.add (JS.lookup_prop "date" r) (VStr "T00:00:00Z"))
  = s +:+ "T00:00:00Z".
Proof. now intros ->. Qed.

(** By day, the key of a row with a calendar date is that date. *)
Lemma period_key_day period r s :
  JS.lookup_prop "date" r = VStr s -> iso_date s = true ->
  is_period period "week" = false -> is_period period "month" = false ->
  period_key period r = Ok s.
Proof.
  intros Hr Hs Hw Hm. unfold period_key. rewrite Hw, Hm, (date_of_row r s Hr).
  destruct (iso_date_inv s Hs)
    as (a & b & c & d & e & f & g & h & y & m & dd & -> & Hy & Hmo & Hd & Rm & Rd).
  rewrite (of_string_iso _ _ _ _ _ _ _ _ _ _ _ Hy Hmo Hd Rm Rd).
  destruct (toISOString_iso _ _ _ _ _ _ _ _ _ _ _ Hy Hmo Hd Rm Rd) as [rest ->].
  cbn [bind]. unfold JS.slice0. f_equal.
  cbn [String.substring]. now destruct rest.
Qed.

(** Whatever the period, a row with a calendar date has a key. *)
Lemma period_key_total period r s :
  JS.lookup_prop "date" r = VStr s -> iso_date s = true ->
  exists key, period_key period r = Ok key.
Proof.
  intros Hr Hs.
  destruct (is_period period "week") eqn:Hw;
    [|destruct (is_period period "month") eqn:Hm;
      [|exists s; now apply period_key_day]].
  - unfold period_key. rewrite Hw, (date_of_row r s Hr).
    destruct (iso_date_inv s Hs)
      as (a & b & c & d & e & f & g & h & y & m & dd & -> & Hy & Hmo & Hd & Rm & Rd).
    rewrite (of_string_iso _ _ _ _ _ _ _ _ _ _ _ Hy Hmo Hd Rm Rd).
    destruct (num4_inv _ _ _ _ _ Hy) as (Ry & _ & _).
    pose proof (days_in_month_le y m) as Hle.
    set (tv := Date.days_from_civil y m dd * Date.msPerDay).
    assert (Hwd : 0 <= Z.rem (Date.WeekDay tv + 6) 7 <= 6).
    { assert (0 <= Date.WeekDay tv < 7) by (unfold Date.WeekDay; apply Z.mod_pos_bound; lia).
      rewrite Z.rem_mod_nonneg by lia.
      pose proof (Z.mod_pos_bound (Date.WeekDay tv + 6) 7 ltac:(lia)). lia. }
    cbn [Date.getUTCDay Date.getUTCDate].
    change (JS.add (VNum (Date.WeekDay tv)) (VNum 6)) with (VNum (Date.WeekDay tv + 6)).
    change (JS.rem (VNum (Date.WeekDay tv + 6)) (VNum 7))
      with (VNum (Z.rem (Date.WeekDay tv + 6) 7)).
    change (JS.sub (VNum (Date.DateFromTime tv)) (VNum (Z.rem (Date.WeekDay tv + 6) 7)))
      with (VNum (Date.DateFromTime tv - Z.rem (Date.WeekDay tv + 6) 7)).
    unfold Date.setUTCDate.
    change (JS.to_number (VNum ?n)) with (VNum n). cbv iota.
    unfold Date.YearFromTime, Date.MonthFromTime, Date.DateFromTime. subst tv.
    rewrite Day_days, TimeWithinDay_days, (civil_roundtrip y m dd Rm Rd).
    cbn [fst snd]. rewrite (MakeDay_civil y m _ Rm).
    rewrite TimeClip_days by (apply days_from_civil_bounds; lia).
    cbn [Date.toISOString bind]. eexists. reflexivity.
  - unfold period_key. rewrite Hw, Hm. eexists. reflexivity.
Qed.

(** ** The map of [groupByPeriod] *)

Lemma total_app k l1 l2 : total k (l1 ++ l2) = total k l1 + total k l2.
Proof. induction l1 as [|r l1 IH]; simpl; [reflexivity|]. rewrite IH. lia. Qed.

Lemma or_zero v :
  number_or_absent v = true ->
  JS.or v (VNum 0) = VNum (match v with VNum n => n | _ => 0 end).
Proof.
  destruct v; try discriminate; intros _; try reflexivity.
  unfold JS.or. simpl. destruct (Z.eqb_spec n 0); simpl; congruence.
Qed.

Lemma numeric_row_field r k :
  numeric_row r = true -> In k numeric_fields ->
  JS.or (JS.lookup_prop k r) (VNum 0) = VNum (field_num k r).
Proof.
  unfold numeric_row. rewrite forallb_forall. intros H Hk.
  unfold field_num. now apply or_zero, H.
Qed.

(** Adding a numeric row to a bucket adds its fields. *)
Lemma accumulate_mk_bucket r key v c ct ca s :
  numeric_row r = true ->
  accumulate r (mk_bucket key v c ct ca s)
  = mk_bucket key (v + field_num "views" r) (c + field_num "clicks" r)
      (ct + field_num "contacts" r) (ca + field_num "calls" r)
      (s + field_num "sales" r).
Proof.
  intros Hr. unfold accumulate, add_field.
  rewrite !(numeric_row_field r) by (exact Hr || (simpl; tauto)).
  reflexivity.
Qed.

Section Buckets.
Variable period : value.

Lemma in_bucket_key r key k :
  period_key period r = Ok key -> in_bucket period k r = String.eqb key k.
Proof. unfold in_bucket. now intros ->. Qed.

Lemma filter_snoc {A} (f : A -> bool) l x :
  List.filter f (l ++ [x]) = List.filter f l ++ (if f x then [x] else []).
Proof. rewrite List.filter_app. reflexivity. Qed.

Lemma bucket_of_snoc rs r key k :
  period_key period r = Ok key -> numeric_row r = true ->
  bucket_of period (rs ++ [r]) k
  = if String.eqb key k then accumulate r (bucket_of period rs k)
    else bucket_of period rs k.
Proof.
  intros Hkey Hr. unfold bucket_of.
  rewrite filter_snoc, (in_bucket_key r key k Hkey).
  destruct (String.eqb key k).
  - rewrite (accumulate_mk_bucket _ _ _ _ _ _ _ Hr), !total_app.
    simpl. now rewrite !Z.add_0_r.
  - now rewrite app_nil_r.
Qed.

Lemma keys_of_snoc rs r :
  keys_of period (rs ++ [r]) = add_key period (keys_of period rs) r.
Proof. unfold keys_of. now rewrite fold_left_app. Qed.

Lemma existsb_key ks key :
  existsb (fun k' => String.eqb k' key) ks = true <-> In key ks.
Proof.
  rewrite existsb_exists. split.
  - intros (k & Hk & E). apply String.eqb_eq in E. now subst.
  - intros H. exists key. split; [exact H | apply String.eqb_refl].
Qed.

Lemma existsb_key_false ks key :
  existsb (fun k' => String.eqb k' key) ks = false <-> ~ In key ks.
Proof.
  rewrite <- existsb_key. destruct (existsb _ ks); split; congruence.
Qed.

Lemma keys_of_NoDup rs : NoDup (keys_of period rs).
Proof.
  induction rs as [|r rs IH] using rev_ind; [constructor|].
  rewrite keys_of_snoc. unfold add_key.
  destruct (period_key period r) as [key|]; [|exact IH].
  destruct (existsb _ _) eqn:E; [exact IH|].
  apply existsb_key_false in E.
  apply NoDup_app. split; [exact IH|]. split.
  - intros x Hx [<-|[]]%list_elem_of_In. apply E. now apply list_elem_of_In.
  - constructor; [intros []%list_elem_of_In | constructor].
Qed.

Lemma keys_of_In rs k :
  In k (keys_of period rs) <-> exists r, In r rs /\ period_key period r = Ok k.
Proof.
  induction rs as [|r rs IH] using rev_ind.
  - simpl. split; [tauto | intros (r & [] & _)].
  - rewrite keys_of_snoc. unfold add_key.
    destruct (period_key period r) as [key|] eqn:Hkey.
    + destruct (existsb _ _) eqn:E.
      * apply existsb_key in E. rewrite IH. split.
        -- intros (r0 & H0 & H1). exists r0. split; [apply in_or_app; auto | exact H1].
        -- intros (r0 & H0 & H1). apply in_app_or in H0 as [H0|[<-|[]]].
           ++ exists r0. auto.
           ++ rewrite Hkey in H1. injection H1 as <-. now apply IH.
      * rewrite in_app_iff, IH. simpl. split.
        -- intros [(r0 & H0 & H1)|[<-|[]]].
           ++ exists r0. split; [apply in_or_app; auto | exact H1].
           ++ exists r. split; [apply in_or_app; simpl; auto | exact Hkey].
        -- intros (r0 & H0 & H1). apply in_app_or in H0 as [H0|[<-|[]]].
           ++ left. exists r0. auto.
           ++ rewrite Hkey in H1. injection H1 as <-. auto.
    + rewrite IH. split.
      * intros (r0 & H0 & H1). exists r0. split; [apply in_or_app; auto | exact H1].
      * intros (r0 & H0 & H1). apply in_app_or in H0 as [H0|[<-|[]]].
        -- exists r0. auto.
        -- rewrite Hkey in H1. discriminate.
Qed.

Lemma filter_none {A} (f : A -> bool) l :
  (forall x, In x l -> f x = false) -> List.filter f l = [].
Proof.
  induction l as [|x l IH]; simpl; intros H; [reflexivity|].
  rewrite (H x) by auto. apply IH. auto.
Qed.

(** A key without a row has the empty bucket. *)
Lemma bucket_of_new rs key :
  ~ In key (keys_of period rs) -> bucket_of period rs key = new_bucket key.
Proof.
  intros Hnot. unfold bucket_of. rewrite filter_none; [reflexivity|].
  intros r Hr. unfold in_bucket.
  destruct (period_key period r) as [k|] eqn:Hk; [|reflexivity].
  destruct (String.eqb_spec k key); [|reflexivity]. subst k.
  exfalso. apply Hnot. apply keys_of_In. exists r. auto.
Qed.
End Buckets.

Section KeyedMap.
Context {V : Type}.
Implicit Types (g : string -> V) (ks : list string).

Lemma has_keyed g ks key :
  JMap.has String.eqb key (map (fun k => (k, g k)) ks)
  = existsb (fun k' => String.eqb k' key) ks.
Proof.
  unfold JMap.has. induction ks as [|k ks IH]; simpl; [reflexivity|].
  destruct (String.eqb k key); [reflexivity | exact IH].
Qed.

Lemma set_keyed_new g ks key v :
  existsb (fun k' => String.eqb k' key) ks = false ->
  JMap.set String.eqb key v (map (fun k => (k, g k)) ks)
  = map (fun k => (k, g k)) ks ++ [(key, v)].
Proof.
  induction ks as [|k ks IH]; simpl; [reflexivity|].
  destruct (String.eqb k key); simpl; [discriminate|].
  intros H. now rewrite IH.
Qed.

Lemma update_keyed_absent (f : V -> V) g ks key :
  existsb (fun k' => String.eqb k' key) ks = false ->
  JMap.update String.eqb key f (map (fun k => (k, g k)) ks)
  = map (fun k => (k, g k)) ks.
Proof.
  induction ks as [|k ks IH]; simpl; [reflexivity|].
  destruct (String.eqb k key); simpl; [discriminate|].
  intros H. now rewrite IH.
Qed.

Lemma update_app_absent (f : V -> V) g ks key (l : list (string * V)) :
  existsb (fun k' => String.eqb k' key) ks = false ->
  JMap.update String.eqb key f (map (fun k => (k, g k)) ks ++ l)
  = map (fun k => (k, g k)) ks ++ JMap.update String.eqb key f l.
Proof.
  induction ks as [|k ks IH]; simpl; [reflexivity|].
  destruct (String.eqb k key); simpl; [discriminate|].
  intros H. now rewrite IH.
Qed.

Lemma map_keyed_ext g g' ks :
  (forall k, In k ks -> g k = g' k) ->
  map (fun k => (k, g k)) ks = map (fun k => (k, g' k)) ks.
Proof.
  intros H. apply map_ext_in. intros k Hk. now rewrite H.
Qed.

(** Updating the entry of a key, in a map with one entry per key. *)
Lemma update_keyed (f : V -> V) g ks key :
  NoDup ks ->
  JMap.update String.eqb key f (map (fun k => (k, g k)) ks)
  = map (fun k => (k, if String.eqb key k then f (g k) else g k)) ks.
Proof.
  induction ks as [|k ks IH]; simpl; [reflexivity|].
  intros Hnd. apply NoDup_cons in Hnd as [Hk Hnd].
  rewrite (String.eqb_sym key k).
  destruct (String.eqb_spec k key) as [->|Hne].
  - f_equal. apply map_keyed_ext. intros k' Hk'.
    destruct (String.eqb_spec key k'); [|reflexivity].
    subst k'. exfalso. apply Hk. now apply list_elem_of_In.
  - f_equal. now apply IH.
Qed.
End KeyedMap.

Section GroupStep.
Variable period : value.

(** One turn of the loop takes the buckets of the rows seen so far to the
    buckets of these rows and the next one. *)
Lemma group_step_buckets rs r m :
  numeric_row r = true ->
  group_step period (buckets_of period rs) r = Ok m ->
  m = buckets_of period (rs ++ [r]).
Proof.
  intros Hr. unfold group_step.
  destruct (period_key period r) as [key|] eqn:Hkey; [|discriminate].
  cbn [bind]. intros [= <-].
  unfold buckets_of at 1 2 3. rewrite has_keyed.
  unfold buckets_of. rewrite keys_of_snoc. unfold add_key. rewrite Hkey.
  destruct (existsb _ (keys_of period rs)) eqn:E.
  - rewrite update_keyed by apply keys_of_NoDup.
    apply map_keyed_ext. intros k _.
    now rewrite (bucket_of_snoc period rs r key k Hkey Hr).
  - rewrite set_keyed_new by exact E.
    rewrite update_app_absent by exact E.
    rewrite map_app. f_equal.
    + apply map_keyed_ext. intros k Hk.
      rewrite (bucket_of_snoc period rs r key k Hkey Hr).
      destruct (String.eqb_spec key k); [|reflexivity].
      subst k. apply existsb_key_false in E. contradiction.
    + simpl. rewrite String.eqb_refl.
      rewrite (bucket_of_snoc period rs r key key Hkey Hr), String.eqb_refl.
      rewrite (bucket_of_new period rs key); [reflexivity|].
      now apply existsb_key_false.
Qed.

Lemma foldM_buckets rs2 : forall rs1 m,
  Forall (fun r => numeric_row r = true) rs2 ->
  foldM (group_step period) rs2 (buckets_of period rs1) = Ok m ->
  m = buckets_of period (rs1 ++ rs2).
Proof.
  induction rs2 as [|r rs2 IH]; intros rs1 m Hnum H.
  - simpl in H. injection H as <-. now rewrite app_nil_r.
  - simpl in H. inversion Hnum as [|? ? Hr Hnum']; subst.
    destruct (group_step period (buckets_of period rs1) r) as [m1|] eqn:E;
      [|discriminate].
    cbn [bind] in H. apply (group_step_buckets rs1 r m1 Hr) in E. subst m1.
    apply IH in H; [|exact Hnum']. now rewrite <- app_assoc in H.
Qed.

(** The map at the end of the loop holds the buckets of the rows. *)
Lemma group_loop_buckets rows m :
  Forall (fun r => numeric_row r = true) rows ->
  foldM (group_step period) rows [] = Ok m ->
  m = buckets_of period rows.
Proof. intros Hnum H. now apply (foldM_buckets rows [] m Hnum). Qed.

(** The loop ends when every row has a key. *)
Lemma group_loop_total rows : forall m0,
  Forall (fun r => exists key, period_key period r = Ok key) rows ->
  exists m, foldM (group_step period) rows m0 = Ok m.
Proof.
  induction rows as [|r rows IH]; intros m0 H; simpl.
  - now exists m0.
  - inversion H as [|? ? [key Hkey] H']; subst.
    unfold group_step at 1. rewrite Hkey. cbn [bind]. now apply IH.
Qed.
End GroupStep.

(** ** Sorting by date *)

Lemma string_compare_lt_trans a : forall b c,
  String.compare a b = Lt -> String.compare b c = Lt -> String.compare a c = Lt.
Proof.
  induction a as [|x a IH]; intros [|y b] [|z c]; simpl; try discriminate; auto.
  unfold Ascii.compare.
  destruct (N.compare_spec (N_of_ascii x) (N_of_ascii y)) as [Exy|Lxy|Gxy];
    try discriminate;
    destruct (N.compare_spec (N_of_ascii y) (N_of_ascii z)) as [Eyz|Lyz|Gyz];
    try discriminate; intros H1 H2.
  - rewrite Exy, Eyz, N.compare_refl. eapply IH; eauto.
  - rewrite Exy. now apply N.compare_lt_iff in Lyz as ->.
  - rewrite <- Eyz. now apply N.compare_lt_iff in Lxy as ->.
  - assert (L : (N_of_ascii x < N_of_ascii z)%N) by lia.
    now apply N.compare_lt_iff in L as ->.
Qed.

Lemma string_compare_refl a : String.compare a a = Eq.
Proof.
  induction a as [|x a IH]; simpl; [reflexivity|].
  unfold Ascii.compare. now rewrite N.compare_refl.
Qed.

Lemma compare_dates_dated a b s :
  JS.lookup_prop "date" a = VStr s ->
  compare_dates a b = Ok (String.compare (date_key a) (date_key b)).
Proof. unfold compare_dates, date_key, JS.localeCompare. now intros ->. Qed.

Lemma insert_dated x l :
  has_string_date x -> Forall has_string_date l ->
  exists l', insert compare_dates x l = Ok l'.
Proof.
  intros [s Hx] Hl. induction l as [|y l IH]; simpl; [eauto|].
  rewrite (compare_dates_dated x y s Hx). cbn [bind].
  inversion Hl; subst.
  destruct (String.compare _ _); eauto.
  destruct IH as [r ->]; [assumption|]. cbn [bind]. eauto.
Qed.

(** The sort does not throw on rows whose dates are strings. *)
Lemma sort_dated l :
  Forall has_string_date l -> exists l', sort compare_dates l = Ok l'.
Proof.
  induction l as [|x l IH]; simpl; intros H; [eauto|].
  inversion H; subst. destruct IH as [s Hs]; [assumption|].
  rewrite Hs. cbn [bind]. apply insert_dated; [assumption|].
  eapply Permutation_Forall; [apply (sort_perm _ _ _ Hs)|assumption].
Qed.

Lemma insert_sorted x l l' :
  has_string_date x -> Forall has_string_date l ->
  Sorted date_le l -> insert compare_dates x l = Ok l' -> Sorted date_le l'.
Proof.
  intros [s Hx] Hl. revert l'. induction l as [|y l IH]; simpl; intros l' Hs H.
  - injection H as <-. repeat constructor.
  - rewrite (compare_dates_dated x y s Hx) in H. cbn [bind] in H.
    inversion Hl as [|? ? [t Hy] Hl']; subst.
    destruct (String.compare (date_key x) (date_key y)) eqn:E.
    + injection H as <-. constructor; [exact Hs|].
      constructor. unfold date_le. now rewrite E.
    + injection H as <-. constructor; [exact Hs|].
      constructor. unfold date_le. now rewrite E.
    + destruct (insert compare_dates x l) as [r|] eqn:Hr; [|discriminate].
      cbn [bind] in H. injection H as <-.
      apply Sorted_inv in Hs as [Hs Hhd].
      constructor; [now apply IH|].
      assert (Hyx : date_le y x).
      { unfold date_le. rewrite String.compare_antisym, E. discriminate. }
      destruct l as [|z l]; simpl in Hr.
      * injection Hr as <-. now constructor.
      * rewrite (compare_dates_dated x z s Hx) in Hr. cbn [bind] in Hr.
        apply HdRel_inv in Hhd.
        destruct (String.compare (date_key x) (date_key z));
          try (injection Hr as <-; now constructor).
        destruct (insert compare_dates x l); [|discriminate].
        cbn [bind] in Hr. injection Hr as <-. now constructor.
Qed.

Lemma sort_sorted l l' :
  Forall has_string_date l -> sort compare_dates l = Ok l' -> Sorted date_le l'.
Proof.
  revert l'. induction l as [|x l IH]; simpl; intros l' Hl H.
  - injection H as <-. constructor.
  - inversion Hl; subst.
    destruct (sort compare_dates l) as [s|] eqn:Hs; [|discriminate].
    cbn [bind] in H.
    eapply insert_sorted; [eassumption| |now apply IH|exact H].
    eapply Permutation_Forall; [apply (sort_perm _ _ _ Hs)|assumption].
Qed.

(** Sorting a sorted list leaves it as it is. *)
Lemma sort_of_sorted l :
  Forall has_string_date l -> Sorted date_le l -> sort compare_dates l = Ok l.
Proof.
  induction l as [|x l IH]; simpl; intros Hl Hs; [reflexivity|].
  inversion Hl as [|? ? [s Hx] Hl']; subst.
  apply Sorted_inv in Hs as [Hs Hhd].
  rewrite IH by assumption. cbn [bind].
  destruct l as [|y l]; [reflexivity|]. simpl.
  rewrite (compare_dates_dated x y s Hx). cbn [bind].
  apply HdRel_inv in Hhd. unfold date_le in Hhd.
  destruct (String.compare (date_key x) (date_key y)); congruence.
Qed.

(** Sorted rows with distinct dates are strictly ascending. *)
Lemma sorted_ascending l :
  Sorted date_le l -> NoDup (map date_key l) -> ascending l.
Proof.
  intros Hs Hnd. unfold ascending.
  apply Sorted_StronglySorted.
  { intros a b c. apply string_compare_lt_trans. }
  induction l as [|x l IH]; [constructor|].
  apply Sorted_inv in Hs as [Hs Hhd]. simpl in Hnd.
  apply NoDup_cons in Hnd as [Hx Hnd].
  constructor; [now apply IH|].
  destruct l as [|y l]; constructor.
  apply HdRel_inv in Hhd. unfold date_le in Hhd.
  destruct (String.compare (date_key x) (date_key y)) eqn:E; try congruence.
  apply String.compare_eq_iff in E. exfalso. apply Hx. rewrite E. simpl. left.
Qed.

Lemma ascending_sorted l : ascending l -> Sorted date_le l.
Proof.
  intros H. apply StronglySorted_Sorted in H.
  induction H as [|x l Hs IH Hhd]; constructor; [exact IH|].
  destruct Hhd as [|y l Hxy]; constructor. unfold date_le. now rewrite Hxy.
Qed.

(** ** The output of [groupByPeriod] *)

Lemma mk_bucket_date key v c ct ca s : date_key (mk_bucket key v c ct ca s) = key.
Proof. reflexivity. Qed.


Lemma bucket_of_dated period rows key : has_string_date (bucket_of period rows key).
Proof. exists key. reflexivity. Qed.

Lemma values_buckets_of period rows :
  JMap.values (buckets_of period rows)
  = map (bucket_of period rows) (keys_of period rows).
Proof. unfold JMap.values, buckets_of. rewrite map_map. reflexivity. Qed.

(** The buckets [groupByPeriod] returns are those of the rows, sorted. *)
Lemma groupByPeriod_buckets rows period out :
  Forall (fun r => numeric_row r = true) rows ->
  groupByPeriod rows period = Ok out ->
  Permutation (map (bucket_of (default_day period) rows)
                   (keys_of (default_day period) rows)) out /\
  Sorted date_le out.
Proof.
  intros Hnum. unfold groupByPeriod.
  destruct (foldM _ rows []) as [m|] eqn:Hm; [|discriminate]. cbn [bind].
  apply (group_loop_buckets _ rows m Hnum) in Hm. subst m.
  rewrite values_buckets_of. intros H. split.
  - now apply sort_perm in H.
  - eapply sort_sorted; [|exact H].
    apply List.Forall_map. apply List.Forall_forall. intros k _. apply bucket_of_dated.
Qed.

Lemma canonical_row_inv r :
  canonical_row r = true ->
  numeric_row r = true /\
  exists s, JS.lookup_prop "date" r = VStr s /\ iso_date s = true.
Proof.
  unfold canonical_row. intros H. apply andb_prop in H as [Hd Hn].
  split; [exact Hn|].
  destruct (JS.lookup_prop "date" r); try discriminate. eauto.
Qed.

(** [groupByPeriod] returns on canonical rows. *)
Lemma groupByPeriod_total rows period :
  Forall (fun r => canonical_row r = true) rows ->
  exists out, groupByPeriod rows period = Ok out.
Proof.
  intros Hrows. unfold groupByPeriod.
  destruct (group_loop_total (default_day period) rows []) as [m Hm].
  { eapply List.Forall_impl; [|exact Hrows]. intros r Hr.
    apply canonical_row_inv in Hr as (_ & s & Hs & Hiso).
    now apply (period_key_total _ r s). }
  rewrite Hm. cbn [bind].
  assert (Hnum : Forall (fun r => numeric_row r = true) rows).
  { eapply List.Forall_impl; [|exact Hrows]. intros r Hr.
    now apply canonical_row_inv in Hr. }
  apply (group_loop_buckets _ rows m Hnum) in Hm. subst m.
  rewrite values_buckets_of. apply sort_dated.
  apply List.Forall_map. apply List.Forall_forall. intros k _. apply bucket_of_dated.
Qed.

Lemma total_perm k l l' : Permutation l l' -> total k l = total k l'.
Proof. induction 1; simpl; lia. Qed.

Lemma field_num_bucket_of period rows key k :
  In k numeric_fields ->
  field_num k (bucket_of period rows key)
  = total k (List.filter (in_bucket period key) rows).
Proof.
  simpl. intros [<-|[<-|[<-|[<-|[<-|[]]]]]]; reflexivity.
Qed.

Lemma total_buckets period rows k ks :
  In k numeric_fields ->
  total k (map (bucket_of period rows) ks)
  = sum_over (fun key => total k (List.filter (in_bucket period key) rows)) ks.
Proof.
  intros Hk. induction ks as [|key ks IH]; simpl; [reflexivity|].
  now rewrite IH, (field_num_bucket_of period rows key k Hk).
Qed.

Lemma sum_over_zero ks : sum_over (fun _ => 0) ks = 0.
Proof. induction ks; simpl; lia. Qed.

Lemma sum_over_add f g ks :
  sum_over (fun key => f key + g key) ks = sum_over f ks + sum_over g ks.
Proof. induction ks; simpl; lia. Qed.

Lemma sum_over_ext f g ks :
  (forall key, f key = g key) -> sum_over f ks = sum_over g ks.
Proof. intros H. induction ks; simpl; [reflexivity|]. now rewrite H, IHks. Qed.

Lemma sum_over_absent key x ks :
  ~ In key ks -> sum_over (fun k => if String.eqb key k then x else 0) ks = 0.
Proof.
  induction ks as [|k ks IH]; simpl; intros H; [reflexivity|].
  destruct (String.eqb_spec key k); [subst; tauto|]. rewrite IH; tauto.
Qed.

(** Over distinct keys, one key takes the whole amount. *)
Lemma sum_over_one key x ks :
  NoDup ks -> In key ks ->
  sum_over (fun k => if String.eqb key k then x else 0) ks = x.
Proof.
  induction ks as [|k ks IH]; simpl; intros Hnd Hin; [contradiction|].
  apply NoDup_cons in Hnd as [Hk Hnd].
  destruct (String.eqb_spec key k) as [->|Hne].
  - rewrite sum_over_absent; [lia|]. intros H. apply Hk. now apply list_elem_of_In.
  - destruct Hin as [->|Hin]; [contradiction|]. now rewrite IH.
Qed.

(** The buckets share out the rows: over distinct keys that cover the keys
    of the rows, the sums of the buckets add up to the sum of the rows. *)
Lemma partition_total period k rows ks :
  NoDup ks ->
  (forall r, In r rows -> exists key, period_key period r = Ok key /\ In key ks) ->
  sum_over (fun key => total k (List.filter (in_bucket period key) rows)) ks
  = total k rows.
Proof.
  intros Hnd. induction rows as [|r rows IH]; intros Hcov.
  - simpl. apply sum_over_zero.
  - destruct (Hcov r (or_introl eq_refl)) as (key & Hkey & Hin).
    rewrite (sum_over_ext _
      (fun key' => (if String.eqb key key' then field_num k r else 0) +
                   total k (List.filter (in_bucket period key') rows))).
    2:{ intros key'. simpl. rewrite (in_bucket_key period r key key' Hkey).
        destruct (String.eqb key key'); reflexivity. }
    rewrite sum_over_add, (sum_over_one key _ ks Hnd Hin), IH; [reflexivity|].
    intros r' Hr'. apply Hcov. now right.
Qed.

(** C10: every bucket [groupByPeriod] returns, whatever the period, for
    rows whose numeric fields are numbers, [null] or missing, has exactly
    the six fields [date], [views], [clicks], [contacts], [calls], [sales],
    the date a string and the five others numbers: [clicks] is never
    [null] or missing. *)
Theorem buckets_have_six_fields (rows : list obj) (period : value) (out : list obj) :
  Forall (fun r => numeric_row r = true) rows ->
  groupByPeriod rows period = Ok out ->
  Forall (fun b => exists key views clicks contacts calls sales,
            b = mk_bucket key views clicks contacts calls sales) out.
Proof.
  intros Hnum H.
  destruct (groupByPeriod_buckets rows period out Hnum H) as [Hperm _].
  eapply Permutation_Forall; [exact Hperm|].
  apply List.Forall_map. apply List.Forall_forall. intros key _.
  unfold bucket_of. eauto 10.
Qed.

Lemma buckets_have_six_fields_witness :
  Forall (fun b => exists key views clicks contacts calls sales,
            b = mk_bucket key views clicks contacts calls sales)
    [mk_bucket "2024-01-01" 7 0 0 0 0].
Proof.
  exact (buckets_have_six_fields
           [ [("date", VStr "2024-01-03"); ("views", VNum 7); ("clicks", VNull)] ]
           (VStr "week") [mk_bucket "2024-01-01" 7 0 0 0 0]
           ltac:(repeat constructor) eq_refl).
Defined.

(** ** Sums of doubles within the exact range *)

Lemma round_exact n : Z.abs n <= max_exact -> Double.round n = n.
Proof.
  unfold max_exact, Double.round. intros H.
  destruct (Z.eq_dec (Z.abs n) (2 ^ 53)) as [E|E].
  - rewrite E. change (Z.log2 (2 ^ 53) - 52 <=? 0) with false. cbv iota zeta.
    change (Z.log2 (2 ^ 53) - 52) with 1.
    change (2 ^ 53 mod 2 ^ 1) with 0. change (2 * 0 <? 2 ^ 1) with true.
    cbv iota. change (2 ^ 53 / 2 ^ 1 * 2 ^ 1) with (2 ^ 53).
    rewrite <- E. lia.
  - assert (Hlog : Z.log2 (Z.abs n) < 53).
    { destruct (Z.eq_dec (Z.abs n) 0) as [->|E0]; [reflexivity|].
      apply Z.log2_lt_pow2; lia. }
    destruct (Z.leb_spec (Z.log2 (Z.abs n) - 52) 0); [reflexivity | lia].
Qed.

Lemma plus_exact x y : Z.abs (x + y) <= max_exact -> Double.plus x y = x + y.
Proof. apply round_exact. Qed.

Lemma add_exact x y :
  Z.abs (x + y) <= max_exact -> Dbl.add (VNum x) (VNum y) = VNum (x + y).
Proof. intros H. unfold Dbl.add. simpl. now rewrite plus_exact. Qed.

Lemma magnitude_nonneg k rows : 0 <= magnitude k rows.
Proof. induction rows; simpl; lia. Qed.

Lemma magnitude_app k l1 l2 :
  magnitude k (l1 ++ l2) = magnitude k l1 + magnitude k l2.
Proof. induction l1 as [|r l1 IH]; simpl; lia. Qed.

Lemma magnitude_perm k l l' : Permutation l l' -> magnitude k l = magnitude k l'.
Proof. induction 1; simpl; lia. Qed.

Lemma magnitude_filter k (f : obj -> bool) l :
  magnitude k (List.filter f l) <= magnitude k l.
Proof. induction l as [|r l IH]; simpl; [lia|]. destruct (f r); simpl; lia. Qed.

(** The sum of a field over some rows is within the sum of the magnitudes. *)
Lemma total_magnitude k l : Z.abs (total k l) <= magnitude k l.
Proof. induction l as [|r l IH]; simpl; lia. Qed.

Lemma exact_sums_spec rows :
  exact_sums rows = true <->
  forall k, In k numeric_fields -> magnitude k rows <= max_exact.
Proof.
  unfold exact_sums, within_exact. rewrite forallb_forall.
  split; intros H k Hk; [apply Z.leb_le | apply Z.leb_le]; now apply H.
Qed.

(** ** [groupByPeriod] with sums of doubles *)

Lemma add_field_exact k r acc a :
  JS.lookup_prop k acc = VNum a ->
  number_or_absent (JS.lookup_prop k r) = true ->
  Z.abs (a + field_num k r) <= max_exact ->
  Dbl.add_field k r acc = add_field k r acc.
Proof.
  intros Ha Hr Hb. unfold Dbl.add_field, add_field.
  rewrite Ha, (or_zero _ Hr). fold (field_num k r).
  now rewrite (add_exact _ _ Hb).
Qed.

Lemma lookup_add_field_ne k k' r acc :
  k <> k' -> JS.lookup_prop k' (Dbl.add_field k r acc) = JS.lookup_prop k' acc.
Proof. intros H. unfold Dbl.add_field. now apply lookup_set_prop_ne. Qed.

Lemma accumulate_exact r key v c ct ca s :
  numeric_row r = true ->
  Z.abs (v + field_num "views" r) <= max_exact ->
  Z.abs (c + field_num "clicks" r) <= max_exact ->
  Z.abs (ct + field_num "contacts" r) <= max_exact ->
  Z.abs (ca + field_num "calls" r) <= max_exact ->
  Z.abs (s + field_num "sales" r) <= max_exact ->
  Dbl.accumulate r (mk_bucket key v c ct ca s)
  = accumulate r (mk_bucket key v c ct ca s).
Proof.
  intros Hr Hv Hc Hct Hca Hs.
  assert (Hf : forall k, In k numeric_fields ->
            number_or_absent (JS.lookup_prop k r) = true).
  { unfold numeric_row in Hr. rewrite forallb_forall in Hr. exact Hr. }
  unfold Dbl.accumulate, accumulate.
  rewrite (add_field_exact "sales" r _ s);
    [|rewrite !lookup_add_field_ne by discriminate; reflexivity
     |apply Hf; simpl; tauto|exact Hs].
  rewrite (add_field_exact "calls" r _ ca);
    [|rewrite !lookup_add_field_ne by discriminate; reflexivity
     |apply Hf; simpl; tauto|exact Hca].
  rewrite (add_field_exact "contacts" r _ ct);
    [|rewrite !lookup_add_field_ne by discriminate; reflexivity
     |apply Hf; simpl; tauto|exact Hct].
  rewrite (add_field_exact "clicks" r _ c);
    [|rewrite !lookup_add_field_ne by discriminate; reflexivity
     |apply Hf; simpl; tauto|exact Hc].
  rewrite (add_field_exact "views" r _ v);
    [|reflexivity|apply Hf; simpl; tauto|exact Hv].
  reflexivity.
Qed.

Lemma update_ext {V : Type} k (f g : V -> V) (m : list (string * V)) :
  (forall kv, In kv m -> f (snd kv) = g (snd kv)) ->
  JMap.update String.eqb k f m = JMap.update String.eqb k g m.
Proof.
  induction m as [|[k' v] m IH]; intros H; simpl; [reflexivity|].
  destruct (String.eqb k' k).
  - f_equal. f_equal. apply (H (k', v)). now left.
  - f_equal. apply IH. intros kv Hkv. apply H. now right.
Qed.

Lemma In_set_value {V : Type} k0 (v0 : V) (m : list (string * V)) kv :
  In kv (JMap.set String.eqb k0 v0 m) -> In (snd kv) (map snd m) \/ snd kv = v0.
Proof.
  induction m as [|[k' v'] m IH]; simpl.
  - intros [<-|[]]. now right.
  - destruct (String.eqb k' k0); simpl.
    + intros [<-|H]; [now right|]. left. right. now apply in_map.
    + intros [<-|H]; [left; now left|].
      destruct (IH H) as [H'|H']; [left; now right | now right].
Qed.

(** One turn of the loop adds doubles as it adds integers, the sums so far
    and the row staying within the exact range. *)
Lemma group_step_exact period rs r :
  numeric_row r = true ->
  (forall k, In k numeric_fields ->
     magnitude k rs + Z.abs (field_num k r) <= max_exact) ->
  Dbl.group_step period (buckets_of period rs) r
  = group_step period (buckets_of period rs) r.
Proof.
  intros Hr Hb. unfold Dbl.group_step, group_step.
  destruct (period_key period r) as [key|]; cbn [bind]; [|reflexivity].
  f_equal. apply update_ext. intros kv Hin.
  assert (Hbucket : forall key', Dbl.accumulate r (bucket_of period rs key')
                                 = accumulate r (bucket_of period rs key')).
  { intros key'. unfold bucket_of.
    apply accumulate_exact; [exact Hr|..];
      match goal with
      | |- Z.abs (total ?k ?l + _) <= _ =>
          pose proof (total_magnitude k l);
          pose proof (magnitude_filter k (in_bucket period key') rs);
          pose proof (Hb k ltac:(simpl; tauto)); lia
      end. }
  assert (Hnew : Dbl.accumulate r (new_bucket key) = accumulate r (new_bucket key)).
  { change (new_bucket key) with (mk_bucket key 0 0 0 0 0).
    apply accumulate_exact; [exact Hr|..];
      match goal with
      | |- Z.abs (0 + field_num ?k _) <= _ =>
          pose proof (magnitude_nonneg k rs);
          pose proof (Hb k ltac:(simpl; tauto)); lia
      end. }
  assert (Hold : In (snd kv) (map snd (buckets_of period rs)) ->
                 Dbl.accumulate r (snd kv) = accumulate r (snd kv)).
  { unfold buckets_of. rewrite map_map. simpl. intros H.
    apply in_map_iff in H as (key' & <- & _). apply Hbucket. }
  destruct (JMap.has String.eqb key (buckets_of period rs)).
  - apply Hold. now apply in_map.
  - destruct (In_set_value _ _ _ _ Hin) as [H|H]; [now apply Hold|].
    rewrite H. exact Hnew.
Qed.

Lemma group_loop_exact period rs2 : forall rs1,
  Forall (fun r => numeric_row r = true) rs2 ->
  (forall k, In k numeric_fields -> magnitude k (rs1 ++ rs2) <= max_exact) ->
  foldM (Dbl.group_step period) rs2 (buckets_of period rs1)
  = foldM (group_step period) rs2 (buckets_of period rs1).
Proof.
  induction rs2 as [|r rs2 IH]; intros rs1 Hnum Hb; [reflexivity|].
  inversion Hnum as [|? ? Hr Hnum']; subst. simpl.
  rewrite (group_step_exact period rs1 r Hr).
  2:{ intros k Hk. specialize (Hb k Hk). rewrite magnitude_app in Hb. simpl in Hb.
      pose proof (magnitude_nonneg k rs2). lia. }
  destruct (group_step period (buckets_of period rs1) r) as [m1|e] eqn:E;
    cbn [bind]; [|reflexivity].
  apply (group_step_buckets period rs1 r m1 Hr) in E. subst m1.
  apply IH; [exact Hnum'|]. intros k Hk. rewrite <- app_assoc. now apply Hb.
Qed.

(** Within the exact range, [groupByPeriod] with sums of doubles returns
    what it returns with sums of integers. *)
Lemma groupByPeriod_exact rows p :
  Forall (fun r => numeric_row r = true) rows ->
  exact_sums rows = true ->
  Dbl.groupByPeriod rows p = groupByPeriod rows p.
Proof.
  intros Hnum Hb. unfold Dbl.groupByPeriod, groupByPeriod.
  change (@nil (string * obj)) with (buckets_of (default_day p) []).
  rewrite (group_loop_exact (default_day p) rows [] Hnum); [reflexivity|].
  now apply exact_sums_spec.
Qed.

(** ** [sum] with sums of doubles *)

Lemma dbl_sum_from rows k : forall a,
  Forall (fun r => numeric_row r = true) rows -> In k numeric_fields ->
  Z.abs a + magnitude k rows <= max_exact ->
  fold_left (fun s x => Dbl.add s (JS.or (JS.lookup_prop k x) (VNum 0))) rows (VNum a)
  = VNum (a + total k rows).
Proof.
  induction rows as [|r rows IH]; intros a Hnum Hk Hb; simpl.
  - f_equal. lia.
  - inversion Hnum as [|? ? Hr Hnum']; subst. simpl in Hb.
    pose proof (magnitude_nonneg k rows).
    rewrite (numeric_row_field r k Hr Hk), add_exact by lia.
    rewrite IH by (assumption || lia). f_equal. lia.
Qed.

Lemma dbl_sum_total rows k :
  Forall (fun r => numeric_row r = true) rows -> In k numeric_fields ->
  magnitude k rows <= max_exact ->
  Dbl.sum rows k = VNum (total k rows).
Proof.
  intros Hnum Hk Hb. unfold Dbl.sum.
  now rewrite (dbl_sum_from rows k 0 Hnum Hk) by (simpl; lia).
Qed.

Lemma sum_over_le f g ks :
  (forall key, f key <= g key) -> sum_over f ks <= sum_over g ks.
Proof.
  intros H. induction ks as [|key ks IH]; simpl; [lia|]. specialize (H key). lia.
Qed.

Lemma magnitude_buckets_sum period rows k ks :
  In k numeric_fields ->
  magnitude k (map (bucket_of period rows) ks)
  = sum_over (fun key => Z.abs (total k (List.filter (in_bucket period key) rows))) ks.
Proof.
  intros Hk. induction ks as [|key ks IH]; simpl; [reflexivity|].
  now rewrite IH, (field_num_bucket_of period rows key k Hk).
Qed.

(** Over distinct keys, the magnitudes of the buckets are within those of
    the rows. *)
Lemma partition_magnitude period k rows ks :
  NoDup ks ->
  sum_over (fun key => magnitude k (List.filter (in_bucket period key) rows)) ks
  <= magnitude k rows.
Proof.
  intros Hnd. induction rows as [|r rows IH].
  - simpl. rewrite sum_over_zero. lia.
  - set (x := Z.abs (field_num k r)).
    rewrite (sum_over_ext _
      (fun key => (if in_bucket period key r then x else 0) +
                  magnitude k (List.filter (in_bucket period key) rows))).
    2:{ intros key. simpl. destruct (in_bucket period key r); reflexivity. }
    rewrite sum_over_add. simpl. fold x.
    assert (Hone : sum_over (fun key => if in_bucket period key r then x else 0) ks
                   <= x).
    { unfold in_bucket. destruct (period_key period r) as [k0|].
      - destruct (in_dec String.string_dec k0 ks) as [Hin|Hout].
        + rewrite (sum_over_one k0 x ks Hnd Hin). lia.
        + rewrite (sum_over_absent k0 x ks Hout). unfold x. lia.
      - rewrite sum_over_zero. unfold x. lia. }
    lia.
Qed.

Lemma magnitude_buckets period rows k ks :
  In k numeric_fields -> NoDup ks ->
  magnitude k (map (bucket_of period rows) ks) <= magnitude k rows.
Proof.
  intros Hk Hnd. rewrite (magnitude_buckets_sum period rows k ks Hk).
  etransitivity; [|apply (partition_magnitude period k rows ks Hnd)].
  apply sum_over_le. intros key. apply total_magnitude.
Qed.

Lemma exact_sums_perm rows rows' :
  Permutation rows rows' -> exact_sums rows = exact_sums rows'.
Proof.
  intros H. unfold exact_sums, within_exact, numeric_fields. cbn [forallb].
  now rewrite !(fun k => magnitude_perm k rows rows' H).
Qed.

(** ** The buckets of [groupByPeriod] *)





(** ** Aggregating buckets again *)

Section Again.
Variable period : value.
Variable l : list obj.
Hypothesis Hkey : forall b, In b l -> period_key period b = Ok (date_key b).

Lemma filter_date_unique l0 b :
  NoDup (map date_key l0) -> In b l0 ->
  List.filter (fun b' => String.eqb (date_key b') (date_key b)) l0 = [b].
Proof.
  induction l0 as [|x l0 IH]; simpl; intros Hnd Hin; [contradiction|].
  apply NoDup_cons in Hnd as [Hx Hnd].
  destruct Hin as [->|Hin].
  - rewrite String.eqb_refl. f_equal. apply filter_none.
    intros y Hy. destruct (String.eqb_spec (date_key y) (date_key b)) as [E|];
      [|reflexivity].
    exfalso. apply Hx. rewrite <- E. apply list_elem_of_In. now apply in_map.
  - destruct (String.eqb_spec (date_key x) (date_key b)) as [E|]; [|now apply IH].
    exfalso. apply Hx. rewrite E. apply list_elem_of_In. now apply in_map.
Qed.

(** Rows with distinct dates that are their own keys have these dates
    as keys, in the order of the rows. *)
Lemma keys_of_distinct :
  NoDup (map date_key l) -> keys_of period l = map date_key l.
Proof.
  revert Hkey. induction l as [|x l0 IH] using rev_ind; intros Hk Hnd;
    [reflexivity|].
  rewrite keys_of_snoc, map_app. rewrite map_app in Hnd. simpl in *.
  apply NoDup_app in Hnd as (Hnd & Hx & _).
  rewrite IH; [|intros b Hb; apply Hk, in_or_app; now left|exact Hnd].
  unfold add_key. rewrite (Hk x) by (apply in_or_app; simpl; auto).
  destruct (existsb _ _) eqn:E; [|reflexivity].
  apply existsb_key in E. exfalso.
  apply (Hx (date_key x)); [now apply list_elem_of_In | left].
Qed.

(** A bucket alone under its key is the bucket of its key. *)
Lemma bucket_of_self b key v c ct ca s :
  NoDup (map date_key l) -> In b l ->
  b = mk_bucket key v c ct ca s ->
  bucket_of period l (date_key b) = b.
Proof.
  intros Hnd Hin Hb. unfold bucket_of.
  rewrite (List.filter_ext_in (in_bucket period (date_key b))
             (fun b' => String.eqb (date_key b') (date_key b))).
  2:{ intros b' Hb'. now rewrite (in_bucket_key period b' _ _ (Hkey b' Hb')). }
  rewrite (filter_date_unique l b Hnd Hin). subst b.
  unfold total, field_num. simpl. now rewrite !Z.add_0_r.
Qed.
End Again.

(** C9: aggregation by day is idempotent: on canonical rows,
    [groupByPeriod] with period "day" returns a series, and applied to that
    series it returns it unchanged. *)
Theorem day_aggregation_idempotent (rows : list obj) :
  Forall (fun r => canonical_row r = true) rows ->
  exists out,
    groupByPeriod rows (VStr "day") = Ok out /\
    groupByPeriod out (VStr "day") = Ok out.
Proof.
  intros Hrows.
  destruct (groupByPeriod_total rows (VStr "day") Hrows) as [out Hout].
  exists out. split; [exact Hout|].
  assert (Hnum : Forall (fun r => numeric_row r = true) rows).
  { eapply List.Forall_impl; [|exact Hrows]. intros r Hr.
    now apply canonical_row_inv in Hr. }
  destruct (groupByPeriod_buckets rows (VStr "day") out Hnum Hout) as [Hperm Hsorted].
  cbn [default_day] in Hperm.
  (* every bucket is a canonical row whose date is its key *)
  assert (Hb : forall b, In b out ->
            (exists key v c ct ca s, b = mk_bucket key v c ct ca s) /\
            iso_date (date_key b) = true).
  { intros b Hin. apply (Permutation_in _ (Permutation_sym Hperm)) in Hin.
    apply in_map_iff in Hin as (key & <- & Hkey). split.
    - unfold bucket_of. eauto 10.
    - apply keys_of_In in Hkey as (r & Hr & Hk).
      rewrite List.Forall_forall in Hrows.
      destruct (canonical_row_inv r (Hrows r Hr)) as (_ & s & Hs & Hiso).
      rewrite (period_key_day (VStr "day") r s Hs Hiso eq_refl eq_refl) in Hk.
      injection Hk as <-. exact Hiso. }
  assert (Hkey : forall b, In b out -> period_key (VStr "day") b = Ok (date_key b)).
  { intros b Hin. destruct (Hb b Hin) as [(key & v & c & ct & ca & s & ->) Hiso].
    now apply period_key_day. }
  assert (Hnd : NoDup (map date_key out)).
  { rewrite <- Hperm, map_map. simpl. rewrite map_id. apply keys_of_NoDup. }
  assert (Hnum' : Forall (fun r => numeric_row r = true) out).
  { apply List.Forall_forall. intros b Hin.
    destruct (Hb b Hin) as [(key & v & c & ct & ca & s & ->) _]. reflexivity. }
  unfold groupByPeriod. cbn [default_day].
  destruct (group_loop_total (VStr "day") out []) as [m Hm].
  { apply List.Forall_forall. intros b Hin. eauto. }
  rewrite Hm. cbn [bind].
  apply (group_loop_buckets _ out m Hnum') in Hm. subst m.
  rewrite values_buckets_of, (keys_of_distinct _ out Hkey Hnd), map_map.
  rewrite (map_ext_in _ (fun b => b)), map_id.
  2:{ intros b Hin. destruct (Hb b Hin) as [(key & v & c & ct & ca & s & E) _].
      now apply (bucket_of_self _ out Hkey b key v c ct ca s). }
  apply sort_of_sorted; [|exact Hsorted].
  apply List.Forall_forall. intros b Hin.
  destruct (Hb b Hin) as [(key & v & c & ct & ca & s & ->) _]. now exists key.
Qed.

Lemma day_aggregation_idempotent_witness :
  exists out,
    groupByPeriod Example.item_rows (VStr "day") = Ok out /\
    groupByPeriod out (VStr "day") = Ok out.
Proof.
  exact (day_aggregation_idempotent Example.item_rows ltac:(repeat constructor)).
Defined.

(** ** The merge by date *)

Lemma svz_eq a b : same_value_zero a b = true -> a = b.
Proof.
  destruct a, b; simpl; try discriminate; try reflexivity.
  - intros H. apply Bool.eqb_prop in H. now subst.
  - intros H. apply Z.eqb_eq in H. now subst.
  - intros H. apply String.eqb_eq in H. now subst.
Qed.

Lemma svz_sym a b : same_value_zero a b = same_value_zero b a.
Proof.
  destruct a, b; simpl; try reflexivity.
  - now destruct b, b0.
  - apply Z.eqb_sym.
  - apply String.eqb_sym.
Qed.

(** A value equal to some value is equal to itself. *)
Lemma svz_refl_of a b : same_value_zero a b = true -> same_value_zero b b = true.
Proof. intros H. pose proof (svz_eq a b H) as <-. exact H. Qed.

Section DateMap.
Implicit Types (m : date_map) (k d : value) (i j : nat).

Lemma get_set k i m d :
  JMap.get same_value_zero d (JMap.set same_value_zero k i m)
  = if same_value_zero k d then Some i else JMap.get same_value_zero d m.
Proof.
  induction m as [|[k' v'] m IH]; simpl; [reflexivity|].
  destruct (same_value_zero k' k) eqn:E; simpl.
  - apply svz_eq in E. subst k'. now destruct (same_value_zero k d).
  - rewrite IH. destruct (same_value_zero k' d) eqn:E1; [|reflexivity].
    destruct (same_value_zero k d) eqn:E2; [|reflexivity].
    apply svz_eq in E1. subst k'. rewrite svz_sym in E. congruence.
Qed.

Lemma get_In d m i :
  JMap.get same_value_zero d m = Some i ->
  exists k, In (k, i) m /\ same_value_zero k d = true.
Proof.
  induction m as [|[k' v'] m IH]; simpl; [discriminate|].
  destruct (same_value_zero k' d) eqn:E.
  - intros [= <-]. eauto.
  - intros H. destruct (IH H) as (k & Hk & Hd). eauto.
Qed.

Lemma In_set k0 v m k j :
  In (k, j) (JMap.set same_value_zero k0 v m) ->
  In (k, j) m \/ (j = v /\ k = k0).
Proof.
  induction m as [|[k' v'] m IH]; simpl.
  - intros [[= <- <-]|[]]. auto.
  - destruct (same_value_zero k' k0) eqn:E; simpl.
    + intros [[= <- <-]|H]; [|auto]. right. split; [reflexivity|].
      now apply svz_eq.
    + intros [H|H]; [auto|]. destruct (IH H); auto.
Qed.

Lemma set_existing k i m :
  JMap.get same_value_zero k m = Some i -> JMap.set same_value_zero k i m = m.
Proof.
  induction m as [|[k' v'] m IH]; simpl; [discriminate|].
  destruct (same_value_zero k' k).
  - now intros [= <-].
  - intros H. now rewrite IH.
Qed.

Lemma get_None_all k m :
  JMap.get same_value_zero k m = None ->
  Forall (fun kv => same_value_zero (fst kv) k = false) m.
Proof.
  induction m as [|[k' v'] m IH]; simpl; [constructor|].
  destruct (same_value_zero k' k) eqn:E; [discriminate|].
  intros H. constructor; auto.
Qed.

Lemma set_fresh k i m :
  JMap.get same_value_zero k m = None ->
  JMap.set same_value_zero k i m = m ++ [(k, i)].
Proof.
  induction m as [|[k' v'] m IH]; simpl; [reflexivity|].
  destruct (same_value_zero k' k); [discriminate|].
  intros H. now rewrite IH.
Qed.

Lemma keys_distinct_snoc m k i :
  keys_distinct m ->
  Forall (fun kv => same_value_zero (fst kv) k = false) m ->
  keys_distinct (m ++ [(k, i)]).
Proof.
  induction m as [|[k' v'] m IH]; simpl; intros Hd Hk.
  - split; constructor.
  - destruct Hd as [Hall Hd]. inversion Hk as [|? ? Hk' Hk'']; subst.
    split; [|now apply IH].
    apply Forall_app. split; [exact Hall|]. constructor; [exact Hk'|constructor].
Qed.

Lemma keys_distinct_set k i m :
  keys_distinct m -> keys_distinct (JMap.set same_value_zero k i m).
Proof.
  intros Hd. destruct (JMap.get same_value_zero k m) as [j|] eqn:E.
  - clear E. induction m as [|[k' v'] m IH]; simpl.
    + split; constructor.
    + destruct Hd as [Hall Hd].
      destruct (same_value_zero k' k) eqn:E'; simpl; [auto|].
      split; [|now apply IH].
      clear IH Hd. induction m as [|[k2 v2] m IH]; simpl.
      * constructor; [simpl; exact E'|constructor].
      * inversion Hall; subst.
        destruct (same_value_zero k2 k); constructor; auto.
  - rewrite (set_fresh _ _ _ E).
    apply keys_distinct_snoc; [exact Hd | now apply get_None_all].
Qed.

End DateMap.


Lemma add_calls_other c t k :
  k <> "calls"%string -> JS.lookup_prop k (add_calls c t) = JS.lookup_prop k t.
Proof. intros Hk. unfold add_calls. apply lookup_set_prop_ne. congruence. Qed.

Lemma find_last_split {A} (f : A -> bool) l x :
  List.find f (rev l) = Some x ->
  exists pre post, l = pre ++ x :: post /\ f x = true /\
                   Forall (fun y => f y = false) post.
Proof.
  induction l as [|y l IH] using rev_ind; [discriminate|].
  rewrite rev_app_distr. simpl. destruct (f y) eqn:E.
  - intros [= <-]. exists l, []. repeat split; auto.
  - intros H. destruct (IH H) as (pre & post & -> & Hx & Hpost).
    exists pre, (post ++ [y]). rewrite <- app_assoc. repeat split; auto.
    apply Forall_app. split; [exact Hpost|]. constructor; [exact E|constructor].
Qed.

Section MapOfRows.
Lemma map_of_rows_app pre : forall post i0 m0,
  map_of_rows i0 (pre ++ post) m0
  = map_of_rows (i0 + length pre)%nat post (map_of_rows i0 pre m0).
Proof.
  induction pre as [|r pre IH]; intros post i0 m0; simpl.
  - now rewrite Nat.add_0_r.
  - rewrite IH. f_equal. lia.
Qed.

Lemma map_of_rows_absent d post : forall i0 m0,
  Forall (fun r => has_date d r = false) post ->
  JMap.get same_value_zero d (map_of_rows i0 post m0)
  = JMap.get same_value_zero d m0.
Proof.
  induction post as [|r post IH]; intros i0 m0 H; simpl; [reflexivity|].
  inversion H as [|? ? Hr Hpost]; subst.
  rewrite IH by exact Hpost. rewrite get_set.
  unfold has_date in Hr. now rewrite Hr.
Qed.

(** The map built from the rows finds, for a date, the last row that
    carries it. *)
Lemma map_of_rows_last d pre last post :
  has_date d last = true ->
  Forall (fun r => has_date d r = false) post ->
  JMap.get same_value_zero d (map_of_rows 0 (pre ++ last :: post) [])
  = Some (length pre).
Proof.
  intros Hlast Hpost. rewrite map_of_rows_app. simpl.
  rewrite (map_of_rows_absent d post _ _ Hpost), get_set.
  unfold has_date in Hlast. now rewrite Hlast.
Qed.

Lemma map_of_rows_distinct rows : forall i0 m0,
  keys_distinct m0 -> keys_distinct (map_of_rows i0 rows m0).
Proof.
  induction rows as [|r rows IH]; intros i0 m0 H; simpl; [exact H|].
  apply IH. now apply keys_distinct_set.
Qed.

Lemma map_of_rows_dated rest : forall done m0,
  entries_dated (done ++ rest) m0 ->
  entries_dated (done ++ rest) (map_of_rows (length done) rest m0).
Proof.
  induction rest as [|r rest IH]; intros done m0 H; simpl; [exact H|].
  replace (done ++ r :: rest) with ((done ++ [r]) ++ rest) in *
    by (now rewrite <- app_assoc).
  replace (S (length done)) with (length (done ++ [r]))
    by (rewrite length_app; simpl; lia).
  apply IH. intros k j Hin. apply In_set in Hin as [Hin|[-> ->]].
  - now apply H.
  - exists r. split; [|reflexivity].
    rewrite <- app_assoc. simpl. now rewrite list_lookup_middle.
Qed.
End MapOfRows.

Section MergeCall.
Variable c : obj.

Lemma merge_call_distinct h m :
  keys_distinct m -> keys_distinct (snd (merge_call (h, m) c)).
Proof.
  intros H. unfold merge_call.
  destruct (JMap.get same_value_zero _ m); simpl; now apply keys_distinct_set.
Qed.

Lemma merge_call_dated h m :
  entries_dated h m ->
  entries_dated (fst (merge_call (h, m) c)) (snd (merge_call (h, m) c)).
Proof.
  intros H. unfold merge_call.
  set (date := JS.lookup_prop "date" c).
  destruct (JMap.get same_value_zero date m) as [i|] eqn:E; simpl.
  - rewrite (set_existing _ _ _ E). intros k j Hin.
    destruct (H k j Hin) as (t & Ht & Hd).
    destruct (decide (i = j)) as [->|Hne].
    + exists (add_calls c t). rewrite list_lookup_alter_eq, Ht. split; [reflexivity|].
      rewrite add_calls_other by discriminate. exact Hd.
    + exists t. now rewrite list_lookup_alter_ne.
  - intros k j Hin. apply In_set in Hin as [Hin|[-> ->]].
    + destruct (H k j Hin) as (t & Ht & Hd).
      pose proof (lookup_lt_Some _ _ _ Ht) as Hlt.
      exists t. split; [|exact Hd].
      rewrite list_lookup_alter_ne by lia. now rewrite lookup_app_l.
    + exists (add_calls c [("date", date)]). split; [|reflexivity].
      rewrite list_lookup_alter_eq, list_lookup_middle; reflexivity.
Qed.

End MergeCall.






(** * Further properties *)

(** ** The adapters, row by row *)

Lemma entry_date_not_null d :
  JS.nullish d = false -> entry_date d = Ok (date_of_entry d).
Proof.
  intros H. unfold entry_date, date_of_entry.
  now rewrite !(get_not_nullish d _ H).
Qed.

Lemma entry_date_null d : JS.nullish d = true -> entry_date d = Throw TypeError.
Proof. intros H. unfold entry_date. now rewrite (get_nullish d _ H). Qed.

Lemma first_defined_not_null d k1 k2 k3 :
  JS.nullish d = false -> first_defined d k1 k2 k3 = Ok (field_of_entry d k1 k2 k3).
Proof.
  intros H. unfold first_defined, field_of_entry.
  now rewrite !(get_not_nullish d _ H).
Qed.

Lemma field_of_entry_defined d k1 k2 k3 :
  JS.nullish (field_of_entry d k1 k2 k3) = false.
Proof.
  unfold field_of_entry, JS.coalesce.
  destruct (JS.nullish (JS.get_opt d k1)) eqn:E1; [|exact E1].
  destruct (JS.nullish (JS.get_opt d k2)) eqn:E2; [|exact E2].
  destruct (JS.nullish (JS.get_opt d k3)) eqn:E3; [reflexivity|exact E3].
Qed.

(** One turn of the loop over the daily entries. *)
Lemma item_entry_not_null rows d :
  JS.nullish d = false -> item_entry rows d = Ok (rows ++ rows_of_entry d).
Proof.
  intros H. unfold item_entry, rows_of_entry.
  rewrite (entry_date_not_null d H). cbn [bind].
  destruct (JS.truthy (date_of_entry d)); cbn [negb].
  - rewrite !(first_defined_not_null d _ _ _ H). cbn [bind].
    now rewrite push_row_fields.
  - now rewrite app_nil_r.
Qed.

Lemma item_entry_null rows d :
  JS.nullish d = true -> item_entry rows d = Throw TypeError.
Proof. intros H. unfold item_entry. now rewrite (entry_date_null d H). Qed.

Lemma call_entry_not_null rows it :
  JS.nullish it = false ->
  call_entry rows it
  = Ok (rows ++ if JS.truthy (date_of_entry it)
                then [ [("date", date_of_entry it);
                        ("calls", field_of_entry it "calls" "success_calls" "total")] ]
                else []).
Proof.
  intros H. unfold call_entry.
  rewrite (entry_date_not_null it H). cbn [bind].
  destruct (JS.truthy (date_of_entry it)); cbn [negb].
  - now rewrite (first_defined_not_null it _ _ _ H).
  - now rewrite app_nil_r.
Qed.

Lemma call_entry_null rows it :
  JS.nullish it = true -> call_entry rows it = Throw TypeError.
Proof. intros H. unfold call_entry. now rewrite (entry_date_null it H). Qed.

(** The loop over a series: it ends when no entry is [null], with the rows
    of the entries in their order, and throws a type error otherwise. *)
Lemma item_series ds : forall rows,
  foldM item_entry ds rows
  = if forallb (fun d => negb (JS.nullish d)) ds
    then Ok (rows ++ flat_map rows_of_entry ds)
    else Throw TypeError.
Proof.
  induction ds as [|d ds IH]; intros rows; simpl.
  - now rewrite app_nil_r.
  - destruct (JS.nullish d) eqn:E; cbn [negb andb].
    + now rewrite (item_entry_null rows d E).
    + rewrite (item_entry_not_null rows d E). cbn [bind]. rewrite IH.
      now rewrite <- app_assoc.
Qed.

Lemma rows_of_entry_shape d : Forall item_row_shape (rows_of_entry d).
Proof.
  unfold rows_of_entry. destruct (JS.truthy (date_of_entry d)) eqn:E; constructor;
    [|constructor].
  do 3 eexists. split; [reflexivity|]. split; [exact E|].
  split; apply field_of_entry_defined.
Qed.

Lemma chars_not_null s : forallb (fun d => negb (JS.nullish d)) (JS.chars s) = true.
Proof. induction s; simpl; auto. Qed.

Lemma chars_no_rows s : flat_map rows_of_entry (JS.chars s) = [].
Proof. induction s; simpl; auto. Qed.

Lemma item_record_closed rows b :
  item_record rows b
  = let* ds := JS.iterate (series_of b) in
    if forallb (fun d => negb (JS.nullish d)) ds
    then Ok (rows ++ flat_map rows_of_entry ds)
    else Throw TypeError.
Proof.
  unfold item_record. fold (series_of b).
  destruct (JS.iterate (series_of b)); cbn [bind]; [apply item_series|reflexivity].
Qed.

(** The rows of a record do not depend on the rows before them. *)
Lemma item_record_shift rows b :
  item_record rows b = let* r := item_record [] b in Ok (rows ++ r).
Proof.
  rewrite !item_record_closed.
  destruct (JS.iterate (series_of b)) as [ds|]; cbn [bind]; [|reflexivity].
  destruct (forallb _ ds); reflexivity.
Qed.

Lemma item_records_shift bs : forall rows,
  foldM item_record bs rows
  = let* r := foldM item_record bs [] in Ok (rows ++ r).
Proof.
  induction bs as [|b bs IH]; intros rows; simpl.
  - now rewrite app_nil_r.
  - rewrite (item_record_shift rows b).
    destruct (item_record [] b) as [r|]; cbn [bind]; [|reflexivity].
    rewrite (IH (rows ++ r)), (IH r).
    destruct (foldM item_record bs []) as [r'|]; cbn [bind]; [|reflexivity].
    now rewrite app_assoc.
Qed.

Lemma adaptItemsStats_records raw :
  adaptItemsStats raw = foldM item_record (records_of raw) [].
Proof.
  unfold adaptItemsStats, records_of.
  destruct (JS.isArray (JS.get_opt raw "result")),
           (JS.isArray (JS.get_opt raw "data")); simpl;
    rewrite ?app_nil_r; reflexivity.
Qed.

(** X1: the item-stats adapter puts the records under [result] before
    those under [data]: when both are lists, its rows are the rows of the
    payload that has the [result] list alone followed by the rows of the
    payload that has the [data] list alone, and it throws when one of the
    two does. *)
Theorem adaptItemsStats_result_then_data (raw : value) (xs ys : list value) :
  JS.get_opt raw "result" = VArr xs ->
  JS.get_opt raw "data" = VArr ys ->
  adaptItemsStats raw
  = let* a := adaptItemsStats (VObj [("result", VArr xs)]) in
    let* b := adaptItemsStats (VObj [("data", VArr ys)]) in
    Ok (a ++ b).
Proof.
  intros Hx Hy. rewrite !adaptItemsStats_records. unfold records_of.
  rewrite Hx, Hy. cbn. rewrite app_nil_r, foldM_app.
  destruct (foldM item_record xs []) as [a|]; cbn [bind]; [|reflexivity].
  apply item_records_shift.
Qed.

Lemma adaptItemsStats_result_then_data_witness :
  adaptItemsStats AdapterExample.both
  = let* a := adaptItemsStats (VObj [("result", VArr AdapterExample.under_result)]) in
    let* b := adaptItemsStats (VObj [("data", VArr AdapterExample.under_data)]) in
    Ok (a ++ b).
Proof.
  exact (adaptItemsStats_result_then_data AdapterExample.both
           AdapterExample.under_result AdapterExample.under_data eq_refl eq_refl).
Defined.

Lemma item_record_shape rows b rows' :
  Forall item_row_shape rows -> item_record rows b = Ok rows' ->
  Forall item_row_shape rows'.
Proof.
  rewrite item_record_closed. intros Hrows.
  destruct (JS.iterate (series_of b)) as [ds|]; cbn [bind]; [|discriminate].
  destruct (forallb _ ds); [|discriminate]. intros [= <-].
  apply Forall_app. split; [exact Hrows|].
  apply Forall_flat_map. apply List.Forall_forall. intros d _.
  apply rows_of_entry_shape.
Qed.

(** X2: every row of the item-stats adapter has the six fields [date],
    [views], [clicks], [contacts], [calls], [sales] in this order, with a
    truthy date, [views] and [contacts] that are neither [undefined] nor
    [null], [clicks] [null], and [calls] and [sales] 0. *)
Theorem adaptItemsStats_row_shape (raw : value) (rows : list obj) :
  adaptItemsStats raw = Ok rows -> Forall item_row_shape rows.
Proof.
  unfold adaptItemsStats. intros H.
  eapply (foldM_inv (Forall item_row_shape)); [| |exact H]; [|constructor].
  intros s x s' _. apply item_record_shape.
Qed.

Lemma adaptItemsStats_row_shape_witness :
  Forall item_row_shape
    [ [("date", VStr "2024-01-01"); ("views", VNum 1); ("clicks", VNull);
       ("contacts", VNum 0); ("calls", VNum 0); ("sales", VNum 0)] ].
Proof.
  exact (adaptItemsStats_row_shape SeriesExample.dates_only _ eq_refl).
Defined.

(** X3: on a payload whose records all have a series that is a list
    without [null] entry (or no series), the item-stats adapter returns:
    each entry with a truthy [date], [day] or [dt] gives one row, the
    others none, and the rows follow the order of the records and, within
    a record, of its entries. *)
Theorem adaptItemsStats_clean (raw : value) :
  Forall (fun b => clean_series (series_of b)) (records_of raw) ->
  adaptItemsStats raw
  = Ok (flat_map (fun b => flat_map rows_of_entry (elements (series_of b)))
                 (records_of raw)).
Proof.
  rewrite adaptItemsStats_records.
  generalize (records_of raw). intros bs Hbs.
  assert (H : forall rows,
            foldM item_record bs rows
            = Ok (rows ++ flat_map (fun b => flat_map rows_of_entry
                                               (elements (series_of b))) bs)).
  { induction Hbs as [|b bs (xs & Hs & Hx) Hbs IH]; intros rows; simpl.
    - now rewrite app_nil_r.
    - rewrite item_record_closed, Hs. cbn [JS.iterate bind elements].
      rewrite Hx. cbn [bind]. rewrite IH. now rewrite <- app_assoc. }
  apply (H []).
Qed.

Lemma adaptItemsStats_clean_witness :
  adaptItemsStats SeriesExample.dates_only
  = Ok (flat_map (fun b => flat_map rows_of_entry (elements (series_of b)))
                 (records_of SeriesExample.dates_only)).
Proof.
  refine (adaptItemsStats_clean SeriesExample.dates_only _).
  repeat constructor. eexists. split; reflexivity.
Defined.

Lemma foldM_throws {A S : Type} (P : error -> Prop) (f : S -> A -> result S) l :
  (forall s x e, f s x = Throw e -> P e) ->
  forall s e, foldM f l s = Throw e -> P e.
Proof.
  intros Hf. induction l as [|x l IH]; simpl; intros s e H; [discriminate|].
  destruct (f s x) as [s1|e1] eqn:E; cbn [bind] in H.
  - eapply IH; exact H.
  - injection H as <-. eapply Hf; exact E.
Qed.

Lemma item_record_walkable rows b :
  item_record rows b
  = if walkable (series_of b)
    then Ok (rows ++ flat_map rows_of_entry (elements (series_of b)))
    else Throw TypeError.
Proof.
  rewrite item_record_closed.
  destruct (series_of b) as [| | | | |s|xs|]; cbn [JS.iterate bind walkable elements];
    try reflexivity.
  now rewrite chars_not_null, chars_no_rows.
Qed.

Lemma item_records_throw bs : forall rows,
  (exists e, foldM item_record bs rows = Throw e) <->
  exists b, In b bs /\ walkable (series_of b) = false.
Proof.
  induction bs as [|b bs IH]; intros rows; simpl.
  - split; [intros [e H]; discriminate | intros (b & [] & _)].
  - rewrite item_record_walkable.
    destruct (walkable (series_of b)) eqn:E; cbn [bind].
    + rewrite IH. split.
      * intros (b' & Hin & Hb). eauto.
      * intros (b' & [<-|Hin] & Hb); [congruence | eauto].
    + split; eauto.
Qed.

Lemma adaptItemsStats_error raw e :
  adaptItemsStats raw = Throw e -> e = TypeError.
Proof.
  unfold adaptItemsStats.
  apply (foldM_throws (fun e => e = TypeError)).
  intros s x e'. rewrite item_record_walkable.
  destruct (walkable (series_of x)); congruence.
Qed.

(** X4: the item-stats adapter throws exactly when the series of some
    record is neither a list nor a string (a number, [true], an object) or
    is a list with a [null] entry; what it throws is a type error. *)
Theorem adaptItemsStats_throws (raw : value) :
  (forall e, adaptItemsStats raw = Throw e -> e = TypeError) /\
  ((exists e, adaptItemsStats raw = Throw e) <->
   exists b, In b (records_of raw) /\ walkable (series_of b) = false).
Proof.
  split.
  - intros e. apply adaptItemsStats_error.
  - rewrite adaptItemsStats_records. apply item_records_throw.
Qed.

Lemma call_series its : forall rows,
  foldM call_entry its rows
  = if forallb (fun d => negb (JS.nullish d)) its
    then Ok (rows ++ flat_map pairs_of_entry its)
    else Throw TypeError.
Proof.
  induction its as [|it its IH]; intros rows; simpl.
  - now rewrite app_nil_r.
  - destruct (JS.nullish it) eqn:E; cbn [negb andb].
    + now rewrite (call_entry_null rows it E).
    + rewrite (call_entry_not_null rows it E). cbn [bind]. rewrite IH.
      unfold pairs_of_entry. now rewrite <- app_assoc.
Qed.

Lemma chars_no_pairs s : flat_map pairs_of_entry (JS.chars s) = [].
Proof. induction s; simpl; auto. Qed.

(** X5: the call-stats adapter reads its records from [result] when that
    is truthy (even an empty list) and from [data] otherwise, never from
    both.  On a list without [null] entry it returns one pair [{date,
    calls}] for each record with a truthy [date], [day] or [dt], in order,
    [calls] being the first of [calls], [success_calls], [total] that is
    neither [undefined] nor [null], or 0; on a string it returns no pair;
    on anything else, or on a list with a [null] entry, it throws a type
    error. *)
Theorem adaptCallsStats_closed (raw : value) :
  adaptCallsStats raw
  = if walkable (items_of raw)
    then Ok (flat_map pairs_of_entry (elements (items_of raw)))
    else Throw TypeError.
Proof.
  unfold adaptCallsStats. fold (items_of raw).
  destruct (items_of raw) as [| | | | |s|xs|];
    cbn [JS.iterate bind walkable elements]; try reflexivity.
  - rewrite call_series, chars_not_null, chars_no_pairs. reflexivity.
  - rewrite call_series. reflexivity.
Qed.

Lemma pairs_of_entry_shape it : Forall call_row_shape (pairs_of_entry it).
Proof.
  unfold pairs_of_entry. destruct (JS.truthy (date_of_entry it)) eqn:E; constructor;
    [|constructor].
  do 2 eexists. split; [reflexivity|]. split; [exact E|].
  apply field_of_entry_defined.
Qed.

(** X6: every pair of the call-stats adapter has the two fields [date] and
    [calls] and no other, with a truthy date and [calls] neither
    [undefined] nor [null]. *)
Theorem adaptCallsStats_row_shape (raw : value) (rows : list obj) :
  adaptCallsStats raw = Ok rows -> Forall call_row_shape rows.
Proof.
  unfold adaptCallsStats.
  destruct (JS.iterate _) as [its|]; cbn [bind]; [|discriminate].
  rewrite call_series.
  destruct (forallb _ its); [|discriminate]. intros [= <-].
  apply Forall_flat_map. apply List.Forall_forall. intros it _.
  apply pairs_of_entry_shape.
Qed.

Lemma adaptCallsStats_row_shape_witness :
  Forall call_row_shape [ [("date", VStr "2024-01-01"); ("calls", VNum 3)] ].
Proof.
  exact (adaptCallsStats_row_shape
           (VObj [("result", VArr [VObj [("date", VStr "2024-01-01");
                                         ("success_calls", VNum 3)]])])
           _ eq_refl).
Defined.

(** ** The merge by date, call pair by call pair *)

(** The rows of the output are the objects the map points to. *)
Lemma merge_out_rows rows calls out :
  merge rows calls = Ok out ->
  entries_dated (fst (merge_loop rows calls)) (snd (merge_loop rows calls)) ->
  forall row, In row out <->
    exists k j, In (k, j) (snd (merge_loop rows calls)) /\
                fst (merge_loop rows calls) !! j = Some row.
Proof.
  unfold merge. intros Hsort Hdated row.
  apply sort_perm in Hsort. split.
  - intros Hin. apply (Permutation_in _ (Permutation_sym Hsort)) in Hin.
    unfold map_rows, JMap.values in Hin.
    apply in_map_iff in Hin as (j & <- & Hj).
    apply in_map_iff in Hj as ([k j'] & <- & Hkj). simpl.
    destruct (Hdated k j' Hkj) as (t' & Ht' & _).
    exists k, j'. split; [exact Hkj|].
    now rewrite (list_lookup_total_correct _ _ _ Ht').
  - intros (k & j & Hkj & Hj). apply (Permutation_in _ Hsort).
    unfold map_rows, JMap.values. apply in_map_iff. exists j.
    split; [now apply list_lookup_total_correct|].
    apply in_map_iff. exists (k, j). auto.
Qed.

(** One turn of the loop, seen from the row a date finds: the pair is
    added to it when it carries the date, and the row is left alone
    otherwise. *)
Lemma merge_call_at (h : list obj) (m : date_map) d i t c :
  entries_dated h m ->
  JMap.get same_value_zero d m = Some i -> h !! i = Some t ->
  fst (merge_call (h, m) c) !! i
  = Some (if has_date d c then add_calls c t else t) /\
  JMap.get same_value_zero d (snd (merge_call (h, m) c)) = Some i.
Proof.
  intros Hdated Hget Ht. unfold merge_call, has_date.
  set (date := JS.lookup_prop "date" c).
  pose proof (lookup_lt_Some _ _ _ Ht) as Hlt.
  destruct (JMap.get same_value_zero date m) as [i'|] eqn:E; cbn [fst snd].
  - rewrite (set_existing _ _ _ E). split; [|exact Hget].
    destruct (same_value_zero date d) eqn:Ed.
    + apply svz_eq in Ed. subst d. rewrite E in Hget. injection Hget as ->.
      now rewrite list_lookup_alter_eq, Ht.
    + destruct (decide (i' = i)) as [->|Hne]; [|now rewrite list_lookup_alter_ne].
      exfalso.
      destruct (get_In _ _ _ E) as (k1 & Hk1 & Hs1).
      destruct (get_In _ _ _ Hget) as (k2 & Hk2 & Hs2).
      destruct (Hdated _ _ Hk1) as (t1 & Ht1 & Hd1).
      destruct (Hdated _ _ Hk2) as (t2 & Ht2 & Hd2).
      rewrite Ht1 in Ht2. injection Ht2 as <-. rewrite Hd1 in Hd2. subst k2.
      pose proof (svz_refl_of _ _ Hs2) as Hdd.
      apply svz_eq in Hs1, Hs2.
      assert (Heq : date = d) by congruence.
      rewrite Heq in Ed. congruence.
  - destruct (same_value_zero date d) eqn:Ed.
    + apply svz_eq in Ed. subst d. congruence.
    + split.
      * rewrite list_lookup_alter_ne by lia. now rewrite lookup_app_l.
      * rewrite get_set, Ed. exact Hget.
Qed.

(** The loop, seen from the row a date finds. *)
Lemma merge_calls_at d i calls : forall (h : list obj) (m : date_map) t,
  entries_dated h m ->
  JMap.get same_value_zero d m = Some i -> h !! i = Some t ->
  let st := fold_left merge_call calls (h, m) in
  fst st !! i = Some (apply_calls d calls t) /\
  JMap.get same_value_zero d (snd st) = Some i /\
  entries_dated (fst st) (snd st).
Proof.
  induction calls as [|c calls IH]; intros h m t Hdated Hget Ht.
  - simpl. auto.
  - destruct (merge_call_at h m d i t c Hdated Hget Ht) as [Ht' Hget'].
    pose proof (merge_call_dated c h m Hdated) as Hdated'.
    change (fold_left merge_call (c :: calls) (h, m))
      with (fold_left merge_call calls (merge_call (h, m) c)).
    change (apply_calls d (c :: calls) t)
      with (apply_calls d calls (if has_date d c then add_calls c t else t)).
    destruct (merge_call (h, m) c) as [h' m']. cbn [fst snd] in *.
    now apply IH.
Qed.

Lemma apply_calls_carries d calls : forall t, carries (apply_calls d calls t) t.
Proof.
  induction calls as [|c calls IH]; intros t k Hk; [reflexivity|].
  change (apply_calls d (c :: calls) t)
    with (apply_calls d calls (if has_date d c then add_calls c t else t)).
  rewrite IH by exact Hk.
  destruct (has_date d c); [now apply add_calls_other | reflexivity].
Qed.

Lemma add_calls_numeric c t :
  number_or_absent (JS.lookup_prop "calls" t) = true ->
  number_or_absent (JS.lookup_prop "calls" c) = true ->
  JS.lookup_prop "calls" (add_calls c t)
  = VNum (field_num "calls" t + field_num "calls" c).
Proof.
  intros Ht Hc. unfold add_calls. rewrite lookup_set_prop_eq.
  rewrite (or_zero _ Ht), (or_zero _ Hc). reflexivity.
Qed.

(** On numbers, adding the pairs adds their calls. *)
Lemma apply_calls_numeric d calls : forall t,
  number_or_absent (JS.lookup_prop "calls" t) = true ->
  Forall (fun c => number_or_absent (JS.lookup_prop "calls" c) = true) calls ->
  number_or_absent (JS.lookup_prop "calls" (apply_calls d calls t)) = true /\
  field_num "calls" (apply_calls d calls t)
  = field_num "calls" t + calls_for d calls.
Proof.
  induction calls as [|c calls IH]; intros t Ht Hcalls.
  - simpl. split; [exact Ht|]. unfold calls_for. simpl. lia.
  - inversion Hcalls as [|? ? Hc Hcalls']; subst.
    change (apply_calls d (c :: calls) t)
      with (apply_calls d calls (if has_date d c then add_calls c t else t)).
    unfold calls_for. cbn [List.filter].
    destruct (has_date d c) eqn:E.
    + destruct (IH (add_calls c t)) as [Hn Hv]; [|exact Hcalls'|].
      { now rewrite (add_calls_numeric c t Ht Hc). }
      split; [exact Hn|]. rewrite Hv. unfold calls_for. cbn [total fold_right].
      unfold field_num at 1. rewrite (add_calls_numeric c t Ht Hc).
      unfold total. lia.
    + now apply IH.
Qed.

(** The output row of a date that some item row carries. *)
Lemma merge_row_of_date rows calls out d last :
  merge rows calls = Ok out ->
  last_with_date d rows = Some last ->
  In (apply_calls d calls last) out /\
  has_date d (apply_calls d calls last) = true.
Proof.
  intros Hmerge Hlast.
  destruct (find_last_split _ _ _ Hlast) as (pre & post & -> & Hd & Hpost).
  assert (Hdated0 : entries_dated (pre ++ last :: post)
                      (map_of_rows 0 (pre ++ last :: post) [])).
  { apply (map_of_rows_dated (pre ++ last :: post) []). intros k j []. }
  destruct (merge_calls_at d (length pre) calls (pre ++ last :: post)
              (map_of_rows 0 (pre ++ last :: post) []) last Hdated0)
    as (Ht & Hget & Hdated).
  { now apply map_of_rows_last. }
  { now rewrite list_lookup_middle. }
  fold (merge_loop (pre ++ last :: post) calls) in Ht, Hget, Hdated.
  split.
  - apply (merge_out_rows _ _ _ Hmerge Hdated).
    destruct (get_In _ _ _ Hget) as (k & Hk & _). eauto.
  - unfold has_date in *.
    rewrite (apply_calls_carries d calls last "date"%string) by discriminate.
    exact Hd.
Qed.

(** ** The merge with sums of doubles *)

Lemma add_calls_exact c t :
  number_or_absent (JS.lookup_prop "calls" t) = true ->
  number_or_absent (JS.lookup_prop "calls" c) = true ->
  Z.abs (field_num "calls" t + field_num "calls" c) <= max_exact ->
  Dbl.add_calls c t = add_calls c t.
Proof.
  intros Ht Hc Hb. unfold Dbl.add_calls, add_calls.
  rewrite (or_zero _ Ht), (or_zero _ Hc).
  fold (field_num "calls" t) (field_num "calls" c).
  now rewrite (add_exact _ _ Hb).
Qed.

Lemma field_magnitude k t l : In t l -> Z.abs (field_num k t) <= magnitude k l.
Proof.
  induction l as [|r l IH]; simpl; [tauto|].
  pose proof (magnitude_nonneg k l).
  intros [->|Hin]; [lia|]. specialize (IH Hin). lia.
Qed.

Lemma magnitude_alter k (f : obj -> obj) d l : forall i,
  0 <= d ->
  (forall t, In t l -> Z.abs (field_num k (f t)) <= Z.abs (field_num k t) + d) ->
  magnitude k (alter f i l) <= magnitude k l + d.
Proof.
  induction l as [|r l IH]; intros i Hd Hf; [simpl; lia|].
  destruct i as [|i]; simpl.
  - specialize (Hf r (or_introl eq_refl)). lia.
  - specialize (IH i Hd (fun t Ht => Hf t (or_intror Ht))).
    change (list_alter f i l) with (alter f i l). lia.
Qed.

Lemma add_calls_magnitude c t :
  number_or_absent (JS.lookup_prop "calls" t) = true ->
  number_or_absent (JS.lookup_prop "calls" c) = true ->
  number_or_absent (JS.lookup_prop "calls" (add_calls c t)) = true /\
  Z.abs (field_num "calls" (add_calls c t))
  <= Z.abs (field_num "calls" t) + Z.abs (field_num "calls" c).
Proof.
  intros Ht Hc. unfold field_num at 1.
  rewrite (add_calls_numeric c t Ht Hc). split; [reflexivity | lia].
Qed.

(** One turn of the loop of the merge: the rows keep numbers for calls, and
    their magnitudes grow by that of the pair at most. *)
Lemma merge_call_magnitude (h : list obj) (m : date_map) c :
  Forall (fun r => number_or_absent (JS.lookup_prop "calls" r) = true) h ->
  number_or_absent (JS.lookup_prop "calls" c) = true ->
  Forall (fun r => number_or_absent (JS.lookup_prop "calls" r) = true)
         (fst (merge_call (h, m) c)) /\
  magnitude "calls" (fst (merge_call (h, m) c))
  <= magnitude "calls" h + Z.abs (field_num "calls" c).
Proof.
  intros Hh Hc. unfold merge_call.
  set (date := JS.lookup_prop "date" c).
  assert (Hgen : forall (h0 : list obj) i,
            Forall (fun r => number_or_absent (JS.lookup_prop "calls" r) = true) h0 ->
            magnitude "calls" h0 = magnitude "calls" h ->
            Forall (fun r => number_or_absent (JS.lookup_prop "calls" r) = true)
                   (alter (add_calls c) i h0) /\
            magnitude "calls" (alter (add_calls c) i h0)
            <= magnitude "calls" h + Z.abs (field_num "calls" c)).
  { intros h0 i Hh0 Hm0. split.
    - apply Forall_alter; [exact Hh0|]. intros t _ Ht.
      exact (proj1 (add_calls_magnitude c t Ht Hc)).
    - rewrite <- Hm0. apply magnitude_alter; [lia|].
      intros t Ht. rewrite List.Forall_forall in Hh0.
      exact (proj2 (add_calls_magnitude c t (Hh0 t Ht) Hc)). }
  destruct (JMap.get same_value_zero date m) as [i|]; cbn [fst].
  - now apply Hgen.
  - apply Hgen.
    + apply Forall_app. split; [exact Hh|]. repeat constructor.
    + rewrite magnitude_app.
      change (magnitude "calls" [[("date"%string, date)]]) with 0. lia.
Qed.

Lemma merge_call_exact (h : list obj) (m : date_map) c :
  Forall (fun r => number_or_absent (JS.lookup_prop "calls" r) = true) h ->
  number_or_absent (JS.lookup_prop "calls" c) = true ->
  magnitude "calls" h + Z.abs (field_num "calls" c) <= max_exact ->
  Dbl.merge_call (h, m) c = merge_call (h, m) c.
Proof.
  intros Hh Hc Hb. unfold Dbl.merge_call, merge_call.
  set (date := JS.lookup_prop "date" c).
  assert (Hgen : forall (h0 : list obj) i,
            Forall (fun r => number_or_absent (JS.lookup_prop "calls" r) = true) h0 ->
            magnitude "calls" h0 = magnitude "calls" h ->
            alter (Dbl.add_calls c) i h0 = alter (add_calls c) i h0).
  { intros h0 i Hh0 Hm0. apply list_alter_ext; [|reflexivity].
    intros t Ht. apply list_elem_of_lookup_2, list_elem_of_In in Ht.
    rewrite List.Forall_forall in Hh0.
    apply add_calls_exact; [now apply Hh0 | exact Hc|].
    pose proof (field_magnitude "calls" t h0 Ht). lia. }
  destruct (JMap.get same_value_zero date m) as [i|].
  - now rewrite Hgen.
  - rewrite Hgen; [reflexivity| |].
    + apply Forall_app. split; [exact Hh|]. repeat constructor.
    + rewrite magnitude_app.
      change (magnitude "calls" [[("date"%string, date)]]) with 0. lia.
Qed.

Lemma merge_calls_exact calls : forall (h : list obj) (m : date_map),
  Forall (fun r => number_or_absent (JS.lookup_prop "calls" r) = true) h ->
  Forall (fun c => number_or_absent (JS.lookup_prop "calls" c) = true) calls ->
  magnitude "calls" h + magnitude "calls" calls <= max_exact ->
  fold_left Dbl.merge_call calls (h, m) = fold_left merge_call calls (h, m).
Proof.
  induction calls as [|c calls IH]; intros h m Hh Hcalls Hb; [reflexivity|].
  inversion Hcalls as [|? ? Hc Hcalls']; subst.
  change (fold_left Dbl.merge_call (c :: calls) (h, m))
    with (fold_left Dbl.merge_call calls (Dbl.merge_call (h, m) c)).
  change (fold_left merge_call (c :: calls) (h, m))
    with (fold_left merge_call calls (merge_call (h, m) c)).
  simpl in Hb. pose proof (magnitude_nonneg "calls" calls).
  rewrite (merge_call_exact h m c Hh Hc) by lia.
  destruct (merge_call_magnitude h m c Hh Hc) as [Hh' Hm'].
  destruct (merge_call (h, m) c) as [h' m']. cbn [fst] in *.
  apply IH; [exact Hh' | exact Hcalls' | lia].
Qed.

(** When the calls of the rows and of the pairs are numbers (or missing)
    whose magnitudes add up to 2^53 at most, the merge with sums of doubles
    returns what it returns with sums of integers. *)
Lemma merge_exact rows calls :
  Forall (fun r => number_or_absent (JS.lookup_prop "calls" r) = true) rows ->
  Forall (fun c => number_or_absent (JS.lookup_prop "calls" c) = true) calls ->
  within_exact "calls" (rows ++ calls) = true ->
  Dbl.merge rows calls = merge rows calls.
Proof.
  intros Hrows Hcalls Hb. unfold Dbl.merge, merge, Dbl.merge_loop, merge_loop.
  rewrite merge_calls_exact; [reflexivity|exact Hrows|exact Hcalls|].
  unfold within_exact in Hb. apply Z.leb_le in Hb.
  now rewrite magnitude_app in Hb.
Qed.

Lemma last_with_date_In d rows last :
  last_with_date d rows = Some last -> In last rows.
Proof.
  unfold last_with_date. intros H. apply List.find_some in H as [H _].
  now apply in_rev.
Qed.

(** X7: the merge adds the calls of the call pairs to the row of their
    date.  When the calls of the item rows and of the pairs are numbers
    (or missing) whose magnitudes add up to 2^53 at most, the merge, adding
    doubles, gives for a date that some item row carries the last such
    item row with the pairs of that date added in their order, and its
    calls are those of the item row plus the sum of the calls of these
    pairs. *)
Theorem merge_adds_calls (rows calls out : list obj) (d : value) (last : obj) :
  Dbl.merge rows calls = Ok out ->
  last_with_date d rows = Some last ->
  Forall (fun r => number_or_absent (JS.lookup_prop "calls" r) = true) rows ->
  Forall (fun c => number_or_absent (JS.lookup_prop "calls" c) = true) calls ->
  within_exact "calls" (rows ++ calls) = true ->
  In (apply_calls d calls last) out /\
  has_date d (apply_calls d calls last) = true /\
  field_num "calls" (apply_calls d calls last)
  = field_num "calls" last + calls_for d calls.
Proof.
  intros Hmerge Hlast Hrows Hcalls Hb.
  rewrite (merge_exact rows calls Hrows Hcalls Hb) in Hmerge.
  destruct (merge_row_of_date rows calls out d last Hmerge Hlast) as [Hin Hd].
  split; [exact Hin|]. split; [exact Hd|].
  apply apply_calls_numeric; [|exact Hcalls].
  rewrite List.Forall_forall in Hrows. apply Hrows.
  now apply (last_with_date_In d).
Qed.

Lemma merge_adds_calls_witness :
  In (apply_calls (VStr "2024-01-01") Example.call_pairs
        [("date", VStr "2024-01-01"); ("views", VNum 10); ("contacts", VNum 2)])
     [ [("date", VStr "2024-01-01"); ("views", VNum 10); ("contacts", VNum 2);
        ("calls", VNum 3)];
       [("date", VStr "2024-01-02"); ("views", VNum 5); ("contacts", VNum 1)] ].
Proof.
  refine (proj1 (merge_adds_calls Example.item_rows Example.call_pairs _
                   (VStr "2024-01-01") _ _ _ _ _ _));
    [vm_compute; reflexivity | reflexivity | repeat constructor
    | repeat constructor | vm_compute; reflexivity].
Defined.

Lemma calls_for_perm d calls calls' :
  Permutation calls calls' -> calls_for d calls = calls_for d calls'.
Proof.
  intros H. unfold calls_for. apply total_perm.
  induction H; simpl.
  - constructor.
  - destruct (has_date d x); [now constructor | assumption].
  - destruct (has_date d x), (has_date d y); try apply Permutation_refl.
    apply perm_swap.
  - eapply Permutation_trans; eassumption.
Qed.

(** X8: the calls of a merged row do not depend on the order of the call
    pairs, when the calls of the item rows and of the pairs are numbers (or
    missing) whose magnitudes add up to 2^53 at most: the merge, adding
    doubles, of the same pairs in another order gives, for a date that some
    item row carries, a row with the same calls, the other fields being
    those of the item row in both. *)
Theorem merge_calls_order (rows calls calls' out out' : list obj) (d : value)
    (last : obj) :
  Permutation calls calls' ->
  Dbl.merge rows calls = Ok out ->
  Dbl.merge rows calls' = Ok out' ->
  last_with_date d rows = Some last ->
  Forall (fun r => number_or_absent (JS.lookup_prop "calls" r) = true) rows ->
  Forall (fun c => number_or_absent (JS.lookup_prop "calls" c) = true) calls ->
  within_exact "calls" (rows ++ calls) = true ->
  exists row row',
    In row out /\ In row' out' /\
    has_date d row = true /\ has_date d row' = true /\
    carries row last /\ carries row' last /\
    field_num "calls" row = field_num "calls" row'.
Proof.
  intros Hperm Hm Hm' Hlast Hrows Hcalls Hb.
  assert (Hcalls' : Forall (fun c => number_or_absent (JS.lookup_prop "calls" c) = true)
                      calls').
  { eapply Permutation_Forall; eassumption. }
  assert (Hb' : within_exact "calls" (rows ++ calls') = true).
  { unfold within_exact in *.
    now rewrite <- (magnitude_perm "calls" _ _ (Permutation_app_head rows Hperm)). }
  rewrite (merge_exact rows calls Hrows Hcalls Hb) in Hm.
  rewrite (merge_exact rows calls' Hrows Hcalls' Hb') in Hm'.
  assert (Hn : number_or_absent (JS.lookup_prop "calls" last) = true).
  { rewrite List.Forall_forall in Hrows. apply Hrows.
    now apply (last_with_date_In d). }
  destruct (merge_row_of_date rows calls out d last Hm Hlast) as [Hin Hd].
  destruct (merge_row_of_date rows calls' out' d last Hm' Hlast) as [Hin' Hd'].
  exists (apply_calls d calls last), (apply_calls d calls' last).
  repeat split; auto using apply_calls_carries.
  destruct (apply_calls_numeric d calls last Hn Hcalls) as [_ ->].
  destruct (apply_calls_numeric d calls' last Hn Hcalls') as [_ ->].
  now rewrite (calls_for_perm d calls calls' Hperm).
Qed.

Lemma merge_calls_order_witness :
  exists row row',
    In row [ [("date", VStr "d"); ("calls", VNum 6)] ] /\
    In row' [ [("date", VStr "d"); ("calls", VNum 6)] ] /\
    has_date (VStr "d") row = true /\ has_date (VStr "d") row' = true /\
    carries row [("date", VStr "d"); ("calls", VNum 1)] /\
    carries row' [("date", VStr "d"); ("calls", VNum 1)] /\
    field_num "calls" row = field_num "calls" row'.
Proof.
  refine (merge_calls_order
            [ [("date", VStr "d"); ("calls", VNum 1)] ]
            [ [("date", VStr "d"); ("calls", VNum 3)];
              [("date", VStr "d"); ("calls", VNum 2)] ]
            [ [("date", VStr "d"); ("calls", VNum 2)];
              [("date", VStr "d"); ("calls", VNum 3)] ]
            _ _ (VStr "d") _ (perm_swap _ _ _) _ _ _ _ _ _);
    [vm_compute; reflexivity | vm_compute; reflexivity | reflexivity
    | repeat constructor | repeat constructor | vm_compute; reflexivity].
Defined.

Lemma has_date_eq d c : has_date d c = true -> JS.lookup_prop "date" c = d.
Proof. unfold has_date. apply svz_eq. Qed.

(** Pairs of other dates leave a date that has no row without a row. *)
Lemma merge_calls_absent d calls : forall (h : list obj) (m : date_map),
  Forall (fun c => has_date d c = false) calls ->
  entries_dated h m ->
  JMap.get same_value_zero d m = None ->
  let st := fold_left merge_call calls (h, m) in
  JMap.get same_value_zero d (snd st) = None /\ entries_dated (fst st) (snd st).
Proof.
  induction calls as [|c calls IH]; intros h m Hcalls Hdated Hget.
  - simpl. auto.
  - inversion Hcalls as [|? ? Hc Hcalls']; subst.
    change (fold_left merge_call (c :: calls) (h, m))
      with (fold_left merge_call calls (merge_call (h, m) c)).
    pose proof (merge_call_dated c h m Hdated) as Hdated'.
    assert (Hget' : JMap.get same_value_zero d (snd (merge_call (h, m) c)) = None).
    { unfold merge_call.
      destruct (JMap.get same_value_zero (JS.lookup_prop "date" c) m) as [i|] eqn:E;
        cbn [snd].
      - now rewrite (set_existing _ _ _ E).
      - rewrite get_set. unfold has_date in Hc. now rewrite Hc. }
    destruct (merge_call (h, m) c) as [h' m']. cbn [fst snd] in *.
    now apply IH.
Qed.

(** The first pair of a date without a row makes its row. *)
Lemma merge_call_new (h : list obj) (m : date_map) d c :
  has_date d c = true ->
  JMap.get same_value_zero d m = None ->
  fst (merge_call (h, m) c) !! length h = Some (add_calls c [("date", d)]) /\
  JMap.get same_value_zero d (snd (merge_call (h, m) c)) = Some (length h).
Proof.
  intros Hc Hget. pose proof (has_date_eq d c Hc) as Hd.
  unfold merge_call. rewrite Hd, Hget. cbn [fst snd]. split.
  - rewrite list_lookup_alter_eq, list_lookup_middle; reflexivity.
  - rewrite get_set. unfold has_date in Hc. rewrite Hd in Hc. now rewrite Hc.
Qed.

Lemma apply_calls_app d l1 l2 t :
  apply_calls d (l1 ++ l2) t = apply_calls d l2 (apply_calls d l1 t).
Proof. unfold apply_calls. apply fold_left_app. Qed.

Lemma apply_calls_none d calls t :
  Forall (fun c => has_date d c = false) calls -> apply_calls d calls t = t.
Proof.
  induction 1 as [|c calls Hc _ IH]; [reflexivity|].
  change (apply_calls d (c :: calls) t)
    with (apply_calls d calls (if has_date d c then add_calls c t else t)).
  now rewrite Hc.
Qed.

Lemma first_with_split {A} (f : A -> bool) l :
  Exists (fun x => f x = true) l ->
  exists pre x post, l = pre ++ x :: post /\ f x = true /\
                     Forall (fun y => f y = false) pre.
Proof.
  induction l as [|y l IH]; intros H; [inversion H|].
  destruct (f y) eqn:E.
  - exists [], y, l. repeat split; auto.
  - inversion H as [? ? Hy|? ? Hl]; subst; [congruence|].
    destruct (IH Hl) as (pre & x & post & -> & Hx & Hpre).
    exists (y :: pre), x, post. repeat split; auto.
Qed.

(** The partial row of a date, with numbers for calls. *)
Lemma apply_calls_partial d calls : forall v,
  Forall (fun c => number_or_absent (JS.lookup_prop "calls" c) = true) calls ->
  apply_calls d calls [("date", d); ("calls", VNum v)]
  = [("date", d); ("calls", VNum (v + calls_for d calls))].
Proof.
  induction calls as [|c calls IH]; intros v Hcalls.
  - unfold calls_for. simpl. now rewrite Z.add_0_r.
  - inversion Hcalls as [|? ? Hc Hcalls']; subst.
    change (apply_calls d (c :: calls) [("date", d); ("calls", VNum v)])
      with (apply_calls d calls (if has_date d c
                                 then add_calls c [("date", d); ("calls", VNum v)]
                                 else [("date", d); ("calls", VNum v)])).
    unfold calls_for. cbn [List.filter].
    destruct (has_date d c) eqn:E.
    + assert (Hadd : add_calls c [("date", d); ("calls", VNum v)]
                     = [("date", d); ("calls", VNum (v + field_num "calls" c))]).
      { unfold add_calls. rewrite (or_zero _ Hc).
        change (JS.lookup_prop "calls" [("date", d); ("calls", VNum v)]) with (VNum v).
        rewrite (or_zero (VNum v) eq_refl). reflexivity. }
      rewrite Hadd, (IH _ Hcalls'). unfold calls_for, total. cbn [fold_right].
      do 4 f_equal. lia.
    + now rewrite (IH _ Hcalls').
Qed.

(** The output row of a date that only call pairs carry. *)
Lemma merge_row_of_call_date rows calls out d :
  merge rows calls = Ok out ->
  Forall (fun r => has_date d r = false) rows ->
  Exists (fun c => has_date d c = true) calls ->
  In (apply_calls d calls [("date", d)]) out /\
  (Forall (fun c => number_or_absent (JS.lookup_prop "calls" c) = true) calls ->
   apply_calls d calls [("date", d)]
   = [("date", d); ("calls", VNum (calls_for d calls))]).
Proof.
  intros Hmerge Hrows Hex.
  destruct (first_with_split _ _ Hex) as (pre & c & post & -> & Hc & Hpre).
  assert (Hdated0 : entries_dated rows (map_of_rows 0 rows [])).
  { apply (map_of_rows_dated rows []). intros k j []. }
  assert (Hget0 : JMap.get same_value_zero d (map_of_rows 0 rows []) = None).
  { now rewrite (map_of_rows_absent d rows 0 [] Hrows). }
  destruct (merge_calls_absent d pre rows _ Hpre Hdated0 Hget0) as [Hget1 Hdated1].
  pose proof Hmerge as Hmerge'.
  unfold merge, merge_loop in Hmerge. rewrite fold_left_app in Hmerge.
  cbn [fold_left] in Hmerge.
  destruct (fold_left merge_call pre (rows, map_of_rows 0 rows [])) as [h1 m1] eqn:E1.
  cbn [fst snd] in *.
  destruct (merge_call_new h1 m1 d c Hc Hget1) as [Ht2 Hget2].
  pose proof (merge_call_dated c h1 m1 Hdated1) as Hdated2.
  destruct (merge_call (h1, m1) c) as [h2 m2] eqn:E2. cbn [fst snd] in *.
  destruct (merge_calls_at d (length h1) post h2 m2 _ Hdated2 Hget2 Ht2)
    as (Ht3 & Hget3 & Hdated3).
  assert (Hloop : merge_loop rows (pre ++ c :: post)
                  = fold_left merge_call post (h2, m2)).
  { unfold merge_loop. rewrite fold_left_app, E1. cbn [fold_left]. now rewrite E2. }
  assert (Hrow : apply_calls d (pre ++ c :: post) [("date", d)]
                 = apply_calls d post (add_calls c [("date", d)])).
  { rewrite apply_calls_app, (apply_calls_none d pre _ Hpre).
    change (apply_calls d (c :: post) [("date", d)])
      with (apply_calls d post (if has_date d c then add_calls c [("date", d)]
                                else [("date", d)])).
    now rewrite Hc. }
  split.
  - rewrite Hrow. rewrite <- Hloop in Ht3, Hget3, Hdated3.
    apply (merge_out_rows _ _ _ Hmerge' Hdated3).
    destruct (get_In _ _ _ Hget3) as (k & Hk & _). eauto.
  - intros Hnum. rewrite Hrow.
    apply Forall_app in Hnum as [Hnpre Hnum].
    inversion Hnum as [|? ? Hnc Hnpost]; subst.
    assert (Hadd : add_calls c [("date", d)]
                   = [("date", d); ("calls", VNum (field_num "calls" c))]).
    { unfold add_calls. rewrite (or_zero _ Hnc). reflexivity. }
    rewrite Hadd, (apply_calls_partial d post _ Hnpost).
    do 4 f_equal. unfold calls_for. rewrite List.filter_app.
    rewrite (filter_none _ pre) by (now apply List.Forall_forall).
    cbn [app List.filter]. rewrite Hc. unfold total. cbn [fold_right]. lia.
Qed.

(** X9: a date that only call pairs carry gets a row of its own, made of
    that date and of the calls alone: when the calls of the item rows and
    of the pairs are numbers (or missing) whose magnitudes add up to 2^53
    at most, the output of the merge, adding doubles, holds the row
    [{date, calls}], the calls being the sum of the calls of the pairs of
    the date; it has no [views] and no [contacts]. *)
Theorem merge_call_only_date (rows calls out : list obj) (d : value) :
  Dbl.merge rows calls = Ok out ->
  Forall (fun r => has_date d r = false) rows ->
  Exists (fun c => has_date d c = true) calls ->
  Forall (fun r => number_or_absent (JS.lookup_prop "calls" r) = true) rows ->
  Forall (fun c => number_or_absent (JS.lookup_prop "calls" c) = true) calls ->
  within_exact "calls" (rows ++ calls) = true ->
  In [("date", d); ("calls", VNum (calls_for d calls))] out.
Proof.
  intros Hmerge Hrows Hex Hnrows Hnum Hb.
  rewrite (merge_exact rows calls Hnrows Hnum Hb) in Hmerge.
  destruct (merge_row_of_call_date rows calls out d Hmerge Hrows Hex) as [Hin Hrow].
  now rewrite <- (Hrow Hnum).
Qed.

Lemma merge_call_only_date_witness :
  In [("date", VStr "2024-01-05");
      ("calls", VNum (calls_for (VStr "2024-01-05")
                        [ [("date", VStr "2024-01-05"); ("calls", VNum 4)] ]))]
     [ [("date", VStr "2024-01-01"); ("views", VNum 10); ("contacts", VNum 2)];
       [("date", VStr "2024-01-02"); ("views", VNum 5); ("contacts", VNum 1)];
       [("date", VStr "2024-01-05"); ("calls", VNum 4)] ].
Proof.
  refine (merge_call_only_date Example.item_rows
            [ [("date", VStr "2024-01-05"); ("calls", VNum 4)] ] _
            (VStr "2024-01-05") _ _ _ _ _ _).
  - vm_compute. reflexivity.
  - repeat constructor.
  - constructor. reflexivity.
  - repeat constructor.
  - repeat constructor.
  - vm_compute. reflexivity.
Defined.

Lemma string_keys_set k i (m : date_map) :
  string_keys m -> (exists s, k = VStr s) ->
  string_keys (JMap.set same_value_zero k i m).
Proof.
  unfold string_keys. intros Hm Hk.
  induction m as [|[k' v'] m IH]; simpl.
  - constructor; [exact Hk|constructor].
  - inversion Hm; subst. destruct (same_value_zero k' k); constructor; auto.
Qed.

Lemma map_of_rows_string_keys rows : forall i0 (m0 : date_map),
  Forall has_string_date rows -> string_keys m0 ->
  string_keys (map_of_rows i0 rows m0).
Proof.
  induction rows as [|r rows IH]; intros i0 m0 Hrows Hm; simpl; [exact Hm|].
  inversion Hrows as [|? ? Hr Hrows']; subst.
  apply IH; [exact Hrows'|]. now apply string_keys_set.
Qed.

Lemma merge_call_string_keys (h : list obj) (m : date_map) c :
  has_string_date c -> string_keys m -> string_keys (snd (merge_call (h, m) c)).
Proof.
  intros Hc Hm. unfold merge_call.
  destruct (JMap.get same_value_zero _ m); cbn [snd]; now apply string_keys_set.
Qed.

Lemma merge_calls_invariants calls : forall (h : list obj) (m : date_map),
  Forall has_string_date calls ->
  keys_distinct m /\ entries_dated h m /\ string_keys m ->
  let st := fold_left merge_call calls (h, m) in
  keys_distinct (snd st) /\ entries_dated (fst st) (snd st) /\ string_keys (snd st).
Proof.
  induction calls as [|c calls IH]; intros h m Hcalls H; [exact H|].
  inversion Hcalls as [|? ? Hc Hcalls']; subst.
  change (fold_left merge_call (c :: calls) (h, m))
    with (fold_left merge_call calls (merge_call (h, m) c)).
  destruct H as (Hd & He & Hs).
  pose proof (merge_call_distinct c h m Hd) as Hd'.
  pose proof (merge_call_dated c h m He) as He'.
  pose proof (merge_call_string_keys h m c Hc Hs) as Hs'.
  destruct (merge_call (h, m) c) as [h' m']. apply IH; auto.
Qed.

Lemma merge_loop_invariants rows calls :
  Forall has_string_date rows -> Forall has_string_date calls ->
  let st := merge_loop rows calls in
  keys_distinct (snd st) /\ entries_dated (fst st) (snd st) /\ string_keys (snd st).
Proof.
  intros Hrows Hcalls. unfold merge_loop.
  apply merge_calls_invariants; [exact Hcalls|].
  split; [apply map_of_rows_distinct; exact I|]. split.
  - apply (map_of_rows_dated rows []). intros k j [].
  - apply map_of_rows_string_keys; [exact Hrows|constructor].
Qed.

Lemma string_keys_NoDup (m : date_map) :
  keys_distinct m -> string_keys m ->
  NoDup (map (fun kv => JS.to_str (fst kv)) m).
Proof.
  induction m as [|[k v] m IH]; simpl; intros Hd Hs; [constructor|].
  destruct Hd as [Hall Hd]. inversion Hs as [|? ? [s Hk] Hs']; subst.
  simpl in Hk. subst k. constructor; [|now apply IH].
  intros Hin. apply list_elem_of_In, in_map_iff in Hin as ([k' v'] & E & Hin).
  rewrite List.Forall_forall in Hall, Hs'.
  specialize (Hall _ Hin). destruct (Hs' _ Hin) as [s' Hk']. simpl in *.
  subst k'. simpl in E. subst s'. simpl in Hall.
  rewrite String.eqb_refl in Hall. discriminate.
Qed.

(** With string dates the merge returns, its rows in the order of the
    comparator of the embedding, one row for each date. *)
Lemma merge_ascending rows calls :
  Forall has_string_date rows -> Forall has_string_date calls ->
  exists out, merge rows calls = Ok out /\ ascending out.
Proof.
  intros Hrows Hcalls.
  destruct (merge_loop_invariants rows calls Hrows Hcalls) as (Hd & He & Hs).
  set (st := merge_loop rows calls) in *.
  assert (Hrow : forall kv, In kv (snd st) ->
            JS.lookup_prop "date" (fst st !!! snd kv) = fst kv).
  { intros [k j] Hin. destruct (He k j Hin) as (t & Ht & Hk). simpl.
    now rewrite (list_lookup_total_correct _ _ _ Ht). }
  assert (Hdates : Forall has_string_date (map_rows st)).
  { unfold map_rows, JMap.values. rewrite map_map.
    apply List.Forall_map. apply List.Forall_forall. intros kv Hin.
    unfold string_keys in Hs. rewrite List.Forall_forall in Hs.
    destruct (Hs kv Hin) as [s Hk]. exists s. now rewrite (Hrow kv Hin). }
  assert (Hnd : NoDup (map date_key (map_rows st))).
  { unfold map_rows, JMap.values. rewrite !map_map.
    rewrite (map_ext_in _ (fun kv => JS.to_str (fst kv))).
    - now apply string_keys_NoDup.
    - intros kv Hin. unfold date_key. now rewrite (Hrow kv Hin). }
  unfold merge. fold st.
  destruct (sort_dated _ Hdates) as [out Hout].
  exists out. split; [exact Hout|].
  apply sorted_ascending.
  - now apply (sort_sorted _ _ Hdates).
  - apply sort_perm in Hout. now rewrite <- Hout.
Qed.

Lemma iso_string_date b : has_iso_date b -> has_string_date b.
Proof. intros (s & Hs & _). now exists s. Qed.

(** X10: when the dates of the item rows and of the call pairs are
    calendar dates [YYYY-MM-DD], the merge returns, and its rows are
    strictly ascending by date: one row for each date, in the order of the
    calendar. *)
Theorem merge_sorted (rows calls : list obj) :
  Forall has_iso_date rows -> Forall has_iso_date calls ->
  exists out, merge rows calls = Ok out /\ ascending out.
Proof.
  intros Hrows Hcalls. apply merge_ascending.
  - eapply List.Forall_impl; [|exact Hrows]. apply iso_string_date.
  - eapply List.Forall_impl; [|exact Hcalls]. apply iso_string_date.
Qed.

Lemma merge_sorted_witness :
  exists out, merge Example.item_rows Example.call_pairs = Ok out /\ ascending out.
Proof.
  refine (merge_sorted Example.item_rows Example.call_pairs _ _);
    repeat constructor; eexists; split; reflexivity.
Defined.

(** X11: without call pairs the merge changes no row: every row of its
    output is one of the item rows, as it was. *)
Theorem merge_without_calls (rows out : list obj) :
  merge rows [] = Ok out -> forall r, In r out -> In r rows.
Proof.
  intros Hmerge r Hin.
  assert (Hdated : entries_dated (fst (merge_loop rows []))
                                 (snd (merge_loop rows []))).
  { apply (map_of_rows_dated rows []). intros k j []. }
  apply (merge_out_rows _ _ _ Hmerge Hdated) in Hin as (k & j & _ & Hj).
  apply list_elem_of_In. eapply list_elem_of_lookup_2. exact Hj.
Qed.

Lemma merge_without_calls_witness :
  In DuplicateExample.second DuplicateExample.rows.
Proof.
  exact (merge_without_calls DuplicateExample.rows [DuplicateExample.second]
           eq_refl DuplicateExample.second (or_introl eq_refl)).
Defined.

(** ** [groupByPeriod], period by period *)

Lemma foldM_ext {A S : Type} (f g : S -> A -> result S) l :
  (forall s x, In x l -> f s x = g s x) ->
  forall s, foldM f l s = foldM g l s.
Proof.
  induction l as [|x l IH]; simpl; intros H s; [reflexivity|].
  rewrite (H s x) by auto. destruct (g s x); cbn [bind]; [|reflexivity].
  apply IH. auto.
Qed.

Lemma period_key_other period r :
  is_period period "week" = false -> is_period period "month" = false ->
  period_key period r = period_key (VStr "day") r.
Proof. intros Hw Hm. unfold period_key. now rewrite Hw, Hm. Qed.

Lemma is_period_ne period s : period <> VStr s -> is_period period s = false.
Proof.
  intros H. destruct period; try reflexivity. simpl.
  destruct (String.eqb_spec s0 s); [subst; contradiction | reflexivity].
Qed.

(** X12: a period that is neither "week" nor "month" groups by day:
    [undefined] (the default), "day", any other string and any value that
    is not a string give the result of "day". *)
Theorem groupByPeriod_other_period (rows : list obj) (p : value) :
  p <> VStr "week" -> p <> VStr "month" ->
  groupByPeriod rows p = groupByPeriod rows (VStr "day").
Proof.
  intros Hw Hm. unfold groupByPeriod. cbn [default_day].
  assert (Hw' : is_period (default_day p) "week" = false).
  { destruct p; try reflexivity; now apply is_period_ne. }
  assert (Hm' : is_period (default_day p) "month" = false).
  { destruct p; try reflexivity; now apply is_period_ne. }
  rewrite (foldM_ext (group_step (default_day p)) (group_step (VStr "day"))).
  - reflexivity.
  - intros s x _. unfold group_step.
    now rewrite (period_key_other (default_day p) x Hw' Hm').
Qed.

Lemma groupByPeriod_other_period_witness :
  groupByPeriod Example.item_rows (VStr "year")
  = groupByPeriod Example.item_rows (VStr "day").
Proof.
  refine (groupByPeriod_other_period Example.item_rows (VStr "year") _ _);
    discriminate.
Defined.

Lemma monday_offset n :
  let wd := Z.rem ((n + 4) mod 7 + 6) 7 in
  0 <= wd <= 6 /\ (n - wd + 4) mod 7 = 1.
Proof.
  cbv zeta.
  assert (H : 0 <= (n + 4) mod 7 < 7) by (apply Z.mod_pos_bound; lia).
  pose proof (Z.div_mod (n + 4) 7 ltac:(lia)) as E.
  remember ((n + 4) mod 7) as w eqn:Ew. remember ((n + 4) / 7) as q eqn:Eq.
  rewrite Z.rem_mod_nonneg by lia.
  assert (Hw : w = 0 \/ w = 1 \/ w = 2 \/ w = 3 \/ w = 4 \/ w = 5 \/ w = 6) by lia.
  assert (Hn : forall c k, n - c + 4 = 1 + k * 7 -> (n - c + 4) mod 7 = 1).
  { intros c k ->. now rewrite Z_mod_plus_full. }
  destruct Hw as [Hw|[Hw|[Hw|[Hw|[Hw|[Hw|Hw]]]]]]; rewrite Hw in *;
    match goal with
    | |- context [(?a + 6) mod 7] =>
        let v := eval vm_compute in ((a + 6) mod 7) in
        change ((a + 6) mod 7) with v
    end;
    (split; [lia|]);
    first [ apply (Hn _ (q - 1)); lia | apply (Hn _ q); lia ].
Qed.

(** X13: by week, the key of a row with a calendar date is the first ten
    characters of the ISO string of the Monday of its week: the day 0 to 6
    days before the date whose day of the week is 1. *)
Theorem week_key_is_monday (r : obj) (s : string) :
  JS.lookup_prop "date" r = VStr s -> iso_date s = true ->
  exists tv wd,
    Date.of_string (s +:+ "T00:00:00Z") = Date.At tv /\
    0 <= wd <= 6 /\
    Date.getUTCDay (Date.At (tv - wd * Date.msPerDay)) = VNum 1 /\
    period_key (VStr "week") r
    = (let* iso := Date.toISOString (Date.At (tv - wd * Date.msPerDay)) in
       Ok (JS.slice0 10 iso)).
Proof.
  intros Hr Hs.
  destruct (iso_date_inv s Hs)
    as (a & b & c & d & e & f & g & h & y & m & dd & -> & Hy & Hmo & Hd & Rm & Rd).
  pose proof (of_string_iso _ _ _ _ _ _ _ _ _ _ _ Hy Hmo Hd Rm Rd) as Hparse.
  destruct (num4_inv _ _ _ _ _ Hy) as (Ry & _ & _).
  pose proof (days_in_month_le y m) as Hle.
  set (n := Date.days_from_civil y m dd) in *.
  destruct (monday_offset n) as [Hwd Hmon].
  set (wd := Z.rem ((n + 4) mod 7 + 6) 7) in *.
  exists (n * Date.msPerDay), wd.
  assert (Htv : n * Date.msPerDay - wd * Date.msPerDay = (n - wd) * Date.msPerDay)
    by lia.
  split; [exact Hparse|]. split; [exact Hwd|]. split.
  - rewrite Htv. cbn [Date.getUTCDay]. unfold Date.WeekDay.
    now rewrite Day_days, Hmon.
  - unfold period_key. cbn [is_period]. change (String.eqb "week" "week") with true.
    cbv iota. rewrite (date_of_row r _ Hr), Hparse.
    cbn [Date.getUTCDay Date.getUTCDate].
    unfold Date.WeekDay, Date.DateFromTime. rewrite Day_days.
    unfold n at 2. rewrite (civil_roundtrip y m dd Rm Rd). cbn [snd].
    change (JS.add (VNum ((n + 4) mod 7)) (VNum 6)) with (VNum ((n + 4) mod 7 + 6)).
    change (JS.rem (VNum ((n + 4) mod 7 + 6)) (VNum 7)) with (VNum wd).
    change (JS.sub (VNum dd) (VNum wd)) with (VNum (dd - wd)).
    unfold Date.setUTCDate. change (JS.to_number (VNum (dd - wd))) with (VNum (dd - wd)).
    cbv iota. unfold Date.YearFromTime, Date.MonthFromTime.
    rewrite Day_days, TimeWithinDay_days. unfold n at 1 2.
    rewrite (civil_roundtrip y m dd Rm Rd). cbn [fst snd].
    rewrite (MakeDay_civil y m _ Rm).
    assert (Hday : Date.days_from_civil y m (dd - wd) = n - wd).
    { unfold n. rewrite (days_from_civil_day y m (dd - wd)),
                        (days_from_civil_day y m dd). lia. }
    rewrite Hday, TimeClip_days, Htv; [reflexivity|].
    rewrite <- Hday. apply days_from_civil_bounds; lia.
Qed.

Lemma week_key_is_monday_witness :
  exists tv wd,
    Date.of_string ("2024-01-03" +:+ "T00:00:00Z") = Date.At tv /\
    0 <= wd <= 6 /\
    Date.getUTCDay (Date.At (tv - wd * Date.msPerDay)) = VNum 1 /\
    period_key (VStr "week") [("date", VStr "2024-01-03")]
    = (let* iso := Date.toISOString (Date.At (tv - wd * Date.msPerDay)) in
       Ok (JS.slice0 10 iso)).
Proof.
  exact (week_key_is_monday [("date", VStr "2024-01-03")] "2024-01-03"
           eq_refl eq_refl).
Defined.

Lemma year_strings_ok :
  forallb (fun y => String.eqb (JS.string_of_Z y) (Date.pad_digits 4 y))
          (map (fun i => 1000 + i) (zrange (Z.to_nat 9000))) = true.
Proof. vm_compute. reflexivity. Qed.

Lemma year_string y :
  1000 <= y <= 9999 -> JS.string_of_Z y = Date.pad_digits 4 y.
Proof.
  intros H. pose proof year_strings_ok as E.
  rewrite forallb_forall in E. apply String.eqb_eq, E.
  apply in_map_iff. exists (y - 1000). split; [lia|]. apply In_zrange. lia.
Qed.

Lemma month_string m :
  1 <= m <= 12 ->
  JS.padStart 2 "0" (JS.string_of_Z (m - 1 + 1)) = Date.pad_digits 2 m.
Proof.
  intros H.
  assert (E : m = 1 \/ m = 2 \/ m = 3 \/ m = 4 \/ m = 5 \/ m = 6 \/ m = 7 \/
              m = 8 \/ m = 9 \/ m = 10 \/ m = 11 \/ m = 12) by lia.
  repeat destruct E as [E|E]; subst m; reflexivity.
Qed.

Lemma year_first_digit a b c d y :
  Date.num4 a b c d = Some y -> a <> "0"%char -> 1000 <= y <= 9999.
Proof.
  intros Hy Ha. destruct (num4_inv _ _ _ _ _ Hy) as (Ry & E & _).
  destruct (Z_lt_le_dec y 1000) as [Hlt|]; [exfalso|lia].
  cbn [Date.pad_digits String.append] in E. injection E as E _ _ _.
  apply Ha. rewrite <- E.
  replace (y / 10 / 10 / 10) with 0
    by (Z.to_euclidean_division_equations; lia).
  reflexivity.
Qed.

(** X14: by month, the key of a row with a calendar date of the years 1000
    to 9999 is the first day of its month: the first eight characters of
    the date followed by "01". *)
Theorem month_key_first_of_month (r : obj) (s : string) :
  JS.lookup_prop "date" r = VStr s -> iso_date s = true ->
  String.get 0 s <> Some "0"%char ->
  period_key (VStr "month") r = Ok (JS.slice0 8 s +:+ "01").
Proof.
  intros Hr Hs H0.
  destruct (iso_date_inv s Hs)
    as (a & b & c & d & e & f & g & h & y & m & dd & -> & Hy & Hmo & Hd & Rm & Rd).
  assert (Ha : a <> "0"%char) by (intros ->; now apply H0).
  pose proof (year_first_digit _ _ _ _ _ Hy Ha) as Ry.
  destruct (num4_inv _ _ _ _ _ Hy) as (_ & Ey & _).
  destruct (num2_inv _ _ _ Hmo) as (_ & Em & _).
  unfold period_key. cbn [is_period].
  change (String.eqb "month" "week") with false.
  change (String.eqb "month" "month") with true. cbv iota.
  rewrite (date_of_row r _ Hr), (of_string_iso _ _ _ _ _ _ _ _ _ _ _ Hy Hmo Hd Rm Rd).
  cbn [Date.getUTCFullYear Date.getUTCMonth].
  unfold Date.YearFromTime, Date.MonthFromTime.
  rewrite Day_days, (civil_roundtrip y m dd Rm Rd). cbn [fst snd].
  change (JS.add (VNum (m - 1)) (VNum 1)) with (VNum (m - 1 + 1)).
  cbn [JS.to_str]. rewrite (year_string y Ry), (month_string m Rm), Ey, Em.
  reflexivity.
Qed.

Lemma month_key_first_of_month_witness :
  period_key (VStr "month") [("date", VStr "2024-02-29"); ("views", VNum 3)]
  = Ok "2024-02-01".
Proof.
  refine (month_key_first_of_month
            [("date", VStr "2024-02-29"); ("views", VNum 3)] "2024-02-29" _ _ _);
    [reflexivity | vm_compute; reflexivity | discriminate].
Defined.

(** ** Rows whose date does not parse *)

Lemma period_key_throws period r e :
  period_key period r = Throw e -> e = RangeError.
Proof.
  unfold period_key. destruct (is_period period "week").
  - destruct (Date.setUTCDate _ _); simpl; congruence.
  - destruct (is_period period "month"); [discriminate|].
    destruct (Date.of_string _); simpl; congruence.
Qed.

Lemma period_key_invalid period r :
  Date.of_string
    (JS.to_str (JS.add (JS.lookup_prop "date" r) (VStr "T00:00:00Z")))
  = Date.Invalid ->
  period_key period r
  = if is_period period "week" then Throw RangeError
    else if is_period period "month" then Ok "NaN-NaN-01"
    else Throw RangeError.
Proof.
  intros H. unfold period_key. rewrite H.
  destruct (is_period period "week"); [reflexivity|].
  destruct (is_period period "month"); reflexivity.
Qed.

Lemma group_loop_stops period rows r :
  In r rows -> period_key period r = Throw RangeError ->
  forall m0, foldM (group_step period) rows m0 = Throw RangeError.
Proof.
  intros Hin Hkey. induction rows as [|x rows IH]; [destruct Hin|].
  intros m0. simpl. destruct Hin as [->|Hin].
  - unfold group_step at 1. now rewrite Hkey.
  - unfold group_step at 1.
    destruct (period_key period x) as [key|e] eqn:E; cbn [bind].
    + now apply IH.
    + now rewrite (period_key_throws _ _ _ E).
Qed.

Lemma group_loop_throws period rows : forall m0 e,
  foldM (group_step period) rows m0 = Throw e ->
  exists r, In r rows /\ period_key period r = Throw RangeError.
Proof.
  induction rows as [|x rows IH]; intros m0 e; simpl; [discriminate|].
  unfold group_step at 1.
  destruct (period_key period x) as [key|e'] eqn:E; cbn [bind].
  - intros H. destruct (IH _ _ H) as (r & Hr & Hk). exists r. auto.
  - intros _. exists x. rewrite (period_key_throws _ _ _ E) in E. auto.
Qed.

(** X15: a single row whose date does not parse makes [groupByPeriod]
    throw a RangeError for every period but "month", whatever the other
    rows; by month such a row has the key "NaN-NaN-01". *)
Theorem groupByPeriod_invalid_date (rows : list obj) (p : value) (r : obj) :
  In r rows ->
  Date.of_string
    (JS.to_str (JS.add (JS.lookup_prop "date" r) (VStr "T00:00:00Z")))
  = Date.Invalid ->
  p <> VStr "month" ->
  groupByPeriod rows p = Throw RangeError /\
  period_key (VStr "month") r = Ok "NaN-NaN-01".
Proof.
  intros Hin Hinv Hp. split.
  - unfold groupByPeriod.
    rewrite (group_loop_stops (default_day p) rows r Hin); [reflexivity|].
    rewrite (period_key_invalid _ r Hinv).
    destruct (is_period (default_day p) "week"); [reflexivity|].
    replace (is_period (default_day p) "month") with false; [reflexivity|].
    symmetry. destruct p; try reflexivity. now apply is_period_ne.
  - now rewrite (period_key_invalid _ r Hinv).
Qed.

Lemma groupByPeriod_invalid_date_witness :
  groupByPeriod [[("date", VStr "2024-01-01")]; [("views", VNum 1)]] (VStr "week")
  = Throw RangeError /\
  period_key (VStr "month") [("views", VNum 1)] = Ok "NaN-NaN-01".
Proof.
  refine (groupByPeriod_invalid_date
            [[("date", VStr "2024-01-01")]; [("views", VNum 1)]] (VStr "week")
            [("views", VNum 1)] _ _ _);
    [right; left; reflexivity | vm_compute; reflexivity | discriminate].
Defined.

(** ** The order of the rows *)

Lemma perm_filter {A} (f : A -> bool) l l' :
  Permutation l l' -> Permutation (List.filter f l) (List.filter f l').
Proof.
  induction 1 as [|x l l' _ IH|x y l|l l' l'' _ IH1 _ IH2]; simpl.
  - constructor.
  - destruct (f x); [now constructor | exact IH].
  - destruct (f x), (f y); try reflexivity. apply perm_swap.
  - now transitivity (List.filter f l').
Qed.

Lemma bucket_of_perm period rows rows' key :
  Permutation rows rows' ->
  bucket_of period rows key = bucket_of period rows' key.
Proof.
  intros H. unfold bucket_of.
  pose proof (perm_filter (in_bucket period key) _ _ H) as Hf.
  now rewrite !(fun k => total_perm k _ _ Hf).
Qed.

Lemma keys_of_perm period rows rows' :
  Permutation rows rows' ->
  Permutation (keys_of period rows) (keys_of period rows').
Proof.
  intros H. apply NoDup_Permutation; try apply keys_of_NoDup.
  intros k. rewrite !list_elem_of_In, !keys_of_In. split; intros (r & Hr & Hk); exists r; split;
    try assumption.
  - now apply (Permutation_in _ H).
  - now apply (Permutation_in _ (Permutation_sym H)).
Qed.

Lemma ascending_unique l : forall l',
  ascending l -> ascending l' -> Permutation l l' -> l = l'.
Proof.
  unfold ascending. induction l as [|x t IH]; intros l' Hl Hl' Hp.
  - now apply Permutation_nil in Hp.
  - destruct l' as [|y t'].
    { apply Permutation_sym, Permutation_nil in Hp. discriminate. }
    apply StronglySorted_inv in Hl as [Ht Hx].
    apply StronglySorted_inv in Hl' as [Ht' Hy].
    rewrite List.Forall_forall in Hx, Hy.
    assert (E : x = y).
    { pose proof (Permutation_in x Hp (or_introl eq_refl)) as [E|Hin];
        [now symmetry|].
      pose proof (Permutation_in y (Permutation_sym Hp) (or_introl eq_refl))
        as [E|Hin']; [assumption|].
      specialize (Hy _ Hin). specialize (Hx _ Hin').
      rewrite String.compare_antisym, Hy in Hx. discriminate. }
    subst y. f_equal. apply IH; try assumption.
    now apply Permutation_cons_inv in Hp.
Qed.

Lemma groupByPeriod_ascending rows period out :
  Forall (fun r => numeric_row r = true) rows ->
  groupByPeriod rows period = Ok out -> ascending out.
Proof.
  intros Hnum Hout.
  destruct (groupByPeriod_buckets rows period out Hnum Hout) as [Hperm Hsorted].
  apply sorted_ascending; [exact Hsorted|].
  rewrite <- Hperm, map_map. simpl. rewrite map_id. apply keys_of_NoDup.
Qed.

Lemma group_throws_row rows period e :
  Forall (fun r => numeric_row r = true) rows ->
  groupByPeriod rows period = Throw e ->
  exists r, In r rows /\ period_key (default_day period) r = Throw RangeError.
Proof.
  intros Hnum. unfold groupByPeriod.
  destruct (foldM _ rows []) as [m|e'] eqn:Hm; cbn [bind].
  - apply (group_loop_buckets _ rows m Hnum) in Hm. subst m.
    rewrite values_buckets_of. intros H.
    destruct (sort_dated (map (bucket_of (default_day period) rows)
                              (keys_of (default_day period) rows))) as [l Hl].
    { apply List.Forall_map, List.Forall_forall. intros k _. apply bucket_of_dated. }
    congruence.
  - intros _. now apply group_loop_throws in Hm.
Qed.

(** With sums of integers, the order of the rows does not matter. *)
Lemma groupByPeriod_perm (rows rows' : list obj) (p : value) :
  Forall (fun r => numeric_row r = true) rows ->
  Permutation rows rows' ->
  groupByPeriod rows p = groupByPeriod rows' p.
Proof.
  intros Hnum Hp.
  assert (Hnum' : Forall (fun r => numeric_row r = true) rows')
    by (now rewrite <- Hp).
  assert (Hthrow : forall l l' e,
            Forall (fun r => numeric_row r = true) l -> Permutation l l' ->
            groupByPeriod l p = Throw e ->
            groupByPeriod l p = Throw RangeError /\
            groupByPeriod l' p = Throw RangeError).
  { intros l l' e Hl Hll H.
    destruct (group_throws_row l p e Hl H) as (r & Hr & Hk).
    unfold groupByPeriod. split.
    - now rewrite (group_loop_stops _ l r Hr Hk).
    - rewrite (group_loop_stops _ l' r); [reflexivity| |exact Hk].
      now apply (Permutation_in _ Hll). }
  destruct (groupByPeriod rows p) as [out|e] eqn:E.
  - destruct (groupByPeriod rows' p) as [out'|e'] eqn:E'.
    + f_equal. apply ascending_unique.
      * now apply (groupByPeriod_ascending rows p).
      * now apply (groupByPeriod_ascending rows' p).
      * destruct (groupByPeriod_buckets rows p out Hnum E) as [H1 _].
        destruct (groupByPeriod_buckets rows' p out' Hnum' E') as [H2 _].
        rewrite <- H1, <- H2.
        rewrite (map_ext _ (bucket_of (default_day p) rows')
                   (fun k => bucket_of_perm _ rows rows' k Hp)).
        apply Permutation_map. now apply keys_of_perm.
    + destruct (Hthrow rows' rows e' Hnum' (Permutation_sym Hp) E') as [_ H].
      congruence.
  - destruct (Hthrow rows rows' e Hnum Hp E) as [H1 H2]. congruence.
Qed.

(** X16: the result of [groupByPeriod], adding doubles, does not depend
    on the order of the rows: on rows with numeric fields whose sums are
    within the exact range (for each field the magnitudes add up to 2^53
    at most), a permutation of the rows gives the same list of buckets, or
    the same error. *)
Theorem groupByPeriod_order (rows rows' : list obj) (p : value) :
  Forall (fun r => numeric_row r = true) rows ->
  exact_sums rows = true ->
  Permutation rows rows' ->
  Dbl.groupByPeriod rows p = Dbl.groupByPeriod rows' p.
Proof.
  intros Hnum Hb Hp.
  rewrite (groupByPeriod_exact rows p Hnum Hb).
  rewrite (groupByPeriod_exact rows' p).
  - now apply groupByPeriod_perm.
  - now rewrite <- Hp.
  - now rewrite <- (exact_sums_perm rows rows' Hp).
Qed.

Lemma groupByPeriod_order_witness :
  Dbl.groupByPeriod Example.item_rows (VStr "week")
  = Dbl.groupByPeriod (rev Example.item_rows) (VStr "week").
Proof.
  refine (groupByPeriod_order Example.item_rows (rev Example.item_rows)
            (VStr "week") _ _ _);
    [repeat constructor | vm_compute; reflexivity | apply Permutation_rev].
Defined.

(** X17: by day, the dates of the buckets are the dates of the rows: on
    canonical rows a date is the date of a bucket exactly when some row
    carries it. *)
Theorem day_buckets_dates (rows out : list obj) :
  Forall (fun r => canonical_row r = true) rows ->
  groupByPeriod rows (VStr "day") = Ok out ->
  forall s, In s (map date_key out) <->
            In (VStr s) (map (JS.lookup_prop "date") rows).
Proof.
  intros Hrows Hout s.
  assert (Hnum : Forall (fun r => numeric_row r = true) rows).
  { eapply List.Forall_impl; [|exact Hrows]. intros r Hr.
    now apply canonical_row_inv in Hr. }
  destruct (groupByPeriod_buckets rows (VStr "day") out Hnum Hout) as [Hperm _].
  cbn [default_day] in Hperm.
  assert (Hkeys : Permutation (keys_of (VStr "day") rows) (map date_key out)).
  { rewrite <- Hperm, map_map. simpl. now rewrite map_id. }
  rewrite List.Forall_forall in Hrows.
  assert (Hday : forall r, In r rows ->
            exists s', JS.lookup_prop "date" r = VStr s' /\
                       period_key (VStr "day") r = Ok s').
  { intros r Hr. destruct (canonical_row_inv r (Hrows r Hr)) as (_ & s' & Hs & Hiso).
    exists s'. split; [exact Hs|]. now apply period_key_day. }
  split.
  - intros Hin. apply (Permutation_in _ (Permutation_sym Hkeys)) in Hin.
    apply keys_of_In in Hin as (r & Hr & Hk).
    destruct (Hday r Hr) as (s' & Hs & Hk'). apply in_map_iff. exists r.
    split; [congruence | exact Hr].
  - intros Hin. apply in_map_iff in Hin as (r & Hs & Hr).
    apply (Permutation_in _ Hkeys). apply keys_of_In. exists r.
    split; [exact Hr|]. destruct (Hday r Hr) as (s' & Hs' & Hk'). congruence.
Qed.

Lemma day_buckets_dates_witness :
  In "2024-01-02"
     (map date_key
        [ [("date", VStr "2024-01-02"); ("views", VNum 2); ("clicks", VNum 0);
           ("contacts", VNum 0); ("calls", VNum 0); ("sales", VNum 0)] ]) <->
  In (VStr "2024-01-02")
     (map (JS.lookup_prop "date")
        [ [("date", VStr "2024-01-02"); ("views", VNum 1)];
          [("date", VStr "2024-01-02"); ("views", VNum 1)] ]).
Proof.
  refine (day_buckets_dates
            [ [("date", VStr "2024-01-02"); ("views", VNum 1)];
              [("date", VStr "2024-01-02"); ("views", VNum 1)] ] _ _ _
            "2024-01-02");
    [repeat constructor | vm_compute; reflexivity].
Defined.

(** ** [sum] *)

(** X18: on rows with numeric fields, the magnitudes of the field adding
    up to 2^53 at most, [sum(arr, k)], adding doubles, is the number that
    is the sum of the field over the rows, a field that is missing, [null]
    or [undefined] counting as 0; on no rows it is 0. *)
Theorem sum_is_total (rows : list obj) (k : string) :
  Forall (fun r => numeric_row r = true) rows -> In k numeric_fields ->
  within_exact k rows = true ->
  Dbl.sum rows k = VNum (total k rows).
Proof.
  intros Hnum Hk Hb. apply (dbl_sum_total rows k Hnum Hk). now apply Z.leb_le.
Qed.

Lemma sum_is_total_witness :
  Dbl.sum Example.item_rows "views" = VNum (total "views" Example.item_rows).
Proof.
  refine (sum_is_total Example.item_rows "views" _ _ _);
    [repeat constructor | left; reflexivity | vm_compute; reflexivity].
Defined.

Lemma bucket_numeric period rows key :
  numeric_row (bucket_of period rows key) = true.
Proof. reflexivity. Qed.

(** X19: grouping keeps the sums: on canonical rows whose field sums are
    within the exact range (for each numeric field the magnitudes add up
    to 2^53 at most), for every period and every numeric field, [sum] over
    the buckets of [groupByPeriod] is [sum] over the rows, both adding
    doubles. *)
Theorem sum_after_grouping (rows out : list obj) (p k : string) :
  Forall (fun r => canonical_row r = true) rows -> In k numeric_fields ->
  exact_sums rows = true ->
  Dbl.groupByPeriod rows (VStr p) = Ok out ->
  Dbl.sum out k = Dbl.sum rows k.
Proof.
  intros Hrows Hk Hb Hout.
  assert (Hnum : Forall (fun r => numeric_row r = true) rows).
  { eapply List.Forall_impl; [|exact Hrows]. intros r Hr.
    now apply canonical_row_inv in Hr. }
  rewrite (groupByPeriod_exact rows (VStr p) Hnum Hb) in Hout.
  destruct (groupByPeriod_buckets rows (VStr p) out Hnum Hout) as [Hperm _].
  cbn [default_day] in Hperm.
  assert (Hnum' : Forall (fun r => numeric_row r = true) out).
  { rewrite <- Hperm. apply List.Forall_map, List.Forall_forall.
    intros key _. apply bucket_numeric. }
  assert (Hmag : magnitude k rows <= max_exact).
  { now apply (proj1 (exact_sums_spec rows) Hb). }
  assert (Hmag' : magnitude k out <= max_exact).
  { rewrite <- (magnitude_perm k _ _ Hperm).
    pose proof (magnitude_buckets (VStr p) rows k _ Hk
                  (keys_of_NoDup (VStr p) rows)). lia. }
  rewrite (dbl_sum_total out k Hnum' Hk Hmag'), (dbl_sum_total rows k Hnum Hk Hmag).
  f_equal.
  rewrite <- (total_perm k _ _ Hperm), (total_buckets _ rows k _ Hk).
  apply partition_total; [apply keys_of_NoDup|].
  intros r Hr. rewrite List.Forall_forall in Hrows.
  destruct (canonical_row_inv r (Hrows r Hr)) as (_ & s & Hs & Hiso).
  destruct (period_key_total (VStr p) r s Hs Hiso) as [key Hkey].
  exists key. split; [exact Hkey|]. apply keys_of_In. eauto.
Qed.

Lemma sum_after_grouping_witness :
  Dbl.sum
    [ [("date", VStr "2024-01-01"); ("views", VNum 3); ("clicks", VNum 0);
       ("contacts", VNum 0); ("calls", VNum 0); ("sales", VNum 0)] ] "views"
  = Dbl.sum [ [("date", VStr "2024-01-02"); ("views", VNum 1)];
              [("date", VStr "2024-01-03"); ("views", VNum 2)] ] "views".
Proof.
  refine (sum_after_grouping
            [ [("date", VStr "2024-01-02"); ("views", VNum 1)];
              [("date", VStr "2024-01-03"); ("views", VNum 2)] ] _ "week" "views"
            _ _ _ _);
    [repeat constructor | left; reflexivity | vm_compute; reflexivity
    | vm_compute; reflexivity].
Defined.

(** ** What [groupByPeriod] throws, on any rows *)

Lemma accumulate_dated r acc :
  has_string_date acc -> has_string_date (accumulate r acc).
Proof.
  intros [s Hs]. exists s. unfold accumulate, add_field.
  now rewrite !lookup_set_prop_ne by discriminate.
Qed.

Lemma group_step_dated period m r m' :
  Forall (fun kb => has_string_date (snd kb)) m ->
  group_step period m r = Ok m' ->
  Forall (fun kb => has_string_date (snd kb)) m'.
Proof.
  unfold group_step. intros Hm H.
  destruct (period_key period r) as [key|]; simpl in H; [|discriminate].
  injection H as <-.
  apply update_Forall; [intros v; apply accumulate_dated|].
  destruct (JMap.has String.eqb key m); [exact Hm|].
  apply set_Forall; [exact Hm | now exists key].
Qed.

Lemma group_loop_sorts period rows m :
  foldM (group_step period) rows [] = Ok m ->
  exists out, sort compare_dates (JMap.values m) = Ok out.
Proof.
  intros Hm. apply sort_dated. unfold JMap.values. rewrite Forall_map.
  eapply (foldM_inv (fun m => Forall (fun kb => has_string_date (snd kb)) m));
    [| |exact Hm]; [|constructor].
  intros s x s' _ Hs. now apply group_step_dated.
Qed.

Lemma month_key_total r : exists key, period_key (VStr "month") r = Ok key.
Proof. unfold period_key. simpl. eauto. Qed.

(** X20: on any rows, [groupByPeriod] throws nothing but a RangeError, and
    throws exactly when some row has no key, its date not being one that
    [toISOString] can write; by month every row has a key and
    [groupByPeriod] always returns. *)
Theorem groupByPeriod_throws_only (rows : list obj) (p : value) :
  (forall e, groupByPeriod rows p = Throw e -> e = RangeError) /\
  ((exists e, groupByPeriod rows p = Throw e) <->
   exists r, In r rows /\ period_key (default_day p) r = Throw RangeError) /\
  exists out, groupByPeriod rows (VStr "month") = Ok out.
Proof.
  assert (Hloop : forall q e, groupByPeriod rows q = Throw e ->
            exists r, In r rows /\ period_key (default_day q) r = Throw RangeError).
  { intros q e. unfold groupByPeriod.
    destruct (foldM _ rows []) as [m|e'] eqn:Hm; cbn [bind].
    - destruct (group_loop_sorts _ rows m Hm) as [out Hout]. congruence.
    - intros _. now apply group_loop_throws in Hm. }
  split; [|split].
  - intros e H. destruct (Hloop p e H) as (r & Hr & Hk).
    unfold groupByPeriod in H.
    rewrite (group_loop_stops _ rows r Hr Hk) in H. simpl in H. congruence.
  - split.
    + intros [e H]. exact (Hloop p e H).
    + intros (r & Hr & Hk). exists RangeError. unfold groupByPeriod.
      now rewrite (group_loop_stops _ rows r Hr Hk).
  - destruct (groupByPeriod rows (VStr "month")) as [out|e] eqn:E; [eauto|].
    destruct (Hloop _ e E) as (r & _ & Hk). cbn [default_day] in Hk.
    destruct (month_key_total r) as [key Hkey]. congruence.
Qed.

(** ** The token cache, for any lifetime *)

Lemma exchange_when_stale st clock net clock' :
  JS.truthy (accessToken st)
  && JS.lt (VNum (seconds clock)) (JS.sub (tokenExp st) (VNum 60)) = false ->
  exchanged (getAccessToken st clock net clock') = true.
Proof.
  intros H. unfold getAccessToken. rewrite H.
  destruct (fetched net) as [r'|]; [|reflexivity].
  destruct (negb (ok r')); [reflexivity|].
  destruct (read_json r') as [j'|]; [|reflexivity].
  destruct (JS.get j' "access_token"); reflexivity.
Qed.

(** X21: a token stored at time [t0] (in seconds) with the lifetime [n]
    that [expires_in || 3600] gives (3600 when [expires_in] is missing, 0
    or [null]) is returned from the cache, without an exchange, by the
    calls strictly before [t0 + n - 60], and by no later call. *)
Theorem token_lifetime (st0 : cache) (c1 c2 : Z) (r : http_response)
    (j tok : value) (n : Z) :
  exchanged (getAccessToken st0 c1 (Response r) c2) = true ->
  ok r = true ->
  json r = Some j ->
  JS.nullish j = false ->
  JS.get_opt j "access_token" = tok ->
  JS.truthy tok = true ->
  JS.or (JS.get_opt j "expires_in") (VNum 3600) = VNum n ->
  let st := cache_after (getAccessToken st0 c1 (Response r) c2) in
  forall (clock : Z) (net : fetch_outcome) (clock' : Z),
    let run := getAccessToken st clock net clock' in
    (seconds clock < seconds c2 + n - 60 ->
     exchanged run = false /\ outcome run = Ok tok /\ cache_after run = st) /\
    (seconds c2 + n - 60 <= seconds clock -> exchanged run = true).
Proof.
  intros Hex Hok Hj Hn Htok Htruthy Hlife st clock net clock' run.
  assert (Hst : st = {| accessToken := tok; tokenExp := VNum (seconds c2 + n) |}).
  { unfold st. rewrite (cache_after_exchange _ _ _ _ _ Hex Hok Hj Hn).
    now rewrite Hlife, Htok. }
  assert (Hfresh : JS.truthy (accessToken st) &&
                   JS.lt (VNum (seconds clock)) (JS.sub (tokenExp st) (VNum 60))
                   = (seconds clock <? seconds c2 + n - 60)).
  { rewrite Hst. simpl. rewrite Htruthy. reflexivity. }
  split.
  - intros Hlt. apply Z.ltb_lt in Hlt.
    unfold run, getAccessToken. rewrite Hfresh, Hlt. simpl.
    rewrite Hst. auto.
  - intros Hge. apply Z.ltb_ge in Hge.
    apply exchange_when_stale. now rewrite Hfresh.
Qed.

Lemma token_lifetime_witness :
  let r := {| ok := true; status := 200; text := "";
              json := Some (VObj [("access_token", VStr "abc")]) |} in
  let st := cache_after (getAccessToken initial_cache 1000000 (Response r) 1000000) in
  let run := getAccessToken st 4539999 NetworkFailure 4539999 in
  exchanged run = false /\ outcome run = Ok (VStr "abc") /\ cache_after run = st.
Proof.
  refine (proj1 (token_lifetime initial_cache 1000000 1000000
           {| ok := true; status := 200; text := "";
              json := Some (VObj [("access_token", VStr "abc")]) |}
           (VObj [("access_token", VStr "abc")])
           (VStr "abc") 3600 _ _ _ _ _ _ _
           4539999 NetworkFailure 4539999) _);
    vm_compute; reflexivity.
Defined.

(** ** The replies of the handlers *)

Lemma groupByPeriod_error rows p e :
  groupByPeriod rows p = Throw e -> e = RangeError.
Proof.
  unfold groupByPeriod.
  destruct (foldM _ rows []) as [m|e'] eqn:Hm; cbn [bind].
  - destruct (group_loop_sorts _ rows m Hm) as [out Hout]. congruence.
  - intros [= <-]. destruct (group_loop_throws _ _ _ _ Hm) as (r & Hr & Hk).
    rewrite (group_loop_stops _ rows r Hr Hk) in Hm. congruence.
Qed.

(** X22: [/stats] replies 500 with the error of [getAccessToken] when that
    fails, with a fetch error when the item-stats request fails, with a
    syntax error when its body is not JSON; any other 500 carries a type
    error (of the adapter) or a range error (of the grouping).  The HTTP
    status of the item-stats response is never looked at. *)
Theorem stats_errors (st : cache) (clock1 clock2 : Z)
    (token_net items_net calls_net : fetch_outcome) (q : query) :
  let run := getAccessToken st clock1 token_net clock2 in
  let reply := stats st clock1 clock2 token_net items_net calls_net q in
  snd reply = cache_after run /\
  (forall e, outcome run = Throw e -> fst reply = Reply500 e) /\
  (forall tok, outcome run = Ok tok -> items_net = NetworkFailure ->
     fst reply = Reply500 FetchError) /\
  (forall tok r, outcome run = Ok tok -> items_net = Response r ->
     json r = None -> fst reply = Reply500 SyntaxError) /\
  (forall r r', items_net = Response r -> json r' = json r ->
     fst reply
     = fst (stats st clock1 clock2 token_net (Response r') calls_net q)) /\
  (forall e, fst reply = Reply500 e ->
     outcome run = Throw e \/ In e [FetchError; SyntaxError; TypeError; RangeError]).
Proof.
  cbv zeta. unfold stats, stats_body. cbn [fst snd].
  split; [reflexivity|].
  destruct (outcome (getAccessToken st clock1 token_net clock2)) as [tok|e0];
    cbn [bind].
  2:{ repeat split; try discriminate.
      - now intros e [= <-].
      - intros e [= <-]. now left. }
  split; [discriminate|].
  split; [now intros _ _ ->|].
  split; [intros _ r _ -> H; cbn [fetched bind]; unfold read_json; now rewrite H|].
  split; [intros r r' -> H; cbn [fetched bind]; unfold read_json; now rewrite H|].
  intros e. destruct items_net as [|r]; cbn [fetched bind].
  { intros [= <-]. right. simpl. auto. }
  unfold read_json. destruct (json r) as [j1|]; cbn [bind].
  2:{ intros [= <-]. right. simpl. auto. }
  destruct (adaptItemsStats j1) as [rows|e1] eqn:Ea; cbn [bind].
  2:{ intros [= <-]. right. rewrite (adaptItemsStats_error _ _ Ea). simpl. auto. }
  destruct (groupByPeriod _ _) as [out|e2] eqn:Eg; [discriminate|].
  intros [= <-]. right. rewrite (groupByPeriod_error _ _ _ Eg). simpl. auto.
Qed.

(** X23: when the item-stats body is JSON without a list under [result] or
    [data] (an error body, say), whatever the status of the response, and
    the call statistics fail, [/stats] replies 200 with an empty series. *)
Theorem stats_empty_series (st : cache) (clock1 clock2 : Z)
    (token_net items_net calls_net : fetch_outcome) (q : query)
    (tok : value) (r : http_response) (j : value) :
  outcome (getAccessToken st clock1 token_net clock2) = Ok tok ->
  items_net = Response r -> json r = Some j ->
  records_of j = [] ->
  calls_failed calls_net ->
  fst (stats st clock1 clock2 token_net items_net calls_net q)
  = Reply200 (itemId q) [].
Proof.
  intros Htok -> Hj Hrec Hcalls. unfold stats, stats_body. cbn [fst].
  rewrite Htok. cbn [fetched bind]. unfold read_json. rewrite Hj. cbn [bind].
  rewrite adaptItemsStats_records, Hrec. cbn [foldM bind].
  rewrite (with_calls_failed [] calls_net Hcalls). reflexivity.
Qed.

Lemma stats_empty_series_witness :
  fst (stats {| accessToken := VStr "abc"; tokenExp := VNum 5000 |} 1000000 1000000
         NetworkFailure
         (Response {| ok := false; status := 403; text := "";
                      json := Some (VObj [("error", VStr "forbidden")]) |})
         NetworkFailure
         {| itemId := VStr "7"; dateFrom := VUndef; dateTo := VUndef;
            grouping := VUndef |})
  = Reply200 (VStr "7") [].
Proof.
  refine (stats_empty_series
            {| accessToken := VStr "abc"; tokenExp := VNum 5000 |} 1000000 1000000
            NetworkFailure
            (Response {| ok := false; status := 403; text := "";
                         json := Some (VObj [("error", VStr "forbidden")]) |})
            NetworkFailure
            {| itemId := VStr "7"; dateFrom := VUndef; dateTo := VUndef;
               grouping := VUndef |}
            (VStr "abc")
            {| ok := false; status := 403; text := "";
               json := Some (VObj [("error", VStr "forbidden")]) |}
            (VObj [("error", VStr "forbidden")]) _ _ _ _ I);
    vm_compute; reflexivity.
Defined.

(** X24: the two debug handlers reply with the JSON body of the upstream
    response as it is, whatever its status, exactly when [getAccessToken]
    returns and the upstream response has a JSON body; otherwise they
    reply 500 with the error of [getAccessToken], a fetch error or a
    syntax error.  The cache is as [getAccessToken] leaves it. *)
Theorem debug_reply_passthrough (st : cache) (clock1 clock2 : Z)
    (token_net upstream_net : fetch_outcome) :
  let run := getAccessToken st clock1 token_net clock2 in
  debug_calls st clock1 clock2 token_net upstream_net
  = debug_items st clock1 clock2 token_net upstream_net /\
  snd (debug_items st clock1 clock2 token_net upstream_net) = cache_after run /\
  (forall j, fst (debug_items st clock1 clock2 token_net upstream_net) = Debug200 j <->
     (exists tok, outcome run = Ok tok) /\
     exists r, upstream_net = Response r /\ json r = Some j) /\
  (forall e, fst (debug_items st clock1 clock2 token_net upstream_net) = Debug500 e <->
     outcome run = Throw e \/
     (exists tok, outcome run = Ok tok) /\
     (upstream_net = NetworkFailure /\ e = FetchError \/
      exists r, upstream_net = Response r /\ json r = None /\ e = SyntaxError)).
Proof.
  cbv zeta. unfold debug_calls, debug_items, debug_handler, debug_body.
  cbn [fst snd]. split; [reflexivity|]. split; [reflexivity|].
  destruct (outcome (getAccessToken st clock1 token_net clock2)) as [tok|e0];
    cbn [bind].
  2:{ split.
      - intros j. split; [discriminate|]. intros [[tok H] _]. discriminate.
      - intros e. split.
        + intros [= <-]. now left.
        + intros [[= <-]|[[tok H] _]]; [reflexivity | discriminate]. }
  destruct upstream_net as [|r]; cbn [fetched bind].
  { split.
    - intros j. split; [discriminate|]. intros [_ (r & H & _)]. discriminate.
    - intros e. split.
      + intros [= <-]. right. split; [eauto|]. now left.
      + intros [H|[_ [[_ ->]|(r & H & _)]]]; try discriminate. reflexivity. }
  unfold read_json. destruct (json r) as [j1|] eqn:Hj.
  - split.
    + intros j. split.
      * intros [= <-]. split; eauto.
      * intros [_ (r' & [= <-] & H)]. congruence.
    + intros e. split; [discriminate|].
      intros [H|[_ [[H _]|(r' & [= <-] & H & _)]]]; congruence.
  - split.
    + intros j. split; [discriminate|].
      intros [_ (r' & [= <-] & H)]. congruence.
    + intros e. split.
      * intros [= <-]. right. split; [eauto|]. right. eauto.
      * intros [H|[_ [[H _]|(r' & [= <-] & _ & ->)]]]; try discriminate.
        reflexivity.
Qed.
